(** * Pixel transform and dimension policy of the OpenCV image-processing lab

    A shallow embedding of [src/core/utils.py], [src/core/image_processor.py],
    [src/processors/gamma_adjuster.py], [src/processors/rotator.py] and
    [src/processors/resizer.py].

    Python [float] is IEEE-754 binary64: it is modelled by Rocq's primitive
    [float], whose operations are specified by [SpecFloat] at precision 53.
    Python [int] is unbounded: it is modelled by [Z].  Exceptions are an
    explicit error monad. *)

From Stdlib Require Import ZArith List Bool Lia.
From Stdlib Require Import Floats.
From Stdlib Require String Ascii.
Import ListNotations.
Import String.StringSyntax Ascii.AsciiSyntax.
Delimit Scope string_scope with string.

Local Open Scope Z_scope.

(** ** Python runtime: exceptions, numbers, conversions *)

Module Py.

(** The exceptions the modelled code can raise; [Cv2Error] is [cv2.error],
  the exception of the image library. *)
Inductive exn : Set :=
| ValueError
| ZeroDivisionError
| OverflowError
| Cv2Error.

Inductive result (A : Type) : Type :=
| Ok (a : A)
| Raise (e : exn).

Arguments Ok {A} a.
Arguments Raise {A} e.

Definition bind {A B : Type} (r : result A) (k : A -> result B) : result B :=
match r with
| Ok a => k a
| Raise e => Raise e
end.

Definition is_ok {A : Type} (r : result A) : bool :=
match r with Ok _ => true | Raise _ => false end.

(** A Python number as the resolver sees it: [int] or [float]. *)
Inductive num : Set :=
| PyInt (z : Z)
| PyFloat (f : float).

(** Integer part of the non-negative dyadic [m * 2 ^ e]. *)
Definition int_part (m : positive) (e : Z) : Z :=
if 0 <=? e then Zpos m * 2 ^ e else Zpos m / 2 ^ (- e).

(** Exact integer value of a finite binary64 toward zero ([float.__trunc__]). *)
Definition SF_trunc (x : spec_float) : option Z :=
match x with
| S754_zero _ => Some 0
| S754_finite s m e => Some (cond_Zopp s (int_part m e))
| S754_infinity _ | S754_nan => None
end.

(** [int(x)] for a float [x]: truncation toward zero; [int(inf)] raises
  OverflowError and [int(nan)] raises ValueError. *)
Definition int_of_float (x : float) : result Z :=
match Prim2SF x with
| S754_nan => Raise ValueError
| S754_infinity _ => Raise OverflowError
| sf => match SF_trunc sf with Some z => Ok z | None => Raise ValueError end
end.

(** [float(n)] for an int [n]: nearest binary64, ties to even; OverflowError
  when [n] is too large for a float. *)
Definition float_of_int (n : Z) : result float :=
let f := SF2Prim (binary_normalize prec emax n 0 false) in
if is_infinity f then Raise OverflowError else Ok f.

(** [a / b] on two ints: the correctly rounded quotient. *)
Definition int_truediv (a b : Z) : result float :=
let sf (z : Z) :=
  match z with
  | Z0 => S754_zero false
  | Zpos p => S754_finite false p 0
  | Zneg p => S754_finite true p 0
  end in
if b =? 0 then Raise ZeroDivisionError
else
  let q := SF2Prim (SF64div (sf a) (sf b)) in
  if is_infinity q then Raise OverflowError else Ok q.

Definition to_float (x : num) : result float :=
match x with
| PyInt z => float_of_int z
| PyFloat f => Ok f
end.

(** [x * y]. *)
Definition mul (x y : num) : result num :=
match x, y with
| PyInt a, PyInt b => Ok (PyInt (a * b))
| _, _ =>
    bind (to_float x) (fun fx =>
    bind (to_float y) (fun fy =>
    Ok (PyFloat (fx * fy)%float)))
end.

(** [x / y] on two floats: a zero divisor raises ZeroDivisionError. *)
Definition float_truediv (x y : float) : result float :=
if (y =? 0)%float then Raise ZeroDivisionError else Ok (x / y)%float.

(** [x / y]: true division. *)
Definition truediv (x y : num) : result num :=
match x, y with
| PyInt a, PyInt b => bind (int_truediv a b) (fun q => Ok (PyFloat q))
| _, _ =>
    bind (to_float x) (fun fx =>
    bind (to_float y) (fun fy =>
    bind (float_truediv fx fy) (fun q => Ok (PyFloat q))))
end.

(** [int(x)]. *)
Definition int (x : num) : result Z :=
match x with
| PyInt z => Ok z
| PyFloat f => int_of_float f
end.

(** Exact comparison of a float with an int, as [float.__lt__] and
  [float.__gt__] do it for mixed operands. *)
Definition SF_cmp_int (x : spec_float) (n : Z) : option comparison :=
match x with
| S754_nan => None
| S754_infinity s => Some (if s then Lt else Gt)
| S754_zero _ => Some (0 ?= n)
| S754_finite s m e =>
    Some (if 0 <=? e then cond_Zopp s (Zpos m * 2 ^ e) ?= n
          else cond_Zopp s (Zpos m) ?= n * 2 ^ (- e))
end.

(** [x > y]. *)
Definition gt (x y : num) : bool :=
match x, y with
| PyInt a, PyInt b => b <? a
| PyFloat a, PyFloat b => (b <? a)%float
| PyFloat a, PyInt b =>
    match SF_cmp_int (Prim2SF a) b with Some Gt => true | _ => false end
| PyInt a, PyFloat b =>
    match SF_cmp_int (Prim2SF b) a with Some Lt => true | _ => false end
end.

(** Truth value of an [Optional[int]]: [None] and [0] are false. *)
Definition truthy (x : option Z) : bool :=
match x with
| None => false
| Some z => negb (z =? 0)
end.

(** The int held by an [Optional[int]] that has passed a truth test. *)
Definition unwrap (x : option Z) : Z :=
match x with
| None => 0
| Some z => z
end.

End Py.

Import Py.

Notation "x <- c1 ;; c2" := (Py.bind c1 (fun x => c2))
  (at level 61, c1 at next level, right associativity).

(** ** src/core/utils.py: the dimension resolver *)

(** [calculate_aspect_ratio]: [width / height if height != 0 else 0].  The
    fallback is the int [0], not a float. *)
Definition calculate_aspect_ratio (width height : Z) : result num :=
  if negb (height =? 0) then Py.truediv (PyInt width) (PyInt height)
  else Ok (PyInt 0).

(** [get_new_dimensions].  The optional scale factor is tested with
    [is not None], the optional targets for truth. *)
Definition get_new_dimensions
    (original_width original_height : Z)
    (target_width target_height : option Z)
    (scale_factor : option float)
    (maintain_aspect : bool) : result (Z * Z) :=
  match scale_factor with
  | Some s =>
      pw <- Py.mul (PyInt original_width) (PyFloat s) ;;
      w <- Py.int pw ;;
      ph <- Py.mul (PyInt original_height) (PyFloat s) ;;
      h <- Py.int ph ;;
      Ok (w, h)
  | None =>
      if Py.truthy target_width && Py.truthy target_height then
        let tw := Py.unwrap target_width in
        let th := Py.unwrap target_height in
        if maintain_aspect then
          aspect <- calculate_aspect_ratio original_width original_height ;;
          target_aspect <- calculate_aspect_ratio tw th ;;
          if Py.gt target_aspect aspect then
            let new_height := th in
            p <- Py.mul (PyInt new_height) aspect ;;
            new_width <- Py.int p ;;
            Ok (new_width, new_height)
          else
            let new_width := tw in
            q <- Py.truediv (PyInt new_width) aspect ;;
            new_height <- Py.int q ;;
            Ok (new_width, new_height)
        else Ok (tw, th)
      else if Py.truthy target_width then
        let tw := Py.unwrap target_width in
        aspect <- calculate_aspect_ratio original_width original_height ;;
        q <- Py.truediv (PyInt tw) aspect ;;
        h <- Py.int q ;;
        Ok (tw, h)
      else if Py.truthy target_height then
        let th := Py.unwrap target_height in
        aspect <- calculate_aspect_ratio original_width original_height ;;
        p <- Py.mul (PyInt th) aspect ;;
        w <- Py.int p ;;
        Ok (w, th)
      else Ok (original_width, original_height)
  end.

(** *** The resolver as the specification words it

    The contract of the dimension resolver, rule by rule, over the two
    integer conversions it names: [to_int_scale] for the scaled sizes of
    rule 1 and [to_int_aspect] for the sizes derived from an aspect ratio.
    A target counts as given when it is present and not zero. *)

(** Largest integer not above a finite float. *)
Definition floor_of_float (x : float) : result Z :=
  match Prim2SF x with
  | S754_zero _ => Ok 0
  | S754_finite s m e =>
      Ok (if 0 <=? e then cond_Zopp s (Zpos m * 2 ^ e)
          else cond_Zopp s (Zpos m) / 2 ^ (- e))
  | S754_infinity _ => Raise OverflowError
  | S754_nan => Raise ValueError
  end.

(** Nearest integer to a finite float, ties to the even one. *)
Definition round_of_float (x : float) : result Z :=
  match Prim2SF x with
  | S754_zero _ => Ok 0
  | S754_finite s m e =>
      if 0 <=? e then Ok (cond_Zopp s (Zpos m * 2 ^ e))
      else
        let d := 2 ^ (- e) in
        let q := Zpos m / d in
        let r := Zpos m mod d in
        Ok (cond_Zopp s
              match 2 * r ?= d with
              | Lt => q
              | Gt => q + 1
              | Eq => if Z.even q then q else q + 1
              end)
  | S754_infinity _ => Raise OverflowError
  | S754_nan => Raise ValueError
  end.

Inductive geometry_request : Set :=
| ByScale (s : float)
| ByBoth (tw th : Z)
| ByWidth (tw : Z)
| ByHeight (th : Z)
| Unchanged.

Definition given (t : option Z) : option Z :=
  match t with
  | Some z => if z =? 0 then None else Some z
  | None => None
  end.

Definition request_of (target_w target_h : option Z) (scale : option float)
  : geometry_request :=
  match scale with
  | Some s => ByScale s
  | None =>
      match given target_w, given target_h with
      | Some tw, Some th => ByBoth tw th
      | Some tw, None => ByWidth tw
      | None, Some th => ByHeight th
      | None, None => Unchanged
      end
  end.

Section ResolverContract.

Variable to_int_scale to_int_aspect : float -> result Z.

(** [W' = to_int (x * a)] for an int [x] and the aspect ratio [a]. *)
Definition times_aspect (x : Z) (a : float) : result Z :=
  fx <- Py.float_of_int x ;;
  to_int_aspect (fx * a)%float.

(** [H' = to_int (x / a)]. *)
Definition over_aspect (x : Z) (a : float) : result Z :=
  fx <- Py.float_of_int x ;;
  q <- Py.float_truediv fx a ;;
  to_int_aspect q.

Definition resolve_dimensions (W H : Z) (target_w target_h : option Z)
    (scale : option float) (maintain_aspect : bool) : result (Z * Z) :=
  match request_of target_w target_h scale with
  | ByScale s =>
      fw <- Py.float_of_int W ;;
      w' <- to_int_scale (fw * s)%float ;;
      fh <- Py.float_of_int H ;;
      h' <- to_int_scale (fh * s)%float ;;
      Ok (w', h')
  | ByBoth tw th =>
      if maintain_aspect then
        a <- Py.int_truediv W H ;;
        a' <- Py.int_truediv tw th ;;
        if (a <? a')%float then
          w' <- times_aspect th a ;; Ok (w', th)
        else
          h' <- over_aspect tw a ;; Ok (tw, h')
      else Ok (tw, th)
  | ByWidth tw =>
      a <- Py.int_truediv W H ;;
      h' <- over_aspect tw a ;; Ok (tw, h')
  | ByHeight th =>
      a <- Py.int_truediv W H ;;
      w' <- times_aspect th a ;; Ok (w', th)
  | Unchanged => Ok (W, H)
  end.

End ResolverContract.

(** The contract as the specification states it: floor for the scaled sizes,
    rounding to nearest for the sizes derived from the aspect ratio. *)
Definition resolve_dimensions_spec :=
  resolve_dimensions floor_of_float round_of_float.

(** The contract as the code implements it: [int()] everywhere, which
    truncates toward zero. *)
Definition resolve_dimensions_trunc :=
  resolve_dimensions Py.int_of_float Py.int_of_float.

(** ** Image buffers and input validation *)

(** A numpy array of unsigned 8-bit samples: its shape and its samples in
    row-major order. *)
Record ndarray : Set := {
  shape : list Z;
  data : list Z
}.

(** What a caller can pass where an image is expected. *)
Inductive pyobj : Set :=
| PyNone
| PyOther
| PyArray (a : ndarray).

(** [validate_image] of src/core/utils.py. *)
Definition validate_image (image : pyobj) : bool :=
  match image with
  | PyNone => false
  | PyOther => false
  | PyArray a =>
      let rank := Z.of_nat (length (shape a)) in
      if negb ((rank =? 2) || (rank =? 3)) then false else true
  end.

(** [ImageProcessor.validate_input]: ValueError unless [validate_image]. *)
Definition validate_input (image : pyobj) : result ndarray :=
  match image with
  | PyArray a => if negb (validate_image image) then Raise ValueError else Ok a
  | _ => Raise ValueError
  end.

(** [image.copy()]: a fresh array with the same shape and samples. *)
Definition copy (a : ndarray) : ndarray :=
  {| shape := shape a; data := data a |}.

Definition num_elements (a : ndarray) : Z :=
  fold_right Z.mul 1 (shape a).

(** ** src/processors/gamma_adjuster.py *)

(** A gamma value is a Python [float], or a numpy [float64] when it was
    derived from [np.mean]; arithmetic on the latter never raises. *)
Inductive scalar : Set :=
| PyF (x : float)
| NpF (x : float).

Definition scalar_value (g : scalar) : float :=
  match g with PyF x | NpF x => x end.

(** [DOUBLE_IS_ODD_INTEGER]. *)
Definition SF_is_odd_integer (x : spec_float) : bool :=
  match x with
  | S754_finite _ m e =>
      if e =? 0 then Z.odd (Zpos m)
      else if 0 <? e then false
      else (Zpos m mod 2 ^ (- e) =? 0) && Z.odd (Zpos m / 2 ^ (- e))
  | _ => false
  end.

Section Gamma.

(** [pow] of the C library, which Python and numpy call. *)
Variable libm_pow : float -> float -> float.

(** Python's [iv ** iw] on two floats, for a base [iv] that is finite and
    not negative (the bases of the lookup table are [i / 255.0]).  The
    special cases are settled before the C library is called:
    [0.0 ** w] raises ZeroDivisionError for a negative [w]; an infinite
    result of the library call raises OverflowError. *)
Definition float_pow (iv iw : float) : result float :=
  if (iw =? 0)%float then Ok 1%float
  else if is_nan iv then Ok iv
  else if is_nan iw then Ok (if (iv =? 1)%float then 1%float else iw)
  else if is_infinity iw then
    let av := abs iv in
    if (av =? 1)%float then Ok 1%float
    else if Bool.eqb (0 <? iw)%float (1 <? av)%float then Ok (abs iw)
    else Ok 0%float
  else if (iv =? 0)%float then
    if (iw <? 0)%float then Raise ZeroDivisionError
    else Ok (if SF_is_odd_integer (Prim2SF iw) then iv else 0%float)
  else if (iv =? 1)%float then Ok 1%float
  else
    let ix := libm_pow iv iw in
    if is_infinity ix then Raise OverflowError else Ok ix.

(** [1.0 / gamma]. *)
Definition reciprocal (gamma : scalar) : result scalar :=
  match gamma with
  | PyF g => q <- Py.float_truediv 1%float g ;; Ok (PyF q)
  | NpF g => Ok (NpF (1 / g)%float)
  end.

(** [lambda i: ((i / 255.0) ** inv_gamma) * 255]. *)
Definition gamma_curve (inv_gamma : scalar) (i : Z) : result float :=
  fi <- Py.float_of_int i ;;
  x <- Py.float_truediv fi 255%float ;;
  c <- Py.float_of_int 255 ;;
  match inv_gamma with
  | PyF w => p <- float_pow x w ;; Ok (p * c)%float
  | NpF w => Ok (libm_pow x w * c)%float
  end.

(** [.astype(np.uint8)] on a float64: the C conversion, which truncates
    toward zero.  Outside [0, 256) C leaves the conversion to the platform;
    it is modelled as numpy does it on x86-64, through a signed 32-bit
    integer of which the low byte is kept: an integer part of the 32-bit
    range wraps modulo 256, and any other value, NaN and the infinities
    included, gives the integer [- 2 ^ 31], whose low byte is 0. *)
Definition astype_uint8 (x : float) : Z :=
  match Py.SF_trunc (Prim2SF x) with
  | Some z => if (- 2 ^ 31 <=? z) && (z <? 2 ^ 31) then z mod 256 else 0
  | None => 0
  end.

Fixpoint map_result {A B : Type} (f : A -> result B) (l : list A)
  : result (list B) :=
  match l with
  | [] => Ok []
  | a :: l' => b <- f a ;; bs <- map_result f l' ;; Ok (b :: bs)
  end.

(** [range(n)]. *)
Definition range (n : nat) : list Z := map Z.of_nat (seq 0 n).

(** [create_lookup_table] of src/core/utils.py:
    [np.array([func(i) for i in range(256)]).astype(dtype)]. *)
Definition create_lookup_table (func : Z -> result float) : result (list Z) :=
  values <- map_result func (range 256) ;;
  Ok (map astype_uint8 values).

(** [cv2.LUT]: every sample is replaced by the table entry it indexes. *)
Definition LUT (image : ndarray) (table : list Z) : ndarray :=
  {| shape := shape image;
     data := map (fun v => nth (Z.to_nat v) table 0) (data image) |}.

(** The table [GammaAdjuster.process] builds for a gamma other than 1.0. *)
Definition gamma_table (gamma : scalar) : result (list Z) :=
  inv_gamma <- reciprocal gamma ;;
  create_lookup_table (gamma_curve inv_gamma).

(** [GammaAdjuster.process]. *)
Definition gamma_process (default_gamma : scalar) (image : pyobj)
    (gamma : option scalar) : result ndarray :=
  a <- validate_input image ;;
  let gamma := match gamma with None => default_gamma | Some g => g end in
  if (scalar_value gamma =? 1)%float then Ok (copy a)
  else
    lookup_table <- gamma_table gamma ;;
    Ok (LUT a lookup_table).

(** [cv2.cvtColor(image, cv2.COLOR_BGR2GRAY)], which raises [cv2.error] on a
    buffer it does not accept, and [np.mean], which returns a numpy float64
    for every array. *)
Variable cvtColor_BGR2GRAY : ndarray -> result ndarray.
Variable np_mean : ndarray -> float.

(** The gamma chosen by [auto_gamma] from the mean brightness. *)
Definition gamma_of_mean (mean_brightness : float) : scalar :=
  if (mean_brightness <? 85)%float then
    NpF (0.5 + mean_brightness / 170)%float
  else if (170 <? mean_brightness)%float then
    NpF (1 + (mean_brightness - 170) / 170)%float
  else PyF 1%float.

(** [GammaAdjuster.auto_gamma]. *)
Definition auto_gamma (default_gamma : scalar) (image : pyobj)
  : result (scalar * ndarray) :=
  a <- validate_input image ;;
  gray <- (if Z.of_nat (length (shape a)) =? 3 then cvtColor_BGR2GRAY a
           else Ok a) ;;
  let mean_brightness := np_mean gray in
  let gamma := gamma_of_mean mean_brightness in
  corrected <- gamma_process default_gamma image (Some gamma) ;;
  Ok (gamma, corrected).

(** [GammaAdjuster.get_recommended_gamma]. *)
Definition get_recommended_gamma (default_gamma : scalar) (image : pyobj)
  : result scalar :=
  r <- auto_gamma default_gamma image ;;
  Ok (fst r).

End Gamma.

(** ** src/processors/rotator.py *)

(** A 2x3 affine matrix of float64. *)
Record matrix23 : Set := {
  m00 : float; m01 : float; m02 : float;
  m10 : float; m11 : float; m12 : float
}.

Section Rotator.

(** [cos] and [sin] of the C library. *)
Variable libm_cos libm_sin : float -> float.

(** [cv2.warpAffine] with a constant border. *)
Variable warpAffine :
  ndarray -> matrix23 -> Z * Z -> Z * Z * Z -> ndarray.

Definition CV_PI : float := 0x1.921fb54442d18p+1%float.

(** [cv2.getRotationMatrix2D(center, angle, scale)], after OpenCV:
    [alpha = cos(angle) * scale], [beta = sin(angle) * scale] with the
    angle in radians, and the matrix
    [[alpha, beta, (1 - alpha) * cx - beta * cy],
     [-beta, alpha, beta * cx + (1 - alpha) * cy]]. *)
Definition getRotationMatrix2D (cx cy : float) (angle scale : float)
  : matrix23 :=
  let angle := (angle * (CV_PI / 180))%float in
  let alpha := (libm_cos angle * scale)%float in
  let beta := (libm_sin angle * scale)%float in
  {| m00 := alpha; m01 := beta;
     m02 := ((1 - alpha) * cx - beta * cy)%float;
     m10 := (- beta)%float; m11 := alpha;
     m12 := (beta * cx + (1 - alpha) * cy)%float |}.

(** Rounding of a float64 to single precision, kept as a float64. *)
Definition to_single (x : float) : float :=
  match Prim2SF x with
  | S754_finite s m e => SF2Prim (binary_round 24 128 s m e)
  | _ => x
  end.

(** A coordinate of the [Point2f] the binding builds from the centre: the
    int goes through a C double to single precision. *)
Definition Point2f_coord (n : Z) : result float :=
  d <- Py.float_of_int n ;;
  Ok (to_single d).

(** [int((a * s) + (b * c))] for ints [a], [b] and float64 [s], [c]. *)
Definition canvas_side (a : Z) (s : float) (b : Z) (c : float) : result Z :=
  fa <- Py.float_of_int a ;;
  fb <- Py.float_of_int b ;;
  Py.int_of_float (fa * s + fb * c)%float.

(** [(n / 2) - c] for ints [n] and [c]. *)
Definition recentre (n c : Z) : result float :=
  half <- Py.int_truediv n 2 ;;
  fc <- Py.float_of_int c ;;
  Ok (half - fc)%float.

(** The geometry [ImageRotator.process] computes for a non-zero angle:
    the rotation matrix and the output size. *)
Definition rotation_geometry (width height : Z) (degrees : float)
    (expand : bool) (center : option (Z * Z)) (scale : float)
  : result (matrix23 * (Z * Z)) :=
  let center :=
    match center with
    | None => (width / 2, height / 2)
    | Some c => c
    end in
  cx <- Point2f_coord (fst center) ;;
  cy <- Point2f_coord (snd center) ;;
  let rotation_matrix := getRotationMatrix2D cx cy degrees scale in
  if expand then
    let cos := abs (m00 rotation_matrix) in
    let sin := abs (m01 rotation_matrix) in
    new_width <- canvas_side height sin width cos ;;
    new_height <- canvas_side height cos width sin ;;
    dx <- recentre new_width (fst center) ;;
    dy <- recentre new_height (snd center) ;;
    Ok ({| m00 := m00 rotation_matrix; m01 := m01 rotation_matrix;
           m02 := (m02 rotation_matrix + dx)%float;
           m10 := m10 rotation_matrix; m11 := m11 rotation_matrix;
           m12 := (m12 rotation_matrix + dy)%float |},
        (new_width, new_height))
  else Ok (rotation_matrix, (width, height)).

(** [ImageRotator.process]. *)
Definition rotate_process (image : pyobj) (degrees : float) (expand : bool)
    (center : option (Z * Z)) (scale : float) (border_color : Z * Z * Z)
  : result ndarray :=
  a <- validate_input image ;;
  if (degrees =? 0)%float then Ok (copy a)
  else
    let height := nth 0 (shape a) 0 in
    let width := nth 1 (shape a) 0 in
    g <- rotation_geometry width height degrees expand center scale ;;
    Ok (warpAffine a (fst g) (snd g) border_color).

End Rotator.

(** The canvas of an expanded rotation as the specification words it: from
    [|sin theta|] and [|cos theta|] of the angle alone. *)
Definition canvas_size_spec (libm_cos libm_sin : float -> float)
    (W H : Z) (degrees : float) : result (Z * Z) :=
  let theta := (degrees * (CV_PI / 180))%float in
  w <- canvas_side H (abs (libm_sin theta)) W (abs (libm_cos theta)) ;;
  h <- canvas_side H (abs (libm_cos theta)) W (abs (libm_sin theta)) ;;
  Ok (w, h).

(** The angle of a quarter turn, in radians, as [getRotationMatrix2D]
    computes it: [90 * (CV_PI / 180)]. *)
Definition quarter_turn : float := 0x1.921fb54442d18p+0%float.

(** Correctly rounded [cos] and [sin] at the quarter turn; any C library
    returns these two values there.  Elsewhere the two functions are left
    at the values of the angle 0. *)
Definition quarter_cos (x : float) : float :=
  if (x =? quarter_turn)%float then 0x1.1a62633145c07p-54%float else 1%float.

Definition quarter_sin (x : float) : float :=
  if (x =? quarter_turn)%float then 1%float else 0%float.

(** The input level [i / 255.0] of table entry [i]. *)
Definition level (i : Z) : float :=
  match Py.float_of_int i with
  | Ok fi => (fi / 255)%float
  | Raise _ => nan
  end.

(** A 2x2 grayscale image and an image with no samples. *)
Definition sample_image : ndarray := {| shape := [2; 2]; data := [0; 64; 128; 255] |}.
Definition empty_image : ndarray := {| shape := [0; 0]; data := [] |}.

(** A 2x2 image with two channels. *)
Definition two_channel_image : ndarray :=
  {| shape := [2; 2; 2]; data := [10; 20; 30; 40; 50; 60; 70; 80] |}.

(** A 1x1 image with three channels. *)
Definition one_pixel_image : ndarray := {| shape := [1; 1; 3]; data := [90; 127; 200] |}.

(** ** Strings, dictionaries and the exceptions of the processors *)

(** A Python [str] of code points below 256, one per character. *)
Definition str : Set := String.string.

(** [c.lower()] for one character: the capital Latin letters, [A] to [Z]
    and the accented ones from 192 to 222 except the multiplication sign
    215, move 32 code points up; every other character stays. *)
Definition lower_char (c : Ascii.ascii) : Ascii.ascii :=
  let n := Ascii.N_of_ascii c in
  if ((65 <=? n) && (n <=? 90)
      || (192 <=? n) && (n <=? 222) && negb (n =? 215))%N
  then Ascii.ascii_of_N (n + 32)
  else c.

(** [s.lower()]. *)
Fixpoint lower (s : str) : str :=
  match s with
  | String.EmptyString => String.EmptyString
  | String.String c s' => String.String (lower_char c) (lower s')
  end.

(** A dict with [str] keys written as a literal: its items in order. *)
Definition dict (V : Type) : Type := list (str * V).

(** [d.get(key)]: [None] when the key is missing. *)
Fixpoint dict_get {V : Type} (d : dict V) (key : str) : option V :=
  match d with
  | [] => None
  | (k, v) :: d' => if String.eqb k key then Some v else dict_get d' key
  end.

(** [list(d.keys())]. *)
Definition dict_keys {V : Type} (d : dict V) : list str := map fst d.

(** The exceptions of the processors: those of the arithmetic and of the
    image library, and the two raised by look-ups. *)
Inductive exception : Set :=
| Builtin (e : Py.exn)
| KeyError
| IndexError.

Inductive outcome (A : Type) : Type :=
| Return (a : A)
| Throw (e : exception).

Arguments Return {A} a.
Arguments Throw {A} e.

Definition outcome_bind {A B : Type} (r : outcome A) (k : A -> outcome B)
  : outcome B :=
  match r with
  | Return a => k a
  | Throw e => Throw e
  end.

(** A computation that raises only arithmetic or library exceptions. *)
Definition lift {A : Type} (r : result A) : outcome A :=
  match r with
  | Ok a => Return a
  | Raise e => Throw (Builtin e)
  end.

Notation "x <~ c1 ;; c2" := (outcome_bind c1 (fun x => c2))
  (at level 61, c1 at next level, right associativity).

(** ** src/core/utils.py: image information and colour order *)

(** The dictionary [get_image_info] returns, one field per key. *)
Record image_info : Set := {
  info_shape : list Z;
  info_dtype : str;
  info_size : Z;
  info_nbytes : Z;
  info_height : Z;
  info_width : Z;
  info_channels : Z;
  info_color_mode : str
}.

(** [get_image_info].  The arrays are of unsigned 8-bit samples, so
    [dtype] is uint8 and [nbytes] is [size]. *)
Definition get_image_info (image : pyobj) : result image_info :=
  match image with
  | PyArray a =>
      if negb (validate_image image) then Raise ValueError
      else
        let channels :=
          if Z.of_nat (length (shape a)) =? 3 then nth 2 (shape a) 0 else 1 in
        let color_mode :=
          if Z.of_nat (length (shape a)) =? 3 then
            if nth 2 (shape a) 0 =? 3 then "Color"%string else "RGBA"%string
          else "Grayscale"%string in
        Ok {| info_shape := shape a;
              info_dtype := "uint8"%string;
              info_size := num_elements a;
              info_nbytes := num_elements a;
              info_height := nth 0 (shape a) 0;
              info_width := nth 1 (shape a) 0;
              info_channels := channels;
              info_color_mode := color_mode |}
  | _ => Raise ValueError
  end.

(** The colour conversions of [cv2.cvtColor] the module asks for. *)
Inductive color_code : Set :=
| COLOR_GRAY2RGB
| COLOR_RGBA2RGB
| COLOR_BGR2RGB
| COLOR_RGB2BGR.

(** One sample becomes three equal ones. *)
Fixpoint gray_to_rgb (d : list Z) : list Z :=
  match d with
  | [] => []
  | v :: d' => v :: v :: v :: gray_to_rgb d'
  end.

(** The fourth sample of every pixel is dropped. *)
Fixpoint drop_alpha (d : list Z) : list Z :=
  match d with
  | c0 :: c1 :: c2 :: _ :: d' => c0 :: c1 :: c2 :: drop_alpha d'
  | _ => []
  end.

(** The first and third sample of every pixel change places. *)
Fixpoint swap_channels (d : list Z) : list Z :=
  match d with
  | c0 :: c1 :: c2 :: d' => c2 :: c1 :: c0 :: swap_channels d'
  | _ => d
  end.

(** [cv2.cvtColor(src, code)] on the buffers this module hands to it: a
    plane of rank 2 for GRAY2RGB, a buffer of rank 3 with four channels for
    RGBA2RGB and with three channels for BGR2RGB and RGB2BGR, which are one
    and the same conversion.  The library raises [cv2.error] on an empty
    buffer.  Other layouts are not modelled: the definition raises on
    them, and no caller below reaches that case with a validated image. *)
Definition cvtColor (src : ndarray) (code : color_code) : result ndarray :=
  let rank := Z.of_nat (length (shape src)) in
  let height := nth 0 (shape src) 0 in
  let width := nth 1 (shape src) 0 in
  if num_elements src =? 0 then Raise Cv2Error
  else
    match code with
    | COLOR_GRAY2RGB =>
        if rank =? 2 then
          Ok {| shape := [height; width; 3]; data := gray_to_rgb (data src) |}
        else Raise Cv2Error
    | COLOR_RGBA2RGB =>
        if (rank =? 3) && (nth 2 (shape src) 0 =? 4) then
          Ok {| shape := [height; width; 3]; data := drop_alpha (data src) |}
        else Raise Cv2Error
    | COLOR_BGR2RGB | COLOR_RGB2BGR =>
        if (rank =? 3) && (nth 2 (shape src) 0 =? 3) then
          Ok {| shape := shape src; data := swap_channels (data src) |}
        else Raise Cv2Error
    end.

(** [image.shape[2]]: IndexError on a shape with fewer than three entries. *)
Definition shape_2 (a : ndarray) : outcome Z :=
  match nth_error (shape a) 2 with
  | Some c => Return c
  | None => Throw IndexError
  end.

(** [ensure_color]. *)
Definition ensure_color (image : ndarray) : outcome ndarray :=
  if Z.of_nat (length (shape image)) =? 2 then
    lift (cvtColor image COLOR_GRAY2RGB)
  else
    c <~ shape_2 image ;;
    if c =? 4 then lift (cvtColor image COLOR_RGBA2RGB)
    else Return image.

(** [bgr_to_rgb]. *)
Definition bgr_to_rgb (image : ndarray) : result ndarray :=
  if (Z.of_nat (length (shape image)) =? 3) && (nth 2 (shape image) 0 =? 3)
  then cvtColor image COLOR_BGR2RGB
  else Ok image.

(** [rgb_to_bgr]. *)
Definition rgb_to_bgr (image : ndarray) : result ndarray :=
  if (Z.of_nat (length (shape image)) =? 3) && (nth 2 (shape image) 0 =? 3)
  then cvtColor image COLOR_RGB2BGR
  else Ok image.

(** ** src/processors/resizer.py *)

(** The interpolation flags of [cv2.resize]. *)
Inductive interpolation_flag : Set :=
| INTER_NEAREST
| INTER_LINEAR
| INTER_CUBIC
| INTER_AREA
| INTER_LANCZOS4.

(** [ImageResizer.INTERPOLATION_METHODS]. *)
Definition INTERPOLATION_METHODS : dict interpolation_flag :=
  [ ("nearest"%string, INTER_NEAREST);
    ("linear"%string, INTER_LINEAR);
    ("cubic"%string, INTER_CUBIC);
    ("area"%string, INTER_AREA);
    ("lanczos"%string, INTER_LANCZOS4) ].

(** [ImageResizer._get_interpolation_method].  The name is looked up in
    lower case with [get]; the fall-back is subscripted with the default
    name as it stands, which raises KeyError when it is not a key. *)
Definition _get_interpolation_method (default_interpolation : str)
    (interpolation : option str) : outcome interpolation_flag :=
  let interpolation :=
    match interpolation with
    | None => default_interpolation
    | Some name => name
    end in
  match dict_get INTERPOLATION_METHODS (lower interpolation) with
  | Some method => Return method
  | None =>
      match dict_get INTERPOLATION_METHODS default_interpolation with
      | Some method => Return method
      | None => Throw KeyError
      end
  end.

Fixpoint map_outcome {A B : Type} (f : A -> outcome B) (l : list A)
  : outcome (list B) :=
  match l with
  | [] => Return []
  | a :: l' => b <~ f a ;; bs <~ map_outcome f l' ;; Return (b :: bs)
  end.

Section Resizer.

(** [cv2.resize(image, (width, height), interpolation=...)], which raises
    [cv2.error] on a size it does not accept. *)
Variable resize : ndarray -> Z * Z -> interpolation_flag -> result ndarray.

(** [ImageResizer.process]. *)
Definition resize_process (default_interpolation : str) (image : pyobj)
    (width height : option Z) (scale : option float) (maintain_aspect : bool)
    (interpolation : option str) : outcome ndarray :=
  a <~ lift (validate_input image) ;;
  let original_height := nth 0 (shape a) 0 in
  let original_width := nth 1 (shape a) 0 in
  dims <~ lift (get_new_dimensions original_width original_height
                  width height scale maintain_aspect) ;;
  let new_width := fst dims in
  let new_height := snd dims in
  if (new_width =? original_width) && (new_height =? original_height) then
    Return (copy a)
  else
    interp_method <~ _get_interpolation_method default_interpolation
                       interpolation ;;
    lift (resize a (new_width, new_height) interp_method).

(** [ImageResizer.resize_by_percentage]: the scale [percentage / 100.0] is
    computed before the image is looked at. *)
Definition resize_by_percentage (default_interpolation : str) (image : pyobj)
    (percentage : Z) (interpolation : option str) : outcome ndarray :=
  scale <~ lift (p <- Py.float_of_int percentage ;;
                 Py.float_truediv p 100%float) ;;
  resize_process default_interpolation image None None (Some scale) true
    interpolation.

(** [ImageResizer.resize_to_max_dimension]. *)
Definition resize_to_max_dimension (default_interpolation : str)
    (image : pyobj) (max_dimension : Z) (interpolation : option str)
  : outcome ndarray :=
  a <~ lift (validate_input image) ;;
  let height := nth 0 (shape a) 0 in
  let width := nth 1 (shape a) 0 in
  if Z.max width height <=? max_dimension then Return (copy a)
  else if height <? width then
    resize_process default_interpolation image (Some max_dimension) None None
      true interpolation
  else
    resize_process default_interpolation image None (Some max_dimension) None
      true interpolation.

(** [ImageResizer.compare_methods]: one result per key of
    [INTERPOLATION_METHODS], in the order of the keys. *)
Definition compare_methods (default_interpolation : str) (image : pyobj)
    (width height : option Z) (scale : option float) : outcome (dict ndarray) :=
  map_outcome
    (fun method_name =>
       r <~ resize_process default_interpolation image width height scale
              true (Some method_name) ;;
       Return (method_name, r))
    (dict_keys INTERPOLATION_METHODS).

End Resizer.

(** ** src/processors/rotator.py: quarter turns *)

(** The codes of [cv2.rotate]. *)
Inductive rotate_code : Set :=
| ROTATE_90_CLOCKWISE
| ROTATE_180
| ROTATE_90_COUNTERCLOCKWISE.

Section QuarterTurns.

(** [cv2.rotate], which raises [cv2.error] on a buffer it does not
    accept. *)
Variable cv2_rotate : ndarray -> rotate_code -> result ndarray.

(** [ImageRotator.rotate_90]; [times % 4] has the sign of 4. *)
Definition rotate_90 (image : pyobj) (times : Z) : result ndarray :=
  a <- validate_input image ;;
  let times := times mod 4 in
  if times =? 0 then Ok (copy a)
  else if times =? 1 then cv2_rotate a ROTATE_90_COUNTERCLOCKWISE
  else if times =? 2 then cv2_rotate a ROTATE_180
  else cv2_rotate a ROTATE_90_CLOCKWISE.

(** [ImageRotator.rotate_180]. *)
Definition rotate_180 (image : pyobj) : result ndarray :=
  rotate_90 image 2.

End QuarterTurns.

(** ** src/core/image_processor.py: batches of processors *)

(** What [BatchProcessor] needs of a processor: its [process] method, with
    the keyword arguments of the batch already applied. *)
Definition processor : Type := ndarray -> outcome ndarray.

(** The state of a [BatchProcessor]: its list of processors. *)
Record BatchProcessor : Type := {
  processors : list processor
}.

(** [BatchProcessor()]. *)
Definition new_batch : BatchProcessor := {| processors := [] |}.

(** [add_processor]: the processor is appended and the batch returned. *)
Definition add_processor (self : BatchProcessor) (p : processor)
  : BatchProcessor :=
  {| processors := processors self ++ [p] |}.

(** The loop of [BatchProcessor.process] from the current [result]. *)
Fixpoint run_processors (ps : list processor) (result : ndarray)
  : outcome ndarray :=
  match ps with
  | [] => Return result
  | p :: ps' => r <~ p result ;; run_processors ps' r
  end.

(** [BatchProcessor.process]. *)
Definition batch_process (self : BatchProcessor) (image : ndarray)
  : outcome ndarray :=
  run_processors (processors self) (copy image).

(** [BatchProcessor.clear]. *)
Definition batch_clear (self : BatchProcessor) : BatchProcessor :=
  {| processors := [] |}.

(** [BatchProcessor.__len__]. *)
Definition batch_len (self : BatchProcessor) : Z :=
  Z.of_nat (length (processors self)).

(** ** Auxiliary definitions of the proofs *)

(** Sign of a binary64 datum, when it has one. *)
Definition sf_sign (x : spec_float) : option bool :=
  match x with
  | S754_zero s | S754_infinity s | S754_finite s _ _ => Some s
  | S754_nan => None
  end.

Definition sf_finite (x : spec_float) : bool :=
  match x with
  | S754_zero _ | S754_finite _ _ _ => true
  | S754_infinity _ | S754_nan => false
  end.

(** The integer nearest to [n / 2 ^ k], ties to the even one. *)
Definition RNE (n k : Z) : Z :=
  let q := n / 2 ^ k in
  let r := n mod 2 ^ k in
  match 2 * r ?= 2 ^ k with
  | Lt => q
  | Gt => q + 1
  | Eq => if Z.even q then q else q + 1
  end.

(** What [k] right shifts of [n] leave in a shift record: the quotient,
    and where the remainder lies. *)
Definition shr_inv (n k : Z) (mrs : shr_record) : Prop :=
  shr_m mrs = n / 2 ^ k
  /\ match shr_r mrs, shr_s mrs with
     | false, false => n mod 2 ^ k = 0
     | false, true => 0 < 2 * (n mod 2 ^ k) < 2 ^ k
     | true, false => 2 * (n mod 2 ^ k) = 2 ^ k
     | true, true => 2 ^ k < 2 * (n mod 2 ^ k)
     end.

(** A product with 255.0, as a function of its exact value

    [N] is the exact product in units of [2 ^ -1119], the weight of the
    last bit of the smallest subnormal times 255.0. *)

Definition product_exponent (N : Z) : Z :=
  fexp prec emax (Zdigits2 N - 1119).

Definition product_floor (N : Z) : Z :=
  RNE N (product_exponent N + 1119) / 2 ^ (- product_exponent N).

(** The exact product of the finite float [m * 2 ^ e] and 255.0, in units
    of [2 ^ -1119]. *)
Definition scaled255 (m : positive) (e : Z) : Z :=
  Z.pos m * 8972014882652160 * 2 ^ (e + 1074).

(** The power [level i ** w] of table entry [i], when Python returns it. *)
Definition power_level (libm_pow : float -> float -> float) (w : float) (i : Z)
  : float :=
  match float_pow libm_pow (level i) w with
  | Ok p => p
  | Raise _ => nan
  end.

(** [x ** inv_gamma] for a Python float [x], as the lambda of [process]
    computes it: Python's power when [inv_gamma] is a Python float, numpy's
    when it is a numpy float64, which calls the C library on every base and
    raises nothing. *)
Definition scalar_pow (libm_pow : float -> float -> float) (x : float)
    (inv_gamma : scalar) : result float :=
  match inv_gamma with
  | PyF w => float_pow libm_pow x w
  | NpF w => Ok (libm_pow x w)
  end.

(** What the C standard (Annex F) fixes of [pow] at the two end levels:
    [pow(+0, w)] is [+0] for [w > 0] and [pow(1, w)] is 1.  A numpy gamma
    reaches the C library at these two bases; with a Python float Python
    settles them itself. *)
Definition pow_at_ends (libm_pow : float -> float -> float) (gamma : scalar)
  : Prop :=
  match gamma with
  | PyF _ => True
  | NpF g =>
      libm_pow 0%float (1 / g)%float = 0%float
      /\ libm_pow 1%float (1 / g)%float = 1%float
  end.

(** The integer nearest to [n / d], ties to the even one. *)
Definition RNQ (n d : Z) : Z :=
  let q := n / d in
  let r := n mod d in
  match 2 * r ?= d with
  | Lt => q
  | Gt => q + 1
  | Eq => if Z.even q then q else q + 1
  end.

(** What a shift record holds of the quotient [n / d]: its integer part,
    and where the remainder lies. *)
Definition shr_quotient (n d : Z) (mrs : shr_record) : Prop :=
  shr_m mrs = n / d
  /\ match shr_r mrs, shr_s mrs with
     | false, false => n mod d = 0
     | false, true => 0 < 2 * (n mod d) < d
     | true, false => 2 * (n mod d) = d
     | true, true => d < 2 * (n mod d)
     end.

(** Order of the dyadic numbers [c1 * 2 ^ g1] and [c2 * 2 ^ g2], read at
    the smaller of the two exponents. *)
Definition dyadic_le (c1 g1 c2 g2 : Z) : Prop :=
  c1 * 2 ^ (g1 - Z.min g1 g2) <= c2 * 2 ^ (g2 - Z.min g1 g2).

(** * Theorems *)

(** ** Binary64: signs of rounded results *)

Lemma iter_pos_invariant {A : Type} (P : A -> Prop) (f : A -> A) :
  (forall x, P x -> P (f x)) ->
  forall p x, P x -> P (iter_pos f p x).
Proof.
  intros Hf. induction p as [p IH|p IH|]; intros x Hx; simpl; auto.
Qed.

Lemma shr_1_nonneg mrs : 0 <= shr_m mrs -> 0 <= shr_m (shr_1 mrs).
Proof.
  destruct mrs as [m r s]. simpl.
  destruct m as [|[p|p|]|p]; simpl; lia.
Qed.

Lemma shr_nonneg mrs e n : 0 <= shr_m mrs -> 0 <= shr_m (fst (shr mrs e n)).
Proof.
  intros H. destruct n as [|p|p]; simpl; trivial.
  apply iter_pos_invariant; trivial. apply shr_1_nonneg.
Qed.

Lemma shr_fexp_nonneg m e l :
  0 <= m -> 0 <= shr_m (fst (shr_fexp prec emax m e l)).
Proof.
  intros H. unfold shr_fexp. apply shr_nonneg.
  destruct l as [|[| |]]; exact H.
Qed.

Lemma round_nearest_even_nonneg m l :
  0 <= m -> 0 <= round_nearest_even m l.
Proof.
  intros H. destruct l as [|[| |]]; simpl; try lia.
  destruct (Z.even m); lia.
Qed.

Lemma binary_round_aux_sign sx m e l :
  0 <= m -> sf_sign (binary_round_aux prec emax sx m e l) = Some sx.
Proof.
  intros H. unfold binary_round_aux.
  pose proof (shr_fexp_nonneg m e l H) as H1.
  destruct (shr_fexp prec emax m e l) as [mrs' e']. simpl in H1.
  pose proof (shr_fexp_nonneg _ e' loc_Exact
                (round_nearest_even_nonneg _ (loc_of_shr_record mrs') H1)) as H2.
  destruct (shr_fexp prec emax _ e' loc_Exact) as [mrs'' e'']. simpl in H2.
  destruct (shr_m mrs'') as [|p|p]; try reflexivity.
  - destruct (e'' <=? emax - prec); reflexivity.
  - lia.
Qed.

Lemma binary_round_sign sx m e :
  sf_sign (binary_round prec emax sx m e) = Some sx.
Proof.
  unfold binary_round.
  destruct (shl_align m e _) as [mz ez].
  apply binary_round_aux_sign. lia.
Qed.

Lemma binary_normalize_sign n :
  sf_sign (binary_normalize prec emax n 0 false) = Some (n <? 0).
Proof.
  destruct n; simpl; try apply binary_round_sign. reflexivity.
Qed.

Lemma SFldexp_sign x e : sf_sign (SFldexp prec emax x e) = sf_sign x.
Proof.
  destruct x; simpl; try reflexivity. apply binary_round_sign.
Qed.

(** Converting a rounded result to a primitive float keeps its sign. *)
Lemma Prim2SF_SF2Prim_sign x :
  sf_sign (Prim2SF (SF2Prim x)) = sf_sign x.
Proof.
  destruct x as [[|]|[|]| |s m e]; try reflexivity.
  unfold SF2Prim.
  assert (Hs : sf_sign (Prim2SF (Z.ldexp (of_uint63 (Uint63Axioms.of_Z (Zpos m))) e))
               = Some false).
  { rewrite Z_ldexp_spec, SFldexp_sign, of_uint63_spec, binary_normalize_sign.
    f_equal. apply Z.ltb_ge. apply Uint63.to_Z_bounded. }
  destruct s; simpl; trivial.
  rewrite opp_spec.
  destruct (Prim2SF _); simpl in *; try discriminate;
    injection Hs as ->; reflexivity.
Qed.

Lemma SF64mul_sign x y sx sy :
  sf_sign x = Some sx -> sf_sign y = Some sy ->
  SF64mul x y = S754_nan \/ sf_sign (SF64mul x y) = Some (xorb sx sy).
Proof.
  destruct x as [s1|s1| |s1 m1 e1], y as [s2|s2| |s2 m2 e2];
    simpl; intros [= <-] [= <-]; auto.
  right. apply binary_round_aux_sign. lia.
Qed.

Lemma SF64div_finite_sign s1 m1 e1 s2 m2 e2 :
  sf_sign (SF64div (S754_finite s1 m1 e1) (S754_finite s2 m2 e2))
  = Some (xorb s1 s2).
Proof.
  unfold SF64div, SFdiv.
  destruct (SFdiv_core_binary prec emax (Z.pos m1) e1 (Z.pos m2) e2)
    as [[mz ez] lz] eqn:E.
  apply binary_round_aux_sign.
  unfold SFdiv_core_binary in E.
  set (k := (e1 - e2 - _)%Z) in E.
  set (m' := match k with Z.pos _ => Z.shiftl (Z.pos m1) k | 0 => Z.pos m1 | Z.neg _ => 0 end) in E.
  assert (Hm' : 0 <= m').
  { subst m'. destruct k; try lia. apply Z.shiftl_nonneg. lia. }
  pose proof (Z.div_pos m' (Z.pos m2) Hm' eq_refl) as Hq.
  unfold Z.div in Hq. destruct (Z.div_eucl m' (Z.pos m2)) as [q r].
  injection E as <- _ _. exact Hq.
Qed.

(** ** Binary64: tests read off the datum *)

Lemma is_infinity_spec (f : float) :
  is_infinity f = match Prim2SF f with S754_infinity _ => true | _ => false end.
Proof.
  unfold is_infinity. rewrite eqb_spec, abs_spec.
  change (Prim2SF infinity) with (S754_infinity false).
  destruct (Prim2SF f) as [s|s| |s m e]; reflexivity.
Qed.

Lemma Pos_compare_cont_refl m : Pos.compare_cont Eq m m = Eq.
Proof. apply Pos.compare_refl. Qed.

Lemma SFcompare_refl_finite s m e :
  SFcompare (S754_finite s m e) (S754_finite s m e) = Some Eq.
Proof.
  unfold SFcompare. rewrite Z.compare_refl, Pos_compare_cont_refl.
  destruct s; reflexivity.
Qed.

Lemma is_nan_spec (f : float) :
  is_nan f = match Prim2SF f with S754_nan => true | _ => false end.
Proof.
  unfold is_nan. rewrite eqb_spec. unfold SFeqb.
  destruct (Prim2SF f) as [s|s| |s m e]; try (destruct s; reflexivity).
  - reflexivity.
  - rewrite SFcompare_refl_finite. reflexivity.
Qed.

Lemma eqb_zero_spec (f : float) :
  (f =? 0)%float = match Prim2SF f with S754_zero _ => true | _ => false end.
Proof.
  rewrite eqb_spec. change (Prim2SF 0) with (S754_zero false).
  destruct (Prim2SF f) as [s|s| |s m e]; try (destruct s; reflexivity); reflexivity.
Qed.

Lemma zero_ltb_spec (f : float) :
  (0 <? f)%float
  = match Prim2SF f with
    | S754_finite false _ _ | S754_infinity false => true
    | _ => false
    end.
Proof.
  rewrite ltb_spec. change (Prim2SF 0) with (S754_zero false).
  destruct (Prim2SF f) as [s|s| |s m e]; try (destruct s; reflexivity); reflexivity.
Qed.

Lemma ltb_zero_spec (f : float) :
  (f <? 0)%float
  = match Prim2SF f with
    | S754_finite true _ _ | S754_infinity true => true
    | _ => false
    end.
Proof.
  rewrite ltb_spec. change (Prim2SF 0) with (S754_zero false).
  destruct (Prim2SF f) as [s|s| |s m e]; try (destruct s; reflexivity); reflexivity.
Qed.

Lemma unit_float_finite q :
  (0 <=? q)%float = true -> (q <=? 1)%float = true -> is_infinity q = false.
Proof.
  rewrite !leb_spec, is_infinity_spec.
  change (Prim2SF 0) with (S754_zero false).
  change (Prim2SF 1) with (S754_finite false 4503599627370496 (-52)).
  destruct (Prim2SF q) as [s|[|]| |s m e]; try discriminate; reflexivity.
Qed.

Lemma SFleb_finite_pos m1 e1 m2 e2 :
  SFleb (S754_finite false m1 e1) (S754_finite false m2 e2) = true ->
  e1 < e2 \/ (e1 = e2 /\ Z.pos m1 <= Z.pos m2).
Proof.
  unfold SFleb, SFcompare.
  destruct (Z.compare_spec e1 e2) as [E|E|E]; try discriminate; auto.
  change (Pos.compare_cont Eq m1 m2) with (Pos.compare m1 m2).
  destruct (Pos.compare_spec m1 m2) as [C|C|C]; try discriminate; intros _; right; split; trivial; lia.
Qed.

Lemma SFleb_finite_pos_intro m1 e1 m2 e2 :
  e1 < e2 \/ (e1 = e2 /\ Z.pos m1 <= Z.pos m2) ->
  SFleb (S754_finite false m1 e1) (S754_finite false m2 e2) = true.
Proof.
  intros H. unfold SFleb, SFcompare.
  destruct (Z.compare_spec e1 e2) as [E|E|E]; try reflexivity; try lia.
  change (Pos.compare_cont Eq m1 m2) with (Pos.compare m1 m2).
  destruct (Pos.compare_spec m1 m2) as [C|C|C]; try reflexivity. lia.
Qed.

(** ** Conversions between int and float *)

Lemma int_part_nonneg m e : 0 <= Py.int_part m e.
Proof.
  unfold Py.int_part. destruct (0 <=? e) eqn:E.
  - apply Z.leb_le in E. apply Z.mul_nonneg_nonneg; [lia|]. apply Z.pow_nonneg. lia.
  - apply Z.leb_gt in E. apply Z.div_pos; [lia|]. apply Z.pow_pos_nonneg; lia.
Qed.

Lemma SF_trunc_sign x z :
  Py.SF_trunc x = Some z ->
  match sf_sign x with
  | Some true => z <= 0
  | Some false => 0 <= z
  | None => True
  end.
Proof.
  destruct x as [s|s| |s m e]; unfold Py.SF_trunc; try discriminate.
  - intros [= <-]. destruct s; simpl; lia.
  - intros [= <-]. pose proof (int_part_nonneg m e).
    destruct s; unfold sf_sign, cond_Zopp; lia.
Qed.

Lemma int_of_float_trunc x z :
  Py.int_of_float x = Ok z -> Py.SF_trunc (Prim2SF x) = Some z.
Proof.
  unfold Py.int_of_float.
  destruct (Prim2SF x) as [s|s| |s m e]; simpl; try discriminate;
    intros [= <-]; reflexivity.
Qed.

Lemma int_of_float_of_trunc x z :
  Py.SF_trunc (Prim2SF x) = Some z -> Py.int_of_float x = Ok z.
Proof.
  unfold Py.int_of_float.
  destruct (Prim2SF x) as [s|s| |s m e]; try discriminate;
    cbn [Py.SF_trunc]; intros [= <-]; reflexivity.
Qed.

(** On a float that is not negative, [int()] is the floor. *)
Lemma int_of_float_floor (x : float) :
  (0 <=? x)%float = true ->
  Py.int_of_float x = floor_of_float x.
Proof.
  rewrite leb_spec. change (Prim2SF 0) with (S754_zero false).
  unfold Py.int_of_float, floor_of_float.
  destruct (Prim2SF x) as [s|s| |[|] m e]; try reflexivity.
  discriminate.
Qed.

Lemma float_of_int_shape n f :
  Py.float_of_int n = Ok f ->
  sf_finite (Prim2SF f) = true /\ sf_sign (Prim2SF f) = Some (n <? 0).
Proof.
  unfold Py.float_of_int.
  pose proof (Prim2SF_SF2Prim_sign (binary_normalize prec emax n 0 false)) as Hs.
  rewrite binary_normalize_sign in Hs.
  rewrite is_infinity_spec.
  destruct (Prim2SF (SF2Prim _)) as [s|s| |s m e] eqn:E;
    try discriminate; intros [= <-]; rewrite E; auto.
Qed.

(** ** Binary64: rounding of exact results *)

Lemma shr_1_spec m r s :
  0 <= m ->
  shr_1 (Build_shr_record m r s) = Build_shr_record (m / 2) (Z.odd m) (r || s).
Proof.
  intros Hm. rewrite <- Z.div2_div.
  destruct m as [|[p|p|]|p]; try reflexivity. lia.
Qed.

Lemma shr_1_inv n k mrs :
  0 <= n -> 0 <= k -> shr_inv n k mrs -> shr_inv n (k + 1) (shr_1 mrs).
Proof.
  intros Hn Hk [Hm Hloc]. destruct mrs as [m r s].
  cbn [shr_m shr_r shr_s] in Hm, Hloc.
  assert (H2k : 0 < 2 ^ k) by (apply Z.pow_pos_nonneg; lia).
  assert (Hm0 : 0 <= m) by (subst m; apply Z.div_pos; lia).
  rewrite shr_1_spec by exact Hm0.
  assert (Epow : 2 ^ (k + 1) = 2 ^ k * 2) by (rewrite Z.pow_add_r by lia; reflexivity).
  assert (Ediv : n / 2 ^ (k + 1) = m / 2).
  { rewrite Epow, <- Z.div_div by lia. subst m. reflexivity. }
  assert (Emod : n mod 2 ^ (k + 1) = n mod 2 ^ k + 2 ^ k * (m mod 2)).
  { rewrite Epow, Z.rem_mul_r by lia. subst m. reflexivity. }
  pose proof (Z.mod_pos_bound n (2 ^ k) H2k) as Hrem.
  unfold shr_inv. cbn [shr_m shr_r shr_s]. split; [symmetry; exact Ediv|].
  rewrite Emod, Epow.
  pose proof (Z.mod_pos_bound m 2 ltac:(lia)) as Hb.
  pose proof (Z.div_mod m 2 ltac:(lia)) as Hdm.
  destruct (Z.odd m) eqn:Eo.
  - apply Z.odd_spec in Eo. destruct Eo as [c Hc].
    assert (m mod 2 = 1) as -> by lia.
    destruct r, s; cbn [orb]; lia.
  - assert (Z.even m = true) as Ee by (rewrite <- Z.negb_odd, Eo; reflexivity).
    apply Z.even_spec in Ee. destruct Ee as [c Hc].
    assert (m mod 2 = 0) as -> by lia.
    destruct r, s; cbn [orb]; lia.
Qed.

Lemma iter_pos_shr_inv n :
  0 <= n ->
  forall p k mrs, 0 <= k -> shr_inv n k mrs ->
                  shr_inv n (k + Z.pos p) (iter_pos shr_1 p mrs).
Proof.
  intros Hn. induction p as [p IH|p IH|]; intros k mrs Hk H; simpl.
  - replace (k + Z.pos p~1) with (k + 1 + Z.pos p + Z.pos p) by lia.
    apply IH; [lia|]. apply IH; [lia|]. apply shr_1_inv; trivial.
  - replace (k + Z.pos p~0) with (k + Z.pos p + Z.pos p) by lia.
    apply IH; [lia|]. apply IH; trivial.
  - apply shr_1_inv; trivial.
Qed.

Lemma shr_inv_start n : shr_inv n 0 (Build_shr_record n false false).
Proof.
  unfold shr_inv. cbn [shr_m shr_r shr_s]. rewrite Z.pow_0_r, Z.div_1_r, Z.mod_1_r. auto.
Qed.

Lemma round_nearest_even_inv n k mrs :
  0 <= k -> shr_inv n k mrs ->
  round_nearest_even (shr_m mrs) (loc_of_shr_record mrs) = RNE n k.
Proof.
  intros Hk [Hm Hloc]. destruct mrs as [m r s].
  cbn [shr_m shr_r shr_s] in *. unfold RNE. rewrite <- Hm.
  assert (0 < 2 ^ k) by (apply Z.pow_pos_nonneg; lia).
  destruct r, s; cbn [loc_of_shr_record round_nearest_even].
  - replace (2 * (n mod 2 ^ k) ?= 2 ^ k) with Gt by (symmetry; apply Z.compare_gt_iff; lia).
    reflexivity.
  - replace (2 * (n mod 2 ^ k) ?= 2 ^ k) with Eq by (symmetry; apply Z.compare_eq_iff; lia).
    reflexivity.
  - replace (2 * (n mod 2 ^ k) ?= 2 ^ k) with Lt by (symmetry; apply Z.compare_lt_iff; lia).
    reflexivity.
  - rewrite Hloc.
    replace (2 * 0 ?= 2 ^ k) with Lt by (symmetry; apply Z.compare_lt_iff; lia).
    reflexivity.
Qed.

Lemma digits2_pos_bounds p :
  2 ^ (Z.pos (digits2_pos p) - 1) <= Z.pos p < 2 ^ Z.pos (digits2_pos p).
Proof.
  induction p as [p IH|p IH|]; cbn [digits2_pos].
  - rewrite Pos2Z.inj_succ.
    replace (Z.succ (Z.pos (digits2_pos p)) - 1) with (Z.succ (Z.pos (digits2_pos p) - 1)) by lia.
    rewrite !Z.pow_succ_r by lia. lia.
  - rewrite Pos2Z.inj_succ.
    replace (Z.succ (Z.pos (digits2_pos p)) - 1) with (Z.succ (Z.pos (digits2_pos p) - 1)) by lia.
    rewrite !Z.pow_succ_r by lia. lia.
  - simpl. lia.
Qed.

Lemma Zdigits2_bounds n :
  0 < n -> 2 ^ (Zdigits2 n - 1) <= n < 2 ^ Zdigits2 n.
Proof.
  destruct n as [|p|p]; try lia. intros _. apply digits2_pos_bounds.
Qed.

Lemma Zdigits2_pos n : 0 < n -> 0 < Zdigits2 n.
Proof. destruct n; simpl; lia. Qed.

Lemma Zdigits2_le n c : 0 < n -> n < 2 ^ c -> Zdigits2 n <= c.
Proof.
  intros Hn Hc. pose proof (Zdigits2_bounds n Hn) as [Hlo _].
  pose proof (Zdigits2_pos n Hn).
  destruct (Z.le_gt_cases (Zdigits2 n) c) as [|Hgt]; trivial.
  exfalso.
  assert (0 <= c). { destruct (Z.le_gt_cases 0 c); trivial. rewrite Z.pow_neg_r in Hc; lia. }
  assert (2 ^ c <= 2 ^ (Zdigits2 n - 1)) by (apply Z.pow_le_mono_r; lia).
  lia.
Qed.

Lemma Zdigits2_gt n c : 0 < n -> 2 ^ c <= n -> c < Zdigits2 n.
Proof.
  intros Hn Hc. pose proof (Zdigits2_bounds n Hn) as [_ Hhi].
  pose proof (Zdigits2_pos n Hn).
  destruct (Z.le_gt_cases (Zdigits2 n) c) as [Hle|]; [|lia].
  exfalso.
  assert (2 ^ Zdigits2 n <= 2 ^ c) by (apply Z.pow_le_mono_r; lia).
  lia.
Qed.

Lemma Zdigits2_mono n1 n2 : 0 < n1 -> n1 <= n2 -> Zdigits2 n1 <= Zdigits2 n2.
Proof.
  intros H1 H12. apply Zdigits2_le; [exact H1|].
  pose proof (Zdigits2_bounds n2 ltac:(lia)). lia.
Qed.

Lemma Zdigits2_shift n j :
  0 < n -> 0 <= j -> Zdigits2 (n * 2 ^ j) = Zdigits2 n + j.
Proof.
  intros Hn Hj.
  assert (H2j : 0 < 2 ^ j) by (apply Z.pow_pos_nonneg; lia).
  pose proof (Zdigits2_bounds n Hn) as [Hlo Hhi].
  pose proof (Zdigits2_pos n Hn) as Hd.
  assert (Hpos : 0 < n * 2 ^ j) by lia.
  apply Z.le_antisymm.
  - apply Zdigits2_le; [exact Hpos|].
    rewrite Z.pow_add_r by lia. apply Z.mul_lt_mono_pos_r; lia.
  - assert (Zdigits2 n - 1 + j < Zdigits2 (n * 2 ^ j)); [|lia].
    apply Zdigits2_gt; [exact Hpos|].
    rewrite Z.pow_add_r by lia. apply Z.mul_le_mono_nonneg_r; lia.
Qed.

Lemma RNE_bounds n k :
  0 <= k -> n / 2 ^ k <= RNE n k <= n / 2 ^ k + 1.
Proof.
  intros Hk. unfold RNE.
  destruct (2 * (n mod 2 ^ k) ?= 2 ^ k); [destruct (Z.even _)| |]; lia.
Qed.

Lemma RNE_mono n1 n2 k :
  0 <= k -> n1 <= n2 -> RNE n1 k <= RNE n2 k.
Proof.
  intros Hk Hn.
  assert (H2k : 0 < 2 ^ k) by (apply Z.pow_pos_nonneg; lia).
  pose proof (Z.div_le_mono n1 n2 (2 ^ k) H2k Hn) as Hq.
  pose proof (RNE_bounds n1 k Hk). pose proof (RNE_bounds n2 k Hk).
  destruct (Z.eq_dec (n1 / 2 ^ k) (n2 / 2 ^ k)) as [E|E]; [|lia].
  pose proof (Z.div_mod n1 (2 ^ k) ltac:(lia)) as D1.
  pose proof (Z.div_mod n2 (2 ^ k) ltac:(lia)) as D2.
  assert (Hr : n1 mod 2 ^ k <= n2 mod 2 ^ k) by (rewrite E in D1; lia).
  unfold RNE. rewrite E.
  destruct (2 * (n1 mod 2 ^ k) ?= 2 ^ k) eqn:C1;
    destruct (2 * (n2 mod 2 ^ k) ?= 2 ^ k) eqn:C2;
    rewrite ?Z.compare_eq_iff, ?Z.compare_lt_iff, ?Z.compare_gt_iff in *;
    try destruct (Z.even (n2 / 2 ^ k)); lia.
Qed.

Lemma RNE_shift n k j :
  0 <= k -> 0 <= j -> RNE (n * 2 ^ j) (k + j) = RNE n k.
Proof.
  intros Hk Hj.
  assert (H2k : 0 < 2 ^ k) by (apply Z.pow_pos_nonneg; lia).
  assert (H2j : 0 < 2 ^ j) by (apply Z.pow_pos_nonneg; lia).
  unfold RNE. rewrite Z.pow_add_r by lia.
  rewrite Z.div_mul_cancel_r by lia.
  rewrite Z.mul_mod_distr_r by lia.
  replace (2 * (n mod 2 ^ k * 2 ^ j) ?= 2 ^ k * 2 ^ j)
    with (2 * (n mod 2 ^ k) ?= 2 ^ k); [reflexivity|].
  destruct (Z.compare_spec (2 * (n mod 2 ^ k)) (2 ^ k)) as [C|C|C];
    destruct (Z.compare_spec (2 * (n mod 2 ^ k * 2 ^ j)) (2 ^ k * 2 ^ j)) as [C'|C'|C'];
    try reflexivity; exfalso; nia.
Qed.

Lemma RNE_upper n k c :
  0 <= k -> n < c * 2 ^ k -> RNE n k <= c.
Proof.
  intros Hk Hn.
  assert (H2k : 0 < 2 ^ k) by (apply Z.pow_pos_nonneg; lia).
  pose proof (RNE_bounds n k Hk).
  assert (n / 2 ^ k < c) by (apply Z.div_lt_upper_bound; lia).
  lia.
Qed.

Lemma RNE_lower n k c :
  0 <= k -> c * 2 ^ k <= n -> c <= RNE n k.
Proof.
  intros Hk Hn.
  assert (H2k : 0 < 2 ^ k) by (apply Z.pow_pos_nonneg; lia).
  pose proof (RNE_bounds n k Hk).
  assert (c <= n / 2 ^ k) by (apply Z.div_le_lower_bound; lia).
  lia.
Qed.

Lemma RNE_0 n : RNE n 0 = n.
Proof.
  unfold RNE. rewrite Z.pow_0_r, Z.div_1_r, Z.mod_1_r. reflexivity.
Qed.

Lemma pow2_div a b :
  0 <= a -> 0 <= b -> 2 ^ a / 2 ^ b = if b <=? a then 2 ^ (a - b) else 0.
Proof.
  intros Ha Hb.
  assert (H2b : 0 < 2 ^ b) by (apply Z.pow_pos_nonneg; lia).
  destruct (b <=? a) eqn:E.
  - apply Z.leb_le in E.
    replace a with (a - b + b) at 1 by lia.
    rewrite Z.pow_add_r by lia. apply Z.div_mul. lia.
  - apply Z.leb_gt in E. apply Z.div_small. split.
    + apply Z.pow_nonneg. lia.
    + apply Z.pow_lt_mono_r; lia.
Qed.

Lemma shr_nonpos mrs e n : n <= 0 -> shr mrs e n = (mrs, e).
Proof. destruct n; try reflexivity. lia. Qed.

Lemma shr_fexp_exact n ex :
  0 < n ->
  let k := fexp prec emax (Zdigits2 n + ex) - ex in
  0 <= k ->
  exists mrs,
    shr_fexp prec emax n ex loc_Exact = (mrs, ex + k) /\ shr_inv n k mrs.
Proof.
  intros Hn k Hk. unfold shr_fexp. fold k.
  cbn [shr_record_of_loc].
  destruct k as [|p|p] eqn:Ek; try lia.
  - exists (Build_shr_record n false false). rewrite Z.add_0_r. split; [reflexivity|].
    apply shr_inv_start.
  - exists (iter_pos shr_1 p (Build_shr_record n false false)). split; [reflexivity|].
    change (Z.pos p) with (0 + Z.pos p).
    apply iter_pos_shr_inv; [lia|lia|apply shr_inv_start].
Qed.

Lemma binary_round_aux_exact sx n ex :
  0 < n ->
  let E := fexp prec emax (Zdigits2 n + ex) in
  let m := RNE n (E - ex) in
  0 <= E - ex -> E <= emax - prec ->
  0 <= m <= 2 ^ 53
  /\ binary_round_aux prec emax sx n ex loc_Exact
     = if m =? 0 then S754_zero sx
       else if m <? 2 ^ 53 then S754_finite sx (Z.to_pos m) E
       else if E + 1 <=? emax - prec
            then S754_finite sx (Z.to_pos (2 ^ 52)) (E + 1)
            else S754_infinity sx.
Proof.
  intros Hn E m Hk HE.
  destruct (shr_fexp_exact n ex Hn Hk) as (mrs & Hshr & Hinv).
  fold E in Hshr, Hinv.
  replace (ex + (E - ex)) with E in Hshr by lia.
  pose proof (round_nearest_even_inv _ _ _ Hk Hinv) as Hround. fold m in Hround.
  pose proof (Zdigits2_bounds n Hn) as [_ Hhi].
  pose proof (Zdigits2_pos n Hn) as Hd.
  assert (HEmin : -1074 <= E) by (unfold E, fexp, SpecFloat.emin, prec, emax; lia).
  assert (HEd : Zdigits2 n + ex - 53 <= E) by (unfold E, fexp, SpecFloat.emin, prec, emax; lia).
  assert (Hm : 0 <= m <= 2 ^ 53).
  { split.
    - apply (RNE_lower n (E - ex) 0); lia.
    - apply RNE_upper; [lia|].
      rewrite <- Z.pow_add_r by lia.
      apply Z.lt_le_trans with (1 := Hhi). apply Z.pow_le_mono_r; lia. }
  split; [exact Hm|].
  unfold binary_round_aux. rewrite Hshr, Hround.
  destruct (m =? 0) eqn:E0.
  - apply Z.eqb_eq in E0. rewrite E0.
    unfold shr_fexp. rewrite shr_nonpos.
    + reflexivity.
    + cbn [Zdigits2]. unfold fexp, SpecFloat.emin, prec, emax. lia.
  - apply Z.eqb_neq in E0.
    destruct (m <? 2 ^ 53) eqn:E53.
    + apply Z.ltb_lt in E53.
      unfold shr_fexp. rewrite shr_nonpos.
      * cbn [shr_record_of_loc shr_m fst].
        destruct m as [|p|p]; try lia. cbn [Z.to_pos].
        replace (E <=? emax - prec) with true by (symmetry; apply Z.leb_le; lia).
        reflexivity.
      * pose proof (Zdigits2_le m 53 ltac:(lia) E53).
        unfold fexp, SpecFloat.emin, prec, emax. lia.
    + apply Z.ltb_ge in E53. assert (m = 2 ^ 53) as -> by lia.
      unfold shr_fexp.
      replace (fexp prec emax (Zdigits2 (2 ^ 53) + E) - E) with 1
        by (change (Zdigits2 (2 ^ 53)) with 54;
            unfold fexp, SpecFloat.emin, prec, emax; lia).
      cbn [shr shr_record_of_loc iter_pos].
      change (shr_1 {| shr_m := 2 ^ 53; shr_r := false; shr_s := false |})
        with {| shr_m := 2 ^ 52; shr_r := false; shr_s := false |}.
      cbn [shr_m]. reflexivity.
Qed.

Lemma bounded_canonical m e :
  bounded prec emax m e = true ->
  -1074 <= e <= 971 /\ Z.pos m < 2 ^ 53 /\ (-1074 < e -> 2 ^ 52 <= Z.pos m).
Proof.
  unfold bounded, canonical_mantissa. intros H.
  apply andb_true_iff in H. destruct H as [Hc He].
  apply Z.eqb_eq in Hc. apply Z.leb_le in He.
  pose proof (digits2_pos_bounds m) as [Hlo Hhi].
  unfold fexp, SpecFloat.emin, prec, emax in *.
  assert (Hd : Z.pos (digits2_pos m) <= 53) by lia.
  repeat split; try lia.
  - apply Z.lt_le_trans with (1 := Hhi). apply Z.pow_le_mono_r; lia.
  - intros Hn. assert (Z.pos (digits2_pos m) = 53) as E by lia.
    rewrite E in Hlo. exact Hlo.
Qed.

(** [x * 1.0] is [x], for every float. *)
Lemma float_mul_one (x : float) : (x * 1)%float = x.
Proof.
  apply Prim2SF_inj. rewrite mul_spec.
  change (Prim2SF 1) with (S754_finite false 4503599627370496 (-52)).
  pose proof (Prim2SF_valid x) as Hv.
  destruct (Prim2SF x) as [s|s| |s m e]; try (destruct s; reflexivity); try reflexivity.
  cbn [valid_binary] in Hv.
  destruct (bounded_canonical _ _ Hv) as (He & Hm & _).
  unfold bounded, canonical_mantissa in Hv.
  apply andb_true_iff in Hv. destruct Hv as [Hc _]. apply Z.eqb_eq in Hc.
  unfold SF64mul, SFmul. rewrite xorb_false_r.
  change (Z.pos (m * 4503599627370496)) with (Z.pos m * 2 ^ 52).
  assert (Hd : Zdigits2 (Z.pos m * 2 ^ 52) + (e + -52) = Z.pos (digits2_pos m) + e).
  { rewrite Zdigits2_shift by lia. cbn [Zdigits2]. lia. }
  destruct (binary_round_aux_exact s (Z.pos m * 2 ^ 52) (e + -52)) as [_ Hbra].
  - lia.
  - rewrite Hd, Hc. lia.
  - rewrite Hd, Hc. unfold prec, emax. lia.
  - rewrite Hbra, Hd, Hc.
    replace (e - (e + -52)) with (0 + 52) by lia.
    rewrite RNE_shift, RNE_0 by lia.
    replace (Z.pos m =? 0) with false by reflexivity.
    replace (Z.pos m <? 2 ^ 53) with true by (symmetry; apply Z.ltb_lt; exact Hm).
    reflexivity.
Qed.

(** ** Binary64: reciprocals *)

Lemma iter_pos_shr_m m0 :
  0 <= m0 ->
  forall p k mrs, 0 <= k -> shr_m mrs = m0 / 2 ^ k ->
                  shr_m (iter_pos shr_1 p mrs) = m0 / 2 ^ (k + Z.pos p).
Proof.
  intros Hm0.
  assert (Hstep : forall k mrs, 0 <= k -> shr_m mrs = m0 / 2 ^ k ->
                                shr_m (shr_1 mrs) = m0 / 2 ^ (k + 1)).
  { intros k [m r s] Hk Hm. cbn [shr_m] in Hm.
    assert (0 < 2 ^ k) by (apply Z.pow_pos_nonneg; lia).
    rewrite shr_1_spec by (subst m; apply Z.div_pos; lia).
    cbn [shr_m]. rewrite Hm, Z.pow_add_r, Z.div_div by lia. reflexivity. }
  induction p as [p IH|p IH|]; intros k mrs Hk H; simpl.
  - replace (k + Z.pos p~1) with (k + 1 + Z.pos p + Z.pos p) by lia.
    apply IH; [lia|]. apply IH; [lia|]. apply Hstep; trivial.
  - replace (k + Z.pos p~0) with (k + Z.pos p + Z.pos p) by lia.
    apply IH; [lia|]. apply IH; trivial.
  - apply Hstep; trivial.
Qed.

Lemma round_nearest_even_ge m l : m <= round_nearest_even m l.
Proof.
  destruct l as [|[| |]]; simpl; try lia. destruct (Z.even m); lia.
Qed.

(** Rounding to the format keeps a mantissa that is large enough. *)
Lemma shr_fexp_keeps q e l :
  0 < q -> -1073 <= Zdigits2 q + e ->
  1 <= shr_m (fst (shr_fexp prec emax q e l))
  /\ -1074 <= snd (shr_fexp prec emax q e l).
Proof.
  intros Hq Hmag. unfold shr_fexp.
  pose proof (Zdigits2_bounds q Hq) as [Hlo _].
  pose proof (Zdigits2_pos q Hq) as Hd.
  assert (Hm : shr_m (shr_record_of_loc q l) = q) by (destruct l as [|[| |]]; reflexivity).
  set (k := fexp prec emax (Zdigits2 q + e) - e).
  assert (Hk : k <= Zdigits2 q - 1 /\ -1074 <= e + k)
    by (unfold k, fexp, SpecFloat.emin, prec, emax; lia).
  destruct k as [|p|p] eqn:Ek; cbn [shr fst snd]; rewrite ?Hm; try lia.
  split; [|lia].
  rewrite (iter_pos_shr_m q ltac:(lia) p 0 _ ltac:(lia))
    by (rewrite Hm, Z.pow_0_r, Z.div_1_r; reflexivity).
  apply Z.div_le_lower_bound; [apply Z.pow_pos_nonneg; lia|].
  rewrite Z.mul_1_r. apply Z.le_trans with (2 := Hlo).
  apply Z.pow_le_mono_r; lia.
Qed.

Lemma binary_round_aux_nonzero sx q e l :
  0 < q -> -1073 <= Zdigits2 q + e ->
  match binary_round_aux prec emax sx q e l with
  | S754_finite _ _ _ | S754_infinity _ => True
  | _ => False
  end.
Proof.
  intros Hq Hmag. unfold binary_round_aux.
  pose proof (shr_fexp_keeps q e l Hq Hmag) as [H1 HE1].
  destruct (shr_fexp prec emax q e l) as [mrs' e']. cbn [fst snd] in H1, HE1.
  pose proof (round_nearest_even_ge (shr_m mrs') (loc_of_shr_record mrs')) as Hr.
  set (m2 := round_nearest_even (shr_m mrs') (loc_of_shr_record mrs')) in *.
  assert (Hm2 : 0 < m2) by lia.
  pose proof (Zdigits2_pos m2 Hm2) as Hd2.
  pose proof (shr_fexp_keeps m2 e' loc_Exact Hm2 ltac:(lia)) as [H2 _].
  destruct (shr_fexp prec emax m2 e' loc_Exact) as [mrs'' e'']. cbn [fst] in H2.
  destruct (shr_m mrs'') as [|p|p]; try lia.
  destruct (e'' <=? emax - prec); exact I.
Qed.

(** The reciprocal of a positive gamma is [+0.0], positive or [+inf]; that
    of a negative gamma is [-0.0], negative or [-inf]. *)
Lemma reciprocal_sign (g : float) (s : bool) :
  match Prim2SF g with
  | S754_finite s' _ _ | S754_infinity s' => s' = s
  | _ => False
  end ->
  sf_sign (Prim2SF (1 / g)%float) = Some s.
Proof.
  intros Hg. rewrite div_spec.
  change (Prim2SF 1) with (S754_finite false 4503599627370496 (-52)).
  destruct (Prim2SF g) as [s'|s'| |s' m e] eqn:Eg; try contradiction; subst s'.
  - reflexivity.
  - apply SF64div_finite_sign.
Qed.

Lemma reciprocal_nonzero (g : float) :
  (g =? 0)%float = false -> is_nan g = false -> is_infinity g = false ->
  (1 / g =? 0)%float = false.
Proof.
  rewrite !eqb_zero_spec, is_nan_spec, is_infinity_spec, div_spec.
  change (Prim2SF 1) with (S754_finite false 4503599627370496 (-52)).
  pose proof (Prim2SF_valid g) as Hv.
  destruct (Prim2SF g) as [s|s| |s m e]; try discriminate. intros _ _ _.
  cbn [valid_binary] in Hv.
  destruct (bounded_canonical _ _ Hv) as (He & Hm & _).
  pose proof (digits2_pos_bounds m) as [Hlo Hhi].
  assert (Hd2 : 1 <= Z.pos (digits2_pos m) <= 53).
  { split; [lia|]. apply (Zdigits2_le (Z.pos m) 53); [lia|exact Hm]. }
  unfold SF64div, SFdiv, SFdiv_core_binary.
  change (Zdigits2 4503599627370496) with 53. cbn [Zdigits2].
  set (d2 := Z.pos (digits2_pos m)) in *.
  set (e' := Z.min (fexp prec emax (53 + -52 - (d2 + e))) (-52 - e)).
  set (k := -52 - e - e').
  assert (Hk : 1 <= k /\ k <= d2 /\ e' = -52 - e - k)
    by (unfold k, e', fexp, SpecFloat.emin, prec, emax; lia).
  destruct Hk as (Hk1 & Hk2 & He').
  destruct k as [|p|p] eqn:Ek; try lia. rewrite <- Ek in *.
  rewrite Z.shiftl_mul_pow2 by lia.
  change 4503599627370496 with (2 ^ 52). rewrite <- Z.pow_add_r by lia.
  pose proof (Z.div_eucl_eq (2 ^ (52 + k)) (Z.pos m) ltac:(lia)) as Hdiv.
  assert (Hq : 2 ^ (52 + k - d2) <= 2 ^ (52 + k) / Z.pos m).
  { apply Z.div_le_lower_bound; [lia|].
    assert (Epow : 2 ^ (52 + k) = 2 ^ d2 * 2 ^ (52 + k - d2)).
    { rewrite <- Z.pow_add_r by lia. f_equal. lia. }
    rewrite Epow. apply Z.mul_le_mono_nonneg_r; [apply Z.pow_nonneg|]; lia. }
  unfold Z.div in Hq.
  destruct (Z.div_eucl (2 ^ (52 + k)) (Z.pos m)) as [q r].
  assert (Hqpos : 0 < q).
  { assert (0 < 2 ^ (52 + k - d2)) by (apply Z.pow_pos_nonneg; lia). lia. }
  pose proof (Zdigits2_gt q (52 + k - d2) Hqpos Hq) as Hdq.
  pose proof (binary_round_aux_nonzero (xorb false s) q e' (new_location (Z.pos m) r)
                Hqpos ltac:(lia)) as Hnz.
  destruct (binary_round_aux _ _ _ _ _ _); try contradiction; reflexivity.
Qed.

Lemma positive_gamma_shape g :
  (0 <? g)%float = true ->
  (g =? 0)%float = false
  /\ match Prim2SF g with
     | S754_finite s' _ _ | S754_infinity s' => s' = false
     | _ => False
     end.
Proof.
  rewrite zero_ltb_spec, eqb_zero_spec.
  destruct (Prim2SF g) as [s|[|]| |[|] m e]; try discriminate; auto.
Qed.


Lemma finite_positive_gamma g :
  (0 <? g)%float = true -> is_infinity g = false ->
  (g =? 0)%float = false
  /\ sf_sign (Prim2SF (1 / g)) = Some false
  /\ (1 / g =? 0)%float = false.
Proof.
  intros Hg Hfin. destruct (positive_gamma_shape _ Hg) as [Hnz Hshape].
  repeat split; trivial.
  - apply reciprocal_sign. exact Hshape.
  - apply reciprocal_nonzero; trivial.
    rewrite is_nan_spec. destruct (Prim2SF g); try contradiction; reflexivity.
Qed.

(** ** Binary64: products with 255.0 *)

Lemma product_exponent_mono N1 N2 :
  0 < N1 -> N1 <= N2 -> product_exponent N1 <= product_exponent N2.
Proof.
  intros H1 H12. pose proof (Zdigits2_mono N1 N2 H1 H12).
  unfold product_exponent, fexp, SpecFloat.emin, prec, emax. lia.
Qed.

Lemma product_floor_mono N1 N2 :
  0 < N1 -> N1 <= N2 -> product_exponent N2 <= 0 ->
  product_floor N1 <= product_floor N2.
Proof.
  intros H1 H12 HE2.
  pose proof (product_exponent_mono N1 N2 H1 H12) as HE.
  unfold product_floor.
  set (E1 := product_exponent N1) in *. set (E2 := product_exponent N2) in *.
  assert (HE1min : -1074 <= E1)
    by (unfold E1, product_exponent, fexp, SpecFloat.emin, prec, emax; lia).
  assert (Hd1 : Zdigits2 N1 - 1119 - 53 <= E1)
    by (unfold E1, product_exponent, fexp, SpecFloat.emin, prec, emax; lia).
  destruct (Z.eq_dec E1 E2) as [Heq|Hne].
  - rewrite <- Heq.
    apply Z.div_le_mono; [apply Z.pow_pos_nonneg; lia|].
    apply RNE_mono; lia.
  - assert (Hlt : E1 < E2) by lia.
    assert (HR1 : RNE N1 (E1 + 1119) <= 2 ^ 53).
    { apply RNE_upper; [lia|].
      pose proof (Zdigits2_bounds N1 H1) as [_ Hhi].
      pose proof (Zdigits2_pos N1 H1).
      rewrite <- Z.pow_add_r by lia.
      apply Z.lt_le_trans with (1 := Hhi). apply Z.pow_le_mono_r; lia. }
    assert (HR2 : 2 ^ 52 <= RNE N2 (E2 + 1119)).
    { apply RNE_lower; [lia|].
      pose proof (Zdigits2_bounds N2 ltac:(lia)) as [Hlo _].
      assert (Hd2 : E2 = Zdigits2 N2 - 1119 - 53)
        by (unfold E2, product_exponent, fexp, SpecFloat.emin, prec, emax in *; lia).
      rewrite <- Z.pow_add_r by lia.
      apply Z.le_trans with (2 := Hlo). apply Z.pow_le_mono_r; lia. }
    apply Z.le_trans with (2 ^ 53 / 2 ^ (- E1)).
    { apply Z.div_le_mono; [apply Z.pow_pos_nonneg; lia|exact HR1]. }
    apply Z.le_trans with (2 ^ 52 / 2 ^ (- E2)).
    2:{ apply Z.div_le_mono; [apply Z.pow_pos_nonneg; lia|exact HR2]. }
    rewrite !pow2_div by lia.
    destruct (- E1 <=? 53) eqn:C1; destruct (- E2 <=? 52) eqn:C2;
      rewrite ?Z.leb_le, ?Z.leb_gt in *; try lia;
      first [apply Z.pow_le_mono_r; lia | apply Z.pow_nonneg; lia].
Qed.

(** The order of two canonical positive floats is the order of their values. *)
Lemma scaled255_mono m1 e1 m2 e2 :
  bounded prec emax m1 e1 = true -> bounded prec emax m2 e2 = true ->
  SFleb (S754_finite false m1 e1) (S754_finite false m2 e2) = true ->
  scaled255 m1 e1 <= scaled255 m2 e2.
Proof.
  intros B1 B2 Hle.
  destruct (bounded_canonical _ _ B1) as (He1 & Hm1 & _).
  destruct (bounded_canonical _ _ B2) as (He2 & _ & Hm2).
  unfold scaled255.
  destruct (SFleb_finite_pos _ _ _ _ Hle) as [Hlt|[-> Hm]].
  - specialize (Hm2 ltac:(lia)).
    replace (e2 + 1074) with ((e1 + 1074) + (e2 - e1)) by lia.
    rewrite (Z.pow_add_r 2 (e1 + 1074) (e2 - e1)) by lia.
    assert (H2 : 0 < 2 ^ (e1 + 1074)) by (apply Z.pow_pos_nonneg; lia).
    assert (Hstep : 2 <= 2 ^ (e2 - e1)).
    { change 2 with (2 ^ 1) at 1. apply Z.pow_le_mono_r; lia. }
    assert (Z.pos m1 <= Z.pos m2 * 2 ^ (e2 - e1)) by nia.
    nia.
  - assert (H2 : 0 < 2 ^ (e2 + 1074)) by (apply Z.pow_pos_nonneg; lia).
    nia.
Qed.

Lemma scaled255_pos m e : -1074 <= e -> 0 < scaled255 m e.
Proof.
  intros He. unfold scaled255.
  assert (0 < 2 ^ (e + 1074)) by (apply Z.pow_pos_nonneg; lia). lia.
Qed.

Lemma product_exponent_scaled255 m e :
  -1074 <= e ->
  product_exponent (scaled255 m e)
  = fexp prec emax (Zdigits2 (Z.pos m * 8972014882652160) + (e + -45)).
Proof.
  intros He. unfold product_exponent, scaled255.
  rewrite Zdigits2_shift by lia. f_equal. lia.
Qed.

(** The integer part of [x * 255.0] for a canonical float [0 < x <= 1]. *)
Lemma mul255_trunc m e :
  bounded prec emax m e = true ->
  e <= -52 ->
  Py.SF_trunc (SF64mul (S754_finite false m e)
                 (S754_finite false 8972014882652160 (-45)))
  = Some (product_floor (scaled255 m e))
  /\ product_exponent (scaled255 m e) <= -44.
Proof.
  intros B He52.
  destruct (bounded_canonical _ _ B) as (He & Hm & _).
  pose proof (product_exponent_scaled255 m e ltac:(lia)) as HE.
  set (n := Z.pos m * 8972014882652160) in *.
  assert (Hn : 0 < n) by (unfold n; lia).
  assert (Hn52 : 2 ^ 52 <= n) by (unfold n; change (2 ^ 52) with 4503599627370496; lia).
  assert (Hn106 : n < 2 ^ 106).
  { unfold n. change (2 ^ 106) with (2 ^ 53 * 2 ^ 53).
    change (2 ^ 53) with 9007199254740992 in *. nia. }
  pose proof (Zdigits2_gt n 52 Hn Hn52) as Hd52.
  pose proof (Zdigits2_le n 106 Hn Hn106) as Hd106.
  set (E := fexp prec emax (Zdigits2 n + (e + -45))) in *.
  assert (HEd : Zdigits2 n + (e + -45) - 53 <= E)
    by (unfold E, fexp, SpecFloat.emin, prec, emax; lia).
  assert (HEmin : -1074 <= E)
    by (unfold E, fexp, SpecFloat.emin, prec, emax; lia).
  assert (HEup : E <= -44)
    by (unfold E, fexp, SpecFloat.emin, prec, emax; lia).
  split; [|rewrite HE; exact HEup].
  destruct (binary_round_aux_exact false n (e + -45) Hn) as [Hm2 Hbra];
    fold E; try (unfold prec, emax; lia).
  fold E in Hm2, Hbra.
  (* the rounded mantissa, seen from the scaled value *)
  assert (HR : RNE (scaled255 m e) (product_exponent (scaled255 m e) + 1119)
               = RNE n (E - (e + -45))).
  { rewrite HE. fold E. unfold scaled255. fold n.
    replace (E + 1119) with (E - (e + -45) + (e + 1074)) by lia.
    apply RNE_shift; lia. }
  unfold product_floor. rewrite HR, HE. fold E.
  set (r := RNE n (E - (e + -45))) in *.
  unfold SF64mul, SFmul.
  change (Z.pos (m * 8972014882652160)) with n.
  cbn [xorb]. rewrite Hbra.
  destruct (r =? 0) eqn:E0.
  - apply Z.eqb_eq in E0. rewrite E0. cbn [Py.SF_trunc].
    rewrite Z.div_0_l; [reflexivity|]. apply Z.pow_nonzero; lia.
  - apply Z.eqb_neq in E0. destruct (r <? 2 ^ 53) eqn:E53.
    + cbn [Py.SF_trunc cond_Zopp]. unfold Py.int_part.
      replace (0 <=? E) with false by (symmetry; apply Z.leb_gt; lia).
      rewrite Z2Pos.id by lia. reflexivity.
    + apply Z.ltb_ge in E53. assert (r = 2 ^ 53) as -> by lia.
      replace (E + 1 <=? emax - prec) with true
        by (symmetry; apply Z.leb_le; unfold prec, emax; lia).
      cbn [Py.SF_trunc cond_Zopp]. unfold Py.int_part.
      replace (0 <=? E + 1) with false by (symmetry; apply Z.leb_gt; lia).
      rewrite Z2Pos.id by (apply Z.pow_pos_nonneg; lia).
      f_equal. rewrite !pow2_div by lia.
      destruct (- (E + 1) <=? 52) eqn:C1; destruct (- E <=? 53) eqn:C2;
        rewrite ?Z.leb_le, ?Z.leb_gt in *; try lia.
      f_equal. lia.
Qed.

Lemma product_floor_nonneg N :
  0 < N -> product_exponent N <= 0 -> 0 <= product_floor N.
Proof.
  intros HN HE. unfold product_floor.
  assert (-1074 <= product_exponent N)
    by (unfold product_exponent, fexp, SpecFloat.emin, prec, emax; lia).
  apply Z.div_pos.
  - apply (RNE_lower N _ 0); lia.
  - apply Z.pow_pos_nonneg; lia.
Qed.

Lemma product_floor_one :
  product_floor (scaled255 4503599627370496 (-52)) = 255.
Proof. vm_compute. reflexivity. Qed.

Lemma uint8_of_byte z :
  0 <= z <= 255 ->
  (if (- 2 ^ 31 <=? z) && (z <? 2 ^ 31) then z mod 256 else 0) = z.
Proof.
  intros Hz.
  replace (- 2 ^ 31 <=? z) with true by (symmetry; apply Z.leb_le; lia).
  replace (z <? 2 ^ 31) with true by (symmetry; apply Z.ltb_lt; lia).
  apply Z.mod_small. lia.
Qed.

(** The table entry of a float in the unit interval. *)
Lemma unit_entry (x : float) :
  (0 <=? x)%float = true -> (x <=? 1)%float = true ->
  Py.SF_trunc (Prim2SF (x * 255)) = Some (astype_uint8 (x * 255))
  /\ match Prim2SF x with
     | S754_zero _ => astype_uint8 (x * 255) = 0
     | S754_finite false m e =>
         bounded prec emax m e = true /\ e <= -52
         /\ astype_uint8 (x * 255) = product_floor (scaled255 m e)
         /\ 0 <= product_floor (scaled255 m e) <= 255
     | _ => False
     end.
Proof.
  intros H0 H1. pose proof (Prim2SF_valid x) as Hv.
  rewrite leb_spec in H0, H1.
  change (Prim2SF 0) with (S754_zero false) in H0.
  change (Prim2SF 1) with (S754_finite false 4503599627370496 (-52)) in H1.
  unfold astype_uint8. rewrite mul_spec.
  change (Prim2SF 255) with (S754_finite false 8972014882652160 (-45)).
  destruct (Prim2SF x) as [s|s| |s m e]; try discriminate.
  - split; reflexivity.
  - destruct s; discriminate.
  - destruct s; [discriminate|]. cbn [valid_binary] in Hv.
    assert (He : e <= -52) by (destruct (SFleb_finite_pos _ _ _ _ H1); lia).
    destruct (mul255_trunc m e Hv He) as [Ht HE].
    destruct (bounded_canonical _ _ Hv) as (Hemin & _ & _).
    assert (Hrange : 0 <= product_floor (scaled255 m e) <= 255).
    { split.
      - apply product_floor_nonneg; [apply scaled255_pos|]; lia.
      - rewrite <- product_floor_one. apply product_floor_mono.
        + apply scaled255_pos; lia.
        + apply scaled255_mono; trivial.
        + vm_compute. discriminate. }
    rewrite Ht, uint8_of_byte by lia. repeat split; trivial; lia.
Qed.

Lemma mul255_entry_mono (a b : float) :
  (0 <=? a)%float = true -> (a <=? b)%float = true -> (b <=? 1)%float = true ->
  0 <= astype_uint8 (a * 255) <= astype_uint8 (b * 255)
  /\ astype_uint8 (b * 255) <= 255.
Proof.
  intros H0 Hab H1.
  assert (H0b : (0 <=? b)%float = true).
  { rewrite leb_spec in *. change (Prim2SF 0) with (S754_zero false) in *.
    destruct (Prim2SF a) as [sa|sa| |sa ma ea], (Prim2SF b) as [sb|sb| |sb mb eb];
      try discriminate; try reflexivity; destruct sa, sb; try discriminate; reflexivity. }
  assert (Ha1 : (a <=? 1)%float = true).
  { rewrite leb_spec in *.
    change (Prim2SF 1) with (S754_finite false 4503599627370496 (-52)) in *.
    change (Prim2SF 0) with (S754_zero false) in *.
    pose proof (Prim2SF_valid a) as Va. pose proof (Prim2SF_valid b) as Vb.
    destruct (Prim2SF a) as [sa|sa| |sa ma ea], (Prim2SF b) as [sb|sb| |sb mb eb];
      try discriminate; try reflexivity; destruct sa, sb; try discriminate;
      try reflexivity.
    apply SFleb_finite_pos in Hab, H1.
    apply SFleb_finite_pos_intro. lia. }
  pose proof (unit_entry a H0 Ha1) as [_ Ua].
  pose proof (unit_entry b H0b H1) as [_ Ub].
  rewrite leb_spec in Hab.
  destruct (Prim2SF a) as [sa|sa| |sa ma ea]; try contradiction;
    destruct (Prim2SF b) as [sb|sb| |sb mb eb]; try contradiction.
  - lia.
  - destruct sb; [contradiction|]. destruct Ub as (_ & _ & -> & Hr). lia.
  - destruct sa; [contradiction|]. discriminate.
  - destruct sa; [contradiction|]. destruct sb; [contradiction|].
    destruct Ua as (Ba & Hea & -> & Hra). destruct Ub as (Bb & Heb & -> & Hrb).
    split; [split; [lia|]|lia].
    destruct (bounded_canonical _ _ Ba) as (Hemin & _ & _).
    apply product_floor_mono.
    + apply scaled255_pos; lia.
    + apply scaled255_mono; trivial.
    + destruct (mul255_trunc mb eb Bb Heb) as [_ HE]. lia.
Qed.

(** In the unit interval [.astype(np.uint8)] of [x * 255] is [int(x * 255)],
    a value of 0..255. *)
Lemma unit_entry_int (x : float) :
  (0 <=? x)%float = true -> (x <=? 1)%float = true ->
  Py.int_of_float (x * 255) = Ok (astype_uint8 (x * 255))
  /\ 0 <= astype_uint8 (x * 255) <= 255.
Proof.
  intros H0 H1. destruct (unit_entry x H0 H1) as [Ht _].
  split; [apply int_of_float_of_trunc; exact Ht|].
  assert (H00 : (0 <=? 0)%float = true) by reflexivity.
  pose proof (mul255_entry_mono 0 x H00 H0 H1) as [[_ Hlo] Hhi].
  change (astype_uint8 (0 * 255)) with 0 in Hlo. lia.
Qed.

(** ** The dimension resolver *)

Lemma aspect_of_positive W H :
  0 < H ->
  calculate_aspect_ratio W H = (a <- Py.int_truediv W H ;; Ok (PyFloat a)).
Proof.
  intros HH. unfold calculate_aspect_ratio.
  replace (H =? 0) with false by (symmetry; apply Z.eqb_neq; lia).
  reflexivity.
Qed.

Lemma aspect_of_nonzero W H :
  (H =? 0) = false ->
  calculate_aspect_ratio W H = (a <- Py.int_truediv W H ;; Ok (PyFloat a)).
Proof.
  intros HH. unfold calculate_aspect_ratio. rewrite HH. reflexivity.
Qed.

(** Case analysis on the outcome of every conversion in the goal. *)
Ltac outcome_cases :=
  repeat match goal with
    | |- context [Py.float_of_int ?x] => destruct (Py.float_of_int x); simpl
    | |- context [Py.float_truediv ?x ?y] => destruct (Py.float_truediv x y); simpl
    | |- context [Py.int_of_float ?x] => destruct (Py.int_of_float x); simpl
    | |- context [Py.int_truediv ?x ?y] => destruct (Py.int_truediv x y); simpl
    | |- context [if ?b then _ else _] => destruct b; simpl
    end.

Lemma get_new_dimensions_refines W H tw th s ma :
  0 < W -> 0 < H ->
  get_new_dimensions W H tw th s ma = resolve_dimensions_trunc W H tw th s ma.
Proof.
  intros HW HH.
  unfold get_new_dimensions, resolve_dimensions_trunc, resolve_dimensions, request_of.
  destruct s as [s|].
  - unfold Py.mul, Py.to_float. outcome_cases; reflexivity.
  - destruct tw as [tw|], th as [th|]; simpl;
      try destruct (tw =? 0) eqn:Etw; try destruct (th =? 0) eqn:Eth; simpl;
      try reflexivity; try (destruct ma; [|reflexivity]);
      rewrite ?(aspect_of_positive W H HH), ?(aspect_of_nonzero tw th Eth);
      unfold times_aspect, over_aspect, Py.mul, Py.truediv, Py.to_float;
      outcome_cases; reflexivity.
Qed.

Lemma get_new_dimensions_round_counterexample :
  get_new_dimensions 2 3 (Some 4) (Some 4) None true = Ok (2, 4)
  /\ resolve_dimensions_spec 2 3 (Some 4) (Some 4) None true = Ok (3, 4)
  /\ get_new_dimensions 2 3 (Some 4) (Some 4) None true
     <> resolve_dimensions_spec 2 3 (Some 4) (Some 4) None true.
Proof.
  assert (E1 : get_new_dimensions 2 3 (Some 4) (Some 4) None true = Ok (2, 4))
    by (vm_compute; reflexivity).
  assert (E2 : resolve_dimensions_spec 2 3 (Some 4) (Some 4) None true = Ok (3, 4))
    by (vm_compute; reflexivity).
  repeat split; trivial. rewrite E1, E2. discriminate.
Qed.

(** C1 (amended).  For every original size (W, H) with W > 0 and H > 0,
    get_new_dimensions follows the strict top-down precedence of the
    contract (scale factor; both targets, fitted to the target height when
    the target aspect exceeds the original aspect and to the target width
    otherwise, or returned unchanged when aspect preservation is off; one
    target, the other derived from the original aspect; nothing given, the
    original size), where a target is given when it is present and not 0,
    and where every derived size is converted with int(), which truncates
    toward zero (the floor, for a value that is not negative) and does not
    round to nearest.  resolve_dimensions(800, 600, scale=0.5) and
    resolve_dimensions(800, 600, target_w=400, maintain_aspect=True) are
    both (400, 300). *)
Theorem get_new_dimensions_precedence :
  (forall W H tw th s ma,
      0 < W -> 0 < H ->
      get_new_dimensions W H tw th s ma
      = resolve_dimensions_trunc W H tw th s ma)
  /\ (forall x, (0 <=? x)%float = true ->
                Py.int_of_float x = floor_of_float x)
  /\ get_new_dimensions 800 600 None None (Some 0.5%float) true = Ok (400, 300)
  /\ get_new_dimensions 800 600 (Some 400) None None true = Ok (400, 300).
Proof.
  repeat apply conj.
  - intros W H tw th s ma HW HH. apply get_new_dimensions_refines; assumption.
  - exact int_of_float_floor.
  - vm_compute. reflexivity.
  - vm_compute. reflexivity.
Qed.

Lemma get_new_dimensions_precedence_witness :
  0 < 200 /\ 0 < 100
  /\ get_new_dimensions 200 100 (Some 400) (Some 400) None true
     = resolve_dimensions_trunc 200 100 (Some 400) (Some 400) None true.
Proof.
  split; [reflexivity|]. split; [reflexivity|].
  apply (proj1 get_new_dimensions_precedence 200 100); reflexivity.
Defined.

(** C10.  In get_new_dimensions a target width or height equal to 0 is
    treated as not given: with no scale, replacing a target 0 by None
    changes nothing, and a request whose only targets are 0 returns the
    original (W, H) unchanged. *)
Theorem zero_target_is_not_given (W H : Z) (tw th : option Z) (ma : bool) :
  get_new_dimensions W H (Some 0) th None ma
  = get_new_dimensions W H None th None ma
  /\ get_new_dimensions W H tw (Some 0) None ma
     = get_new_dimensions W H tw None None ma
  /\ get_new_dimensions W H (Some 0) None None ma = Ok (W, H)
  /\ get_new_dimensions W H None (Some 0) None ma = Ok (W, H)
  /\ get_new_dimensions W H (Some 0) (Some 0) None ma = Ok (W, H).
Proof.
  (* [unwrap] and [truthy] agree on [None] and [Some 0], so both sides
     run the same branches on the same values. *)
  repeat apply conj; reflexivity.
Qed.

(** The scaled side [int(n * s)] of a positive size for a scale [s <= 0]. *)
Lemma scaled_side_nonpos n s z :
  0 < n -> (s <=? 0)%float = true ->
  (p <- Py.mul (PyInt n) (PyFloat s) ;; Py.int p) = Ok z ->
  z <= 0.
Proof.
  intros Hn Hs. unfold Py.mul, Py.to_float.
  destruct (Py.float_of_int n) as [f|] eqn:Ef; [|discriminate]. simpl.
  intros Hz. apply int_of_float_trunc in Hz. rewrite mul_spec in Hz.
  destruct (float_of_int_shape _ _ Ef) as [Hfin Hsign].
  replace (n <? 0) with false in Hsign by (symmetry; apply Z.ltb_ge; lia).
  rewrite leb_spec in Hs. change (Prim2SF 0) with (S754_zero false) in Hs.
  destruct (Prim2SF s) as [s2|s2| |s2 m2 e2] eqn:Es; try discriminate.
  - (* a zero scale: the product is a zero *)
    destruct (Prim2SF f) as [s1|s1| |s1 m1 e1]; try discriminate;
      simpl in Hz; injection Hz as <-; lia.
  - (* minus infinity: the product is infinite or NaN *)
    destruct (Prim2SF f) as [s1|s1| |s1 m1 e1]; discriminate.
  - (* a negative finite scale *)
    destruct s2; [|discriminate].
    destruct (SF64mul_sign _ _ _ _ Hsign (eq_refl : sf_sign (S754_finite true m2 e2) = Some true))
      as [Hnan|Hneg].
    + rewrite Hnan in Hz. discriminate.
    + apply SF_trunc_sign in Hz. rewrite Hneg in Hz. exact Hz.
Qed.

(** The scaled side for the scale [0.0]. *)
Lemma scaled_side_zero n f :
  Py.float_of_int n = Ok f -> Py.int_of_float (f * 0)%float = Ok 0.
Proof.
  intros Ef. destruct (float_of_int_shape _ _ Ef) as [Hfin _].
  unfold Py.int_of_float. rewrite mul_spec.
  change (Prim2SF 0) with (S754_zero false).
  destruct (Prim2SF f) as [s1|s1| |s1 m1 e1]; try discriminate; reflexivity.
Qed.

Lemma scale_branch W H tw th s ma :
  get_new_dimensions W H tw th (Some s) ma
  = (w <- (p <- Py.mul (PyInt W) (PyFloat s) ;; Py.int p) ;;
     h <- (p <- Py.mul (PyInt H) (PyFloat s) ;; Py.int p) ;;
     Ok (w, h)).
Proof.
  unfold get_new_dimensions, Py.mul, Py.to_float.
  outcome_cases; reflexivity.
Qed.

Lemma get_new_dimensions_zero_scale_counterexample :
  get_new_dimensions 800 600 None None (Some 0%float) true = Ok (0, 0).
Proof. vm_compute. reflexivity. Qed.

(** C2 (amended).  get_new_dimensions performs no validation and raises no
    InvalidParameter error: for W > 0 and H > 0, a scale s <= 0 yields,
    whenever the arithmetic returns, dimensions W' <= 0 and H' <= 0 that are
    returned as they are, and the scale 0.0 returns (0, 0) for every W and H
    that convert to float.  W' > 0 and H' > 0 hold when nothing is requested
    (the result is (W, H)) and when both targets are positive and aspect
    preservation is off (the result is the two targets). *)
Theorem get_new_dimensions_unchecked (W H : Z) :
  0 < W -> 0 < H ->
  (forall ma, get_new_dimensions W H None None None ma = Ok (W, H))
  /\ (forall tw th,
         0 < tw -> 0 < th ->
         get_new_dimensions W H (Some tw) (Some th) None false = Ok (tw, th))
  /\ (forall tw th ma s w h,
         (s <=? 0)%float = true ->
         get_new_dimensions W H tw th (Some s) ma = Ok (w, h) ->
         w <= 0 /\ h <= 0)
  /\ (forall tw th ma,
         Py.is_ok (Py.float_of_int W) = true ->
         Py.is_ok (Py.float_of_int H) = true ->
         get_new_dimensions W H tw th (Some 0%float) ma = Ok (0, 0)).
Proof.
  intros HW HH. repeat apply conj.
  - reflexivity.
  - intros tw th Htw Hth. unfold get_new_dimensions. simpl.
    replace (tw =? 0) with false by (symmetry; apply Z.eqb_neq; lia).
    replace (th =? 0) with false by (symmetry; apply Z.eqb_neq; lia).
    reflexivity.
  - intros tw th ma s w h Hs. rewrite scale_branch.
    destruct (p <- Py.mul (PyInt W) (PyFloat s) ;; Py.int p) as [w'|] eqn:Ew;
      [|discriminate].
    destruct (p <- Py.mul (PyInt H) (PyFloat s) ;; Py.int p) as [h'|] eqn:Eh;
      [|discriminate].
    intros [= <- <-].
    split; [apply (scaled_side_nonpos W s)|apply (scaled_side_nonpos H s)];
      assumption.
  - intros tw th ma OkW OkH. unfold get_new_dimensions, Py.mul, Py.to_float.
    destruct (Py.float_of_int W) as [fw|] eqn:Efw; [|discriminate].
    destruct (Py.float_of_int H) as [fh|] eqn:Efh; [|discriminate].
    simpl. rewrite (scaled_side_zero _ _ Efw), (scaled_side_zero _ _ Efh).
    reflexivity.
Qed.

Lemma get_new_dimensions_unchecked_witness :
  0 < 800 /\ 0 < 600
  /\ get_new_dimensions 800 600 None None (Some 0%float) true = Ok (0, 0).
Proof.
  split; [reflexivity|]. split; [reflexivity|].
  apply (get_new_dimensions_unchecked 800 600); reflexivity.
Defined.

(** ** Input validation *)

Lemma copy_eq (a : ndarray) : copy a = a.
Proof. destruct a; reflexivity. Qed.

Lemma validate_input_ok image a :
  validate_input image = Ok a <->
  image = PyArray a /\ (length (shape a) = 2 \/ length (shape a) = 3)%nat.
Proof.
  unfold validate_input, validate_image.
  destruct image as [| |b]; try (split; [discriminate|intros [[=] _]]).
  destruct (Z.of_nat (length (shape b)) =? 2) eqn:E2;
    destruct (Z.of_nat (length (shape b)) =? 3) eqn:E3; simpl;
    rewrite ?Z.eqb_eq, ?Z.eqb_neq in *.
  all: split; [intros [= <-]|intros [[= <-] Hr]]; try split; auto; lia.
Qed.

Lemma validate_input_valid a :
  validate_image (PyArray a) = true -> validate_input (PyArray a) = Ok a.
Proof. unfold validate_input. intros ->. reflexivity. Qed.

Lemma validate_input_invalid image :
  validate_image image = false -> validate_input image = Raise ValueError.
Proof. unfold validate_input. destruct image; try reflexivity. intros ->. reflexivity. Qed.

Lemma validate_input_empty_counterexample :
  validate_image (PyArray empty_image) = true
  /\ validate_input (PyArray empty_image) = Ok empty_image
  /\ num_elements empty_image = 0.
Proof. repeat split. Qed.

(** C9 (amended).  validate_input accepts exactly the numpy arrays of rank 2
    or 3, whatever their number of elements; every other input is rejected
    with ValueError, and the processors raise it before they do anything
    else. *)
Theorem validate_input_rank :
  forall image,
    (forall a, validate_input image = Ok a <->
               image = PyArray a
               /\ (length (shape a) = 2 \/ length (shape a) = 3)%nat)
    /\ (validate_image image = false ->
        validate_input image = Raise ValueError
        /\ (forall libm_pow default_gamma gamma,
               gamma_process libm_pow default_gamma image gamma = Raise ValueError)
        /\ (forall libm_pow cvtColor np_mean default_gamma,
               auto_gamma libm_pow cvtColor np_mean default_gamma image
               = Raise ValueError)
        /\ (forall libm_cos libm_sin warpAffine degrees expand center scale colour,
               rotate_process libm_cos libm_sin warpAffine image degrees expand
                 center scale colour = Raise ValueError)).
Proof.
  intros image. split; [intros a; apply validate_input_ok|].
  intros Hbad. pose proof (validate_input_invalid _ Hbad) as E.
  repeat split; trivial; intros;
    unfold gamma_process, auto_gamma, rotate_process; rewrite E; reflexivity.
Qed.

Lemma validate_input_rank_witness :
  validate_image PyNone = false
  /\ gamma_process (fun x _ => x) (PyF 1) PyNone (Some (PyF 0)) = Raise ValueError.
Proof.
  split; [reflexivity|].
  apply (validate_input_rank PyNone). reflexivity.
Defined.

(** ** The gamma lookup table *)

Lemma map_result_ok {A B : Type} (f : A -> result B) (g : A -> B) (l : list A) :
  (forall a, In a l -> f a = Ok (g a)) ->
  map_result f l = Ok (map g l).
Proof.
  induction l as [|a l IH]; intros Hf; simpl; [reflexivity|].
  rewrite (Hf a (or_introl eq_refl)). simpl.
  rewrite IH by (intros; apply Hf; right; assumption). reflexivity.
Qed.


Lemma range_In i n : In i (range n) <-> 0 <= i < Z.of_nat n.
Proof.
  unfold range. rewrite in_map_iff. split.
  - intros (k & <- & Hk). apply in_seq in Hk. lia.
  - intros Hi. exists (Z.to_nat i). split; [lia|]. apply in_seq. lia.
Qed.


Lemma nth_range (k n : nat) d : (k < n)%nat -> nth k (range n) d = Z.of_nat k.
Proof.
  intros Hk. unfold range.
  rewrite (nth_indep _ d (Z.of_nat 0)) by (rewrite length_map, length_seq; exact Hk).
  rewrite map_nth, seq_nth by exact Hk. reflexivity.
Qed.

Lemma nth_map_range {B : Type} (h : Z -> B) (i : Z) (d : B) :
  0 <= i < 256 -> nth (Z.to_nat i) (map h (range 256)) d = h i.
Proof.
  intros Hi.
  rewrite (nth_indep _ d (h 0)) by (rewrite length_map; unfold range; rewrite length_map, length_seq; lia).
  rewrite map_nth, nth_range by lia. f_equal. lia.
Qed.

(** Every index of the table converts to its input level without error. *)
Lemma level_ok i :
  In i (range 256) ->
  (fi <- Py.float_of_int i ;; Py.float_truediv fi 255%float) = Ok (level i).
Proof.
  assert (H : forallb (fun i =>
            match (fi <- Py.float_of_int i ;; Py.float_truediv fi 255%float) with
            | Ok x => Leibniz.eqb x (level i)
            | Raise _ => false
            end) (range 256) = true) by (vm_compute; reflexivity).
  rewrite forallb_forall in H. intros Hi. specialize (H i Hi).
  destruct (fi <- Py.float_of_int i ;; Py.float_truediv fi 255%float); [|discriminate].
  apply Leibniz.eqb_spec in H. congruence.
Qed.

Lemma level_0 : level 0 = 0%float.
Proof. apply Leibniz.eqb_spec. vm_compute. reflexivity. Qed.

Lemma level_255 : level 255 = 1%float.
Proof. apply Leibniz.eqb_spec. vm_compute. reflexivity. Qed.

Lemma level_class i :
  In i (range 256) ->
  is_nan (level i) = false
  /\ ((level i =? 0)%float = true \/ (level i =? 1)%float = true
      \/ ((0 <? level i)%float = true /\ (level i <? 1)%float = true)).
Proof.
  assert (H : forallb (fun i =>
            negb (is_nan (level i))
            && ((level i =? 0)%float || (level i =? 1)%float
                || ((0 <? level i)%float && (level i <? 1)%float)))
            (range 256) = true) by (vm_compute; reflexivity).
  rewrite forallb_forall in H. intros Hi. specialize (H i Hi).
  apply andb_true_iff in H. destruct H as [Hn Hc].
  apply negb_true_iff in Hn. split; [exact Hn|].
  apply orb_true_iff in Hc. destruct Hc as [Hc|Hc].
  - apply orb_true_iff in Hc. tauto.
  - apply andb_true_iff in Hc. tauto.
Qed.

Lemma level_interior i :
  0 < i < 255 ->
  (level i =? 0)%float = false /\ (level i =? 1)%float = false
  /\ (abs (level i) =? 1)%float = false /\ (1 <? abs (level i))%float = false.
Proof.
  assert (H : forallb (fun i =>
            (i =? 0) || (i =? 255)
            || (negb (level i =? 0)%float && negb (level i =? 1)%float
                && negb (abs (level i) =? 1)%float
                && negb (1 <? abs (level i))%float))
            (range 256) = true) by (vm_compute; reflexivity).
  rewrite forallb_forall in H. intros Hi.
  specialize (H i ltac:(apply range_In; simpl; lia)).
  replace (i =? 0) with false in H by (symmetry; apply Z.eqb_neq; lia).
  replace (i =? 255) with false in H by (symmetry; apply Z.eqb_neq; lia).
  cbn [orb] in H. rewrite !andb_true_iff, !negb_true_iff in H. tauto.
Qed.

Lemma gamma_curve_unfold libm_pow inv_gamma i :
  In i (range 256) ->
  gamma_curve libm_pow inv_gamma i
  = match inv_gamma with
    | PyF w => p <- float_pow libm_pow (level i) w ;; Ok (p * 255)%float
    | NpF w => Ok (libm_pow (level i) w * 255)%float
    end.
Proof.
  intros Hi. pose proof (level_ok i Hi) as E. unfold gamma_curve.
  destruct (Py.float_of_int i) as [fi|]; [|discriminate].
  cbn [Py.bind] in E |- *. rewrite E. reflexivity.
Qed.


(** [x ** 0.0] and [x ** -0.0]. *)
Lemma float_pow_zero_exponent libm_pow x w :
  (w =? 0)%float = true -> float_pow libm_pow x w = Ok 1%float.
Proof. intros Hw. unfold float_pow. rewrite Hw. reflexivity. Qed.

(** The powers Python returns on the levels of the table, for an exponent
    that is [+0.0], positive or [+inf]. *)
Lemma power_level_cases libm_pow w i :
  sf_sign (Prim2SF w) = Some false ->
  (forall i, 0 < i < 255 -> is_infinity (libm_pow (level i) w) = false) ->
  0 <= i < 256 ->
  float_pow libm_pow (level i) w = Ok (power_level libm_pow w i)
  /\ power_level libm_pow w i
     = match Prim2SF w with
       | S754_zero _ => 1%float
       | S754_infinity _ => if i =? 255 then 1%float else 0%float
       | _ => if i =? 0 then 0%float
              else if i =? 255 then 1%float
              else libm_pow (level i) w
       end.
Proof.
  intros Hw Hfin Hi.
  assert (Hp : forall p, float_pow libm_pow (level i) w = Ok p ->
                         float_pow libm_pow (level i) w = Ok (power_level libm_pow w i)
                         /\ power_level libm_pow w i = p).
  { intros p Hp. unfold power_level. rewrite Hp. auto. }
  assert (Hcase : i = 0 \/ i = 255 \/ 0 < i < 255) by lia.
  pose proof (eqb_zero_spec w) as Hw0. pose proof (is_nan_spec w) as Hwn.
  pose proof (is_infinity_spec w) as Hwi. pose proof (ltb_zero_spec w) as Hwl.
  pose proof (zero_ltb_spec w) as Hwp.
  destruct (Prim2SF w) as [s|s| |s m e]; try discriminate; injection Hw as ->.
  - (* the exponent is 0.0 *)
    apply Hp. unfold float_pow. rewrite Hw0. reflexivity.
  - (* the exponent is +inf *)
    destruct Hcase as [->|[->|Hint]].
    + apply Hp. unfold float_pow. rewrite level_0, Hw0, Hwn, Hwi, Hwp. reflexivity.
    + apply Hp. unfold float_pow. rewrite level_255, Hw0, Hwn, Hwi. reflexivity.
    + destruct (level_interior i Hint) as (_ & _ & Ha1 & Ha2).
      destruct (level_class i ltac:(apply range_In; simpl; lia)) as [Hn _].
      replace (i =? 255) with false by (symmetry; apply Z.eqb_neq; lia).
      apply Hp. unfold float_pow. rewrite Hw0, Hn, Hwn, Hwi, Ha1, Ha2, Hwp.
      reflexivity.
  - (* the exponent is finite and positive *)
    destruct Hcase as [->|[->|Hint]].
    + apply Hp. unfold float_pow. rewrite level_0, Hw0, Hwn, Hwi, Hwl.
      change (is_nan 0) with false. change (0 =? 0)%float with true. cbv iota.
      destruct (SF_is_odd_integer _); reflexivity.
    + apply Hp. unfold float_pow. rewrite level_255, Hw0, Hwn, Hwi. reflexivity.
    + destruct (level_interior i Hint) as (H0 & H1 & _ & _).
      destruct (level_class i ltac:(apply range_In; simpl; lia)) as [Hn _].
      replace (i =? 0) with false by (symmetry; apply Z.eqb_neq; lia).
      replace (i =? 255) with false by (symmetry; apply Z.eqb_neq; lia).
      apply Hp. unfold float_pow. rewrite Hw0, Hn, Hwn, Hwi, H0, H1, (Hfin i Hint).
      reflexivity.
Qed.

Lemma power_level_unit libm_pow w i :
  sf_sign (Prim2SF w) = Some false ->
  (forall i, 0 < i < 255 ->
             (0 <=? libm_pow (level i) w)%float = true
             /\ (libm_pow (level i) w <=? 1)%float = true) ->
  0 <= i < 256 ->
  float_pow libm_pow (level i) w = Ok (power_level libm_pow w i)
  /\ (0 <=? power_level libm_pow w i)%float = true
  /\ (power_level libm_pow w i <=? 1)%float = true.
Proof.
  intros Hw Hrange Hi.
  assert (Hfin : forall i, 0 < i < 255 -> is_infinity (libm_pow (level i) w) = false).
  { intros k Hk. destruct (Hrange k Hk). apply unit_float_finite; assumption. }
  destruct (power_level_cases libm_pow w i Hw Hfin Hi) as [Hp Hcases].
  split; [exact Hp|]. rewrite Hcases.
  assert (Ci : i = 0 \/ i = 255 \/ 0 < i < 255) by lia.
  destruct (Prim2SF w) as [s|s| |s m e]; try discriminate.
  - split; reflexivity.
  - destruct (i =? 255); split; reflexivity.
  - destruct Ci as [->|[->|Hint]]; try (split; reflexivity).
    replace (i =? 0) with false by (symmetry; apply Z.eqb_neq; lia).
    replace (i =? 255) with false by (symmetry; apply Z.eqb_neq; lia).
    apply Hrange. exact Hint.
Qed.


(** The table [process] builds for a positive gamma. *)
Lemma gamma_table_built libm_pow gamma :
  (forall i, 0 < i < 255 ->
             is_infinity (libm_pow (level i) (1 / gamma)%float) = false) ->
  (0 <? gamma)%float = true ->
  gamma_table libm_pow (PyF gamma)
  = Ok (map (fun i => astype_uint8 (power_level libm_pow (1 / gamma) i * 255))
            (range 256)).
Proof.
  intros Hfin Hg.
  destruct (positive_gamma_shape _ Hg) as [Hnz Hshape].
  pose proof (reciprocal_sign gamma false Hshape) as Hw.
  unfold gamma_table, reciprocal, Py.float_truediv. rewrite Hnz.
  cbn [Py.bind]. unfold create_lookup_table.
  rewrite (map_result_ok _ (fun i => (power_level libm_pow (1 / gamma) i * 255)%float)).
  - cbn [Py.bind]. rewrite map_map. reflexivity.
  - intros i Hi. rewrite gamma_curve_unfold by assumption.
    apply range_In in Hi. simpl in Hi.
    destruct (power_level_cases libm_pow _ i Hw Hfin Hi) as [-> _]. reflexivity.
Qed.

Lemma gamma_table_infinite_gamma_counterexample :
  (0 <? infinity)%float = true
  /\ forall libm_pow,
       gamma_table libm_pow (PyF infinity) = Ok (repeat 255 256)
       /\ nth 0 (repeat 255 256) 0 = 255.
Proof.
  split; [reflexivity|]. intros libm_pow. split; [|reflexivity].
  unfold gamma_table, reciprocal, Py.float_truediv.
  change (infinity =? 0)%float with false. cbn [Py.bind].
  change (1 / infinity)%float with 0%float.
  unfold create_lookup_table.
  rewrite (map_result_ok _ (fun _ => 255%float)).
  - cbn [Py.bind]. rewrite map_map. vm_compute. reflexivity.
  - intros i Hi. rewrite gamma_curve_unfold by assumption.
    rewrite float_pow_zero_exponent by reflexivity. reflexivity.
Qed.

(** With a numpy gamma the table is always built. *)
Lemma gamma_table_numpy libm_pow g :
  gamma_table libm_pow (NpF g)
  = Ok (map (fun i => astype_uint8 (libm_pow (level i) (1 / g) * 255)%float)
            (range 256)).
Proof.
  unfold gamma_table, reciprocal, create_lookup_table. cbn [Py.bind].
  rewrite (map_result_ok _ (fun i => (libm_pow (level i) (1 / g) * 255)%float)).
  - cbn [Py.bind]. rewrite map_map. reflexivity.
  - intros i Hi. rewrite gamma_curve_unfold by assumption. reflexivity.
Qed.

(** The lambda of [process] is the power, times 255. *)
Lemma gamma_curve_power libm_pow inv_gamma i :
  In i (range 256) ->
  gamma_curve libm_pow inv_gamma i
  = (p <- scalar_pow libm_pow (level i) inv_gamma ;; Ok (p * 255)%float).
Proof.
  intros Hi. rewrite gamma_curve_unfold by assumption.
  destruct inv_gamma; reflexivity.
Qed.

(** The C library's powers on all 256 levels, from the interior ones and
    the two ends. *)
Lemma numpy_levels_unit (libm_pow : float -> float -> float) (w : float) :
  (forall i, 0 < i < 255 ->
             (0 <=? libm_pow (level i) w)%float = true
             /\ (libm_pow (level i) w <=? 1)%float = true) ->
  libm_pow 0%float w = 0%float -> libm_pow 1%float w = 1%float ->
  forall i, 0 <= i < 256 ->
            (0 <=? libm_pow (level i) w)%float = true
            /\ (libm_pow (level i) w <=? 1)%float = true.
Proof.
  intros Hrange H0 H1 i Hi.
  assert (C : i = 0 \/ i = 255 \/ 0 < i < 255) by lia.
  destruct C as [->|[->|Hint]].
  - rewrite level_0, H0. split; reflexivity.
  - rewrite level_255, H1. split; reflexivity.
  - apply Hrange. exact Hint.
Qed.


(** C3 (amended).  For every finite gamma > 0, a Python float or a numpy
    float64, the lookup table GammaAdjuster.process builds has exactly 256
    entries of 0..255; entry i is int((i / 255.0) ** inv_gamma * 255), the
    truncation, for inv_gamma = 1.0 / gamma; entry 0 is 0 and entry 255 is
    255; at gamma = 1.0 no table is built and the image is returned
    unchanged.  The C library's pow is assumed to map the 254 interior
    levels into [0, 1] at the exponent 1/gamma, and, for a numpy gamma, to
    return 0.0 at the base 0.0 and 1.0 at the base 1.0. *)
Theorem gamma_table_entries
    (libm_pow : float -> float -> float) (gamma : scalar) :
  (forall i, 0 < i < 255 ->
             (0 <=? libm_pow (level i) (1 / scalar_value gamma))%float = true
             /\ (libm_pow (level i) (1 / scalar_value gamma) <=? 1)%float = true) ->
  pow_at_ends libm_pow gamma ->
  (0 <? scalar_value gamma)%float = true ->
  is_infinity (scalar_value gamma) = false ->
  (exists inv_gamma table,
      reciprocal gamma = Ok inv_gamma
      /\ scalar_value inv_gamma = (1 / scalar_value gamma)%float
      /\ gamma_table libm_pow gamma = Ok table
      /\ length table = 256%nat
      /\ (forall i, 0 <= i < 256 ->
            exists p,
              scalar_pow libm_pow (level i) inv_gamma = Ok p
              /\ gamma_curve libm_pow inv_gamma i = Ok (p * 255)%float
              /\ Py.int_of_float (p * 255) = Ok (nth (Z.to_nat i) table 0)
              /\ 0 <= nth (Z.to_nat i) table 0 <= 255)
      /\ nth 0 table 0 = 0
      /\ nth 255 table 0 = 255)
  /\ (forall default_gamma a one,
         validate_image (PyArray a) = true ->
         (scalar_value one =? 1)%float = true ->
         gamma_process libm_pow default_gamma (PyArray a) (Some one) = Ok a).
Proof.
  intros Hrange Hends Hg Hgfin. split.
  - destruct gamma as [gamma|gamma]; cbn [scalar_value pow_at_ends] in *.
    + (* a Python float *)
      destruct (finite_positive_gamma _ Hg Hgfin) as (Hnz & Hw & Hwnz).
      assert (Hfin : forall i, 0 < i < 255 ->
                       is_infinity (libm_pow (level i) (1 / gamma)%float) = false).
      { intros k Hk. destruct (Hrange k Hk). apply unit_float_finite; assumption. }
      exists (PyF (1 / gamma)%float). eexists.
      split; [unfold reciprocal, Py.float_truediv; rewrite Hnz; reflexivity|].
      split; [reflexivity|].
      split; [apply gamma_table_built; assumption|].
      repeat apply conj.
      * rewrite length_map. unfold range. rewrite length_map, length_seq. reflexivity.
      * intros i Hi. rewrite nth_map_range by exact Hi.
        destruct (power_level_unit libm_pow _ i Hw Hrange Hi) as (Hp & H0 & H1).
        exists (power_level libm_pow (1 / gamma) i).
        split; [exact Hp|].
        split; [rewrite gamma_curve_power by (apply range_In; simpl; lia);
                cbn [scalar_pow]; rewrite Hp; reflexivity|].
        apply unit_entry_int; assumption.
      * change 0%nat with (Z.to_nat 0). rewrite nth_map_range by lia.
        destruct (power_level_cases libm_pow _ 0 Hw Hfin ltac:(lia)) as [_ ->].
        rewrite eqb_zero_spec in Hwnz.
        destruct (Prim2SF (1 / gamma)) as [s|s| |s m e]; try discriminate; reflexivity.
      * change 255%nat with (Z.to_nat 255). rewrite nth_map_range by lia.
        destruct (power_level_cases libm_pow _ 255 Hw Hfin ltac:(lia)) as [_ ->].
        destruct (Prim2SF (1 / gamma)) as [s|s| |s m e]; try discriminate; reflexivity.
    + (* a numpy float64 *)
      destruct Hends as [H0 H1].
      pose proof (numpy_levels_unit libm_pow _ Hrange H0 H1) as Hunit.
      exists (NpF (1 / gamma)%float). eexists.
      split; [reflexivity|]. split; [reflexivity|].
      split; [apply gamma_table_numpy|].
      repeat apply conj.
      * rewrite length_map. unfold range. rewrite length_map, length_seq. reflexivity.
      * intros i Hi. rewrite nth_map_range by exact Hi.
        exists (libm_pow (level i) (1 / gamma)%float).
        split; [reflexivity|].
        split; [rewrite gamma_curve_power by (apply range_In; simpl; lia);
                reflexivity|].
        destruct (Hunit i Hi). apply unit_entry_int; assumption.
      * change 0%nat with (Z.to_nat 0). rewrite nth_map_range by lia.
        rewrite level_0, H0. reflexivity.
      * change 255%nat with (Z.to_nat 255). rewrite nth_map_range by lia.
        rewrite level_255, H1. reflexivity.
  - intros default_gamma a one Hv Hone. unfold gamma_process.
    rewrite (validate_input_valid _ Hv). cbn [Py.bind].
    rewrite Hone, copy_eq. reflexivity.
Qed.

Lemma gamma_table_entries_witness :
  (exists table,
      gamma_table (fun x _ => (x * x)%float) (PyF 0.5) = Ok table
      /\ length table = 256%nat
      /\ nth 0 table 0 = 0
      /\ nth 255 table 0 = 255)
  /\ (exists table,
         gamma_table (fun x _ => (x * x)%float) (NpF 0.5) = Ok table
         /\ length table = 256%nat
         /\ nth 0 table 0 = 0
         /\ nth 255 table 0 = 255).
Proof.
  assert (Hgrid : forall i, 0 < i < 255 ->
             (0 <=? level i * level i)%float = true
             /\ (level i * level i <=? 1)%float = true).
  { intros i Hi.
    assert (H : forallb (fun i =>
                  (0 <=? level i * level i)%float && (level i * level i <=? 1)%float)
                  (range 256) = true) by (vm_compute; reflexivity).
    rewrite forallb_forall in H.
    specialize (H i ltac:(apply range_In; simpl; lia)).
    apply andb_true_iff in H. exact H. }
  split.
  - destruct (gamma_table_entries (fun x _ => (x * x)%float) (PyF 0.5))
      as [(w & table & _ & _ & Ht & Hlen & _ & H0 & H255) _].
    + exact Hgrid.
    + exact I.
    + reflexivity.
    + reflexivity.
    + exists table. repeat split; trivial.
  - destruct (gamma_table_entries (fun x _ => (x * x)%float) (NpF 0.5))
      as [(w & table & _ & _ & Ht & Hlen & _ & H0 & H255) _].
    + exact Hgrid.
    + split; reflexivity.
    + reflexivity.
    + reflexivity.
    + exists table. repeat split; trivial.
Defined.




(** ** The recommended gamma *)

(** [process] raises nothing on the gamma [auto_gamma] derives, so
    [get_recommended_gamma] fails exactly when the reduction to grayscale
    does. *)
Lemma recommended_gamma_of_reduction
    (libm_pow : float -> float -> float)
    (cvtColor : ndarray -> result ndarray) (np_mean : ndarray -> float)
    (default_gamma : scalar) (a : ndarray) :
  validate_image (PyArray a) = true ->
  get_recommended_gamma libm_pow cvtColor np_mean default_gamma (PyArray a)
  = (gray <- (if Z.of_nat (length (shape a)) =? 3 then cvtColor a else Ok a) ;;
     Ok (gamma_of_mean (np_mean gray))).
Proof.
  intros Hv. pose proof (validate_input_valid _ Hv) as E.
  unfold get_recommended_gamma, auto_gamma. rewrite E. cbn [Py.bind].
  destruct (if Z.of_nat (length (shape a)) =? 3 then cvtColor a else Ok a)
    as [gray|e]; [|reflexivity].
  cbn [Py.bind]. unfold gamma_process. rewrite E. cbn [Py.bind].
  destruct (gamma_of_mean (np_mean gray)) as [g|g] eqn:Eg; cbn [scalar_value].
  - (* the midtone band hands the Python float 1.0 to [process] *)
    assert (g = 1%float) as ->.
    { unfold gamma_of_mean in Eg.
      destruct (np_mean gray <? 85)%float; [discriminate|].
      destruct (170 <? np_mean gray)%float; [discriminate|]. congruence. }
    reflexivity.
  - rewrite gamma_table_numpy. destruct (g =? 1)%float; reflexivity.
Qed.

Lemma recommended_gamma_two_channels_counterexample :
  validate_image (PyArray two_channel_image) = true
  /\ length (shape two_channel_image) = 3%nat
  /\ forall libm_pow cvtColor np_mean default_gamma,
       cvtColor two_channel_image = Raise Cv2Error ->
       get_recommended_gamma libm_pow cvtColor np_mean default_gamma
         (PyArray two_channel_image)
       = Raise Cv2Error.
Proof.
  split; [reflexivity|]. split; [reflexivity|].
  intros libm_pow cvtColor np_mean default_gamma Hc.
  rewrite recommended_gamma_of_reduction by reflexivity.
  change (Z.of_nat (length (shape two_channel_image)) =? 3) with true.
  cbv iota. rewrite Hc. reflexivity.
Qed.

(** C6 (amended).  On a valid buffer get_recommended_gamma fails exactly
    when the reduction to grayscale does: a buffer of rank 2 is used as it
    is and nothing fails; a buffer of rank 3 goes through cv2.cvtColor, and
    when that raises (it does on a valid buffer with two channels, or with
    no elements) the same error comes out.  Otherwise the result is the
    three-band function of the grayscale mean m: 0.5 + m / 170 if m < 85,
    1.0 + (m - 170) / 170 if m > 170, and 1.0 otherwise (also for a NaN
    mean).  It is exactly 1.0 at m = 127, lies in [0.5, 1.0) at m = 0 and
    in (1.0, 1.5] at m = 255.  Its only division is by the constant 170. *)
Theorem recommended_gamma_bands
    (libm_pow : float -> float -> float)
    (cvtColor : ndarray -> result ndarray) (np_mean : ndarray -> float)
    (default_gamma : scalar) (a : ndarray) :
  validate_image (PyArray a) = true ->
  (length (shape a) = 2%nat \/ length (shape a) = 3%nat)
  /\ (length (shape a) = 2%nat ->
      get_recommended_gamma libm_pow cvtColor np_mean default_gamma (PyArray a)
      = Ok (gamma_of_mean (np_mean a)))
  /\ (length (shape a) = 3%nat ->
      forall gray,
        cvtColor a = Ok gray ->
        get_recommended_gamma libm_pow cvtColor np_mean default_gamma (PyArray a)
        = Ok (gamma_of_mean (np_mean gray)))
  /\ (length (shape a) = 3%nat ->
      forall e,
        cvtColor a = Raise e ->
        get_recommended_gamma libm_pow cvtColor np_mean default_gamma (PyArray a)
        = Raise e)
  /\ (forall m,
         scalar_value (gamma_of_mean m)
         = if (m <? 85)%float then (0.5 + m / 170)%float
           else if (170 <? m)%float then (1 + (m - 170) / 170)%float
           else 1%float)
  /\ scalar_value (gamma_of_mean 127) = 1%float
  /\ ((0.5 <=? scalar_value (gamma_of_mean 0))%float = true
      /\ (scalar_value (gamma_of_mean 0) <? 1)%float = true)
  /\ ((1 <? scalar_value (gamma_of_mean 255))%float = true
      /\ (scalar_value (gamma_of_mean 255) <=? 1.5)%float = true).
Proof.
  intros Hv.
  pose proof (recommended_gamma_of_reduction libm_pow cvtColor np_mean
                default_gamma a Hv) as Hrun.
  split.
  { apply (validate_input_ok (PyArray a) a), validate_input_valid, Hv. }
  split.
  { intros Hr. rewrite Hrun, Hr. reflexivity. }
  split.
  { intros Hr gray Hc. rewrite Hrun, Hr.
    change (Z.of_nat 3 =? 3) with true. cbv iota. rewrite Hc. reflexivity. }
  split.
  { intros Hr e Hc. rewrite Hrun, Hr.
    change (Z.of_nat 3 =? 3) with true. cbv iota. rewrite Hc. reflexivity. }
  split.
  { intros m. unfold gamma_of_mean.
    destruct (m <? 85)%float; [reflexivity|].
    destruct (170 <? m)%float; reflexivity. }
  split; [vm_compute; reflexivity|].
  split; split; vm_compute; reflexivity.
Qed.

Lemma recommended_gamma_bands_witness :
  get_recommended_gamma (fun x _ => x)
    (fun _ => Ok {| shape := [1; 1]; data := [127] |})
    (fun _ => 127%float) (PyF 1) (PyArray one_pixel_image)
  = Ok (PyF 1).
Proof.
  apply (proj1 (proj2 (proj2
           (recommended_gamma_bands (fun x _ => x)
              (fun _ => Ok {| shape := [1; 1]; data := [127] |})
              (fun _ => 127%float) (PyF 1) one_pixel_image eq_refl)))
           eq_refl {| shape := [1; 1]; data := [127] |} eq_refl).
Defined.

(** ** Rotation *)

Lemma rotation_canvas_scale_counterexample :
  (exists M, rotation_geometry quarter_cos quarter_sin 100 100 90 true None 2
             = Ok (M, (200, 200)))
  /\ canvas_size_spec quarter_cos quarter_sin 100 100 90 = Ok (100, 100).
Proof.
  split; [eexists|]; vm_compute; reflexivity.
Qed.

(** C7 (amended).  For every rotation of a W x H buffer by a non-zero angle
    theta with expand requested, the canvas is measured on the entries of
    the rotation matrix, alpha = cos(theta) * scale and beta = sin(theta) *
    scale: W_new = int(H * |beta| + W * |alpha|) and H_new = int(H * |alpha|
    + W * |beta|), truncated; the translation terms of the matrix are
    shifted by (W_new / 2 - center.x, H_new / 2 - center.y).  With the scale
    1.0 this is W_new = int(H * |sin theta| + W * |cos theta|) and H_new =
    int(H * |cos theta| + W * |sin theta|).  A 100 x 100 buffer rotated by 90
    degrees with the scale 1.0 gets the canvas (100, 100), for a C library
    whose cos and sin are correctly rounded at the quarter turn. *)
Theorem rotation_geometry_expand
    (libm_cos libm_sin : float -> float)
    (W H : Z) (degrees : float) (center : option (Z * Z)) (scale : float) :
  let c := match center with None => (W / 2, H / 2) | Some c => c end in
  let theta := (degrees * (CV_PI / 180))%float in
  let alpha := (libm_cos theta * scale)%float in
  let beta := (libm_sin theta * scale)%float in
  (forall M w h,
      rotation_geometry libm_cos libm_sin W H degrees true center scale
      = Ok (M, (w, h)) <->
      exists cx cy dx dy,
        Point2f_coord (fst c) = Ok cx /\ Point2f_coord (snd c) = Ok cy
        /\ canvas_side H (abs beta) W (abs alpha) = Ok w
        /\ canvas_side H (abs alpha) W (abs beta) = Ok h
        /\ recentre w (fst c) = Ok dx /\ recentre h (snd c) = Ok dy
        /\ M = {| m00 := alpha; m01 := beta;
                  m02 := ((1 - alpha) * cx - beta * cy + dx)%float;
                  m10 := (- beta)%float; m11 := alpha;
                  m12 := (beta * cx + (1 - alpha) * cy + dy)%float |})
  /\ (forall M w h,
         rotation_geometry libm_cos libm_sin W H degrees true center 1
         = Ok (M, (w, h)) ->
         canvas_size_spec libm_cos libm_sin W H degrees = Ok (w, h))
  /\ (libm_sin quarter_turn = 1%float ->
      libm_cos quarter_turn = 0x1.1a62633145c07p-54%float ->
      exists M,
        rotation_geometry libm_cos libm_sin 100 100 90 true None 1
        = Ok (M, (100, 100))).
Proof.
  intros c theta alpha beta. repeat apply conj.
  - intros M w h. unfold rotation_geometry. fold c.
    unfold getRotationMatrix2D. fold theta. fold alpha. fold beta. simpl.
    split.
    + destruct (Point2f_coord (fst c)) as [cx|]; [|discriminate].
      destruct (Point2f_coord (snd c)) as [cy|]; [|discriminate]. simpl.
      destruct (canvas_side H (abs beta) W (abs alpha)) as [w'|]; [|discriminate].
      destruct (canvas_side H (abs alpha) W (abs beta)) as [h'|]; [|discriminate].
      simpl.
      destruct (recentre w' (fst c)) as [dx|] eqn:Edx; [|discriminate].
      destruct (recentre h' (snd c)) as [dy|] eqn:Edy; [|discriminate].
      simpl. intros [= <- <- <-].
      exists cx, cy, dx, dy. repeat split; assumption.
    + intros (cx & cy & dx & dy & Hcx & Hcy & Hw & Hh & Hdx & Hdy & ->).
      rewrite Hcx, Hcy. simpl. rewrite Hw, Hh. simpl. rewrite Hdx, Hdy.
      reflexivity.
  - intros M w h. unfold rotation_geometry, getRotationMatrix2D, canvas_size_spec.
    fold c. fold theta. cbn [m00 m01]. rewrite !float_mul_one.
    destruct (Point2f_coord (fst c)) as [cx|]; [|discriminate].
    destruct (Point2f_coord (snd c)) as [cy|]; [|discriminate].
    cbn [Py.bind].
    destruct (canvas_side H _ W _) as [w'|]; [|discriminate].
    destruct (canvas_side H _ W _) as [h'|]; [|discriminate].
    cbn [Py.bind].
    destruct (recentre w' (fst c)) as [dx|]; [|discriminate].
    destruct (recentre h' (snd c)) as [dy|]; [|discriminate].
    cbn [Py.bind]. intros [= _ <- <-]. reflexivity.
  - intros Hsin Hcos. unfold rotation_geometry, getRotationMatrix2D.
    change (90 * (CV_PI / 180))%float with quarter_turn.
    rewrite Hsin, Hcos. eexists. vm_compute. reflexivity.
Qed.

Lemma rotation_geometry_expand_witness :
  exists M,
    rotation_geometry quarter_cos quarter_sin 100 100 90 true None 1
    = Ok (M, (100, 100)).
Proof.
  apply (rotation_geometry_expand quarter_cos quarter_sin 100 100 90 None 1);
    reflexivity.
Defined.

(** C8.  For every valid buffer and every scale, center and expand flag,
    ImageRotator.process with an angle equal to 0 returns a copy of the
    input: the same samples and the same shape.  Any other angle, 360
    included, goes through the rotation geometry and cv2.warpAffine. *)
Theorem rotate_zero_is_copy
    (libm_cos libm_sin : float -> float)
    (warpAffine : ndarray -> matrix23 -> Z * Z -> Z * Z * Z -> ndarray)
    (a : ndarray) :
  validate_image (PyArray a) = true ->
  (forall degrees expand center scale colour,
      (degrees =? 0)%float = true ->
      rotate_process libm_cos libm_sin warpAffine (PyArray a) degrees expand
        center scale colour = Ok a)
  /\ (forall degrees expand center scale colour,
         (degrees =? 0)%float = false ->
         rotate_process libm_cos libm_sin warpAffine (PyArray a) degrees expand
           center scale colour
         = (g <- rotation_geometry libm_cos libm_sin (nth 1 (shape a) 0)
                   (nth 0 (shape a) 0) degrees expand center scale ;;
            Ok (warpAffine a (fst g) (snd g) colour)))
  /\ (360 =? 0)%float = false
  /\ rotate_process libm_cos libm_sin warpAffine (PyArray sample_image) 360
       false None 1 (255, 255, 255)
     = Ok (warpAffine sample_image
             (getRotationMatrix2D libm_cos libm_sin 1 1 360 1)
             (2, 2) (255, 255, 255)).
Proof.
  intros Hv. pose proof (validate_input_valid _ Hv) as E.
  repeat apply conj; try reflexivity; intros; unfold rotate_process;
    rewrite E; simpl; rewrite H, ?copy_eq; reflexivity.
Qed.

Lemma rotate_zero_is_copy_witness :
  validate_image (PyArray sample_image) = true
  /\ rotate_process quarter_cos quarter_sin (fun a _ _ _ => LUT a [])
       (PyArray sample_image) 0 true None 2 (255, 255, 255)
     = Ok sample_image.
Proof.
  split; [reflexivity|].
  apply (rotate_zero_is_copy quarter_cos quarter_sin (fun a _ _ _ => LUT a [])
           sample_image); reflexivity.
Defined.

(** ** Conversions of small ints *)

Lemma iter_xO_spec d m : Z.pos (Pos.iter xO m d) = Z.pos m * 2 ^ Z.pos d.
Proof.
  revert m. induction d using Pos.peano_ind; intros m.
  - rewrite Pos.iter_succ_r || idtac. simpl. lia.
  - rewrite Pos.iter_succ. rewrite Pos2Z.inj_xO, IHd.
    rewrite Pos2Z.inj_succ, Z.pow_succ_r by lia. lia.
Qed.

(** An int below [2 ^ 53] in absolute value is a float, exactly: a
    mantissa of 53 bits that holds the int shifted to the left. *)
Lemma binary_round_small (sx : bool) (p : positive) :
  Z.pos p < 2 ^ 53 ->
  exists m e,
    binary_round prec emax sx p 0 = S754_finite sx m e
    /\ bounded prec emax m e = true
    /\ 2 ^ 52 <= Z.pos m < 2 ^ 53
    /\ -52 <= e <= 0
    /\ Z.pos m = Z.pos p * 2 ^ (- e).
Proof.
  intros Hp.
  pose proof (digits2_pos_bounds p) as [Hlo Hhi].
  assert (Hd : Z.pos (digits2_pos p) <= 53).
  { destruct (Z.le_gt_cases (Z.pos (digits2_pos p)) 53) as [H|H]; [exact H|].
    exfalso. assert (2 ^ 53 <= 2 ^ (Z.pos (digits2_pos p) - 1))
      by (apply Z.pow_le_mono_r; lia). lia. }
  set (d := Z.pos (digits2_pos p)) in *.
  set (k := 53 - d).
  assert (Hsh : exists mz, shl_align p 0 (fexp prec emax (d + 0)) = (mz, - k)
                           /\ Z.pos mz = Z.pos p * 2 ^ k).
  { unfold shl_align.
    replace (fexp prec emax (d + 0) - 0) with (- k)
      by (unfold fexp, SpecFloat.emin, prec, emax, k; lia).
    destruct k as [|q|q] eqn:Ek; try lia.
    - exists p. split; [reflexivity|]. lia.
    - exists (Pos.iter xO p q). cbn [Z.opp]. split.
      + f_equal. unfold fexp, SpecFloat.emin, prec, emax. lia.
      + apply iter_xO_spec. }
  destruct Hsh as (mz & Hsh & Hmz).
  assert (Hk : 0 <= k) by (unfold k; lia).
  assert (Hdz : Zdigits2 (Z.pos mz) = 53).
  { rewrite Hmz, Zdigits2_shift by lia. cbn [Zdigits2]. fold d. unfold k. lia. }
  pose proof (Zdigits2_bounds (Z.pos mz) ltac:(lia)) as Hmzb. rewrite Hdz in Hmzb.
  exists mz, (- k). unfold binary_round. fold d. rewrite Hsh.
  destruct (binary_round_aux_exact sx (Z.pos mz) (- k)) as [_ Hbra].
  - lia.
  - rewrite Hdz. unfold fexp, SpecFloat.emin, prec, emax, k. lia.
  - rewrite Hdz. unfold fexp, SpecFloat.emin, prec, emax, k. lia.
  - assert (HE : fexp prec emax (Zdigits2 (Z.pos mz) + - k) = - k).
    { rewrite Hdz. unfold fexp, SpecFloat.emin, prec, emax, k. lia. }
    rewrite HE in Hbra. replace (- k - - k) with 0 in Hbra by lia.
    rewrite RNE_0 in Hbra.
    replace (Z.pos mz =? 0) with false in Hbra by reflexivity.
    replace (Z.pos mz <? 2 ^ 53) with true in Hbra
      by (symmetry; apply Z.ltb_lt; lia).
    cbn [Z.to_pos] in Hbra.
    split; [exact Hbra|]. split.
    + unfold bounded, canonical_mantissa. apply andb_true_iff. split.
      * apply Z.eqb_eq. change (Z.pos (digits2_pos mz)) with (Zdigits2 (Z.pos mz)).
        exact HE.
      * apply Z.leb_le. unfold prec, emax, k. lia.
    + split; [change (53 - 1) with 52 in Hmzb; exact Hmzb|].
      split; [pose proof (Pos2Z.is_pos (digits2_pos p)); unfold k; fold d; lia|].
      rewrite Z.opp_involutive. exact Hmz.
Qed.

Lemma int_part_shifted (m : positive) (e n : Z) :
  e <= 0 -> Z.pos m = n * 2 ^ (- e) -> Py.int_part m e = n.
Proof.
  intros He Hm. unfold Py.int_part.
  destruct (0 <=? e) eqn:E0.
  - apply Z.leb_le in E0. assert (e = 0) as -> by lia.
    rewrite Hm. cbn. lia.
  - rewrite Hm. apply Z.div_mul. apply Z.pow_nonzero; lia.
Qed.

Lemma float_of_int_exact (n : Z) :
  - 2 ^ 53 < n < 2 ^ 53 ->
  exists f, Py.float_of_int n = Ok f /\ Py.int_of_float f = Ok n.
Proof.
  intros Hn. unfold Py.float_of_int.
  destruct n as [|p|p].
  - exists 0%float. split; reflexivity.
  - destruct (binary_round_small false p ltac:(lia))
      as (m & e & Hr & Hb & _ & He & Hm).
    pose proof (int_part_shifted m e _ ltac:(lia) Hm) as Hi.
    cbn [binary_normalize]. rewrite Hr.
    assert (Hsf : Prim2SF (SF2Prim (S754_finite false m e)) = S754_finite false m e)
      by (apply Prim2SF_SF2Prim; exact Hb).
    exists (SF2Prim (S754_finite false m e)). split.
    + rewrite is_infinity_spec, Hsf. reflexivity.
    + apply int_of_float_of_trunc. rewrite Hsf. cbn [Py.SF_trunc cond_Zopp].
      rewrite Hi. reflexivity.
  - destruct (binary_round_small true p ltac:(lia))
      as (m & e & Hr & Hb & _ & He & Hm).
    pose proof (int_part_shifted m e _ ltac:(lia) Hm) as Hi.
    cbn [binary_normalize]. rewrite Hr.
    assert (Hsf : Prim2SF (SF2Prim (S754_finite true m e)) = S754_finite true m e)
      by (apply Prim2SF_SF2Prim; exact Hb).
    exists (SF2Prim (S754_finite true m e)). split.
    + rewrite is_infinity_spec, Hsf. reflexivity.
    + apply int_of_float_of_trunc. rewrite Hsf. cbn [Py.SF_trunc cond_Zopp].
      rewrite Hi. reflexivity.
Qed.

(** [int(n * 1.0)] is [n] for an int below [2 ^ 53] in absolute value. *)
Lemma scaled_side_one (n : Z) :
  - 2 ^ 53 < n < 2 ^ 53 ->
  (p <- Py.mul (PyInt n) (PyFloat 1) ;; Py.int p) = Ok n.
Proof.
  intros Hn. destruct (float_of_int_exact n Hn) as (f & Hf & Hi).
  unfold Py.mul, Py.to_float. rewrite Hf. cbn [Py.bind Py.int].
  rewrite float_mul_one. exact Hi.
Qed.

(** ** The dimension resolver: unit scale, degenerate sizes, signs *)

Lemma unit_scale_dimensions (W H : Z) (tw th : option Z) (ma : bool) :
  - 2 ^ 53 < W < 2 ^ 53 -> - 2 ^ 53 < H < 2 ^ 53 ->
  get_new_dimensions W H tw th (Some 1%float) ma = Ok (W, H).
Proof.
  intros HW HH. rewrite scale_branch.
  rewrite (scaled_side_one W HW), (scaled_side_one H HH). reflexivity.
Qed.

(** X1.  A scale factor of exactly 1.0 returns the original size, whatever
    the targets and the aspect flag, for sizes below 2 ^ 53 in absolute
    value: the product with 1.0 is exact and so is the way back to int. *)
Theorem get_new_dimensions_scale_one (W H : Z) (tw th : option Z) (ma : bool) :
  - 2 ^ 53 < W < 2 ^ 53 -> - 2 ^ 53 < H < 2 ^ 53 ->
  get_new_dimensions W H tw th (Some 1%float) ma = Ok (W, H).
Proof.
  intros HW HH. rewrite scale_branch.
  rewrite (scaled_side_one W HW), (scaled_side_one H HH). reflexivity.
Qed.

Lemma get_new_dimensions_scale_one_witness :
  get_new_dimensions 1920 1080 (Some 7) None (Some 1%float) false
  = Ok (1920, 1080).
Proof.
  apply (get_new_dimensions_scale_one 1920 1080 (Some 7) None false); lia.
Defined.

Lemma int_truediv_zero_numerator H :
  H <> 0 ->
  exists z, Py.int_truediv 0 H = Ok z /\ (z =? 0)%float = true.
Proof.
  intros HH. unfold Py.int_truediv.
  replace (H =? 0) with false by (symmetry; apply Z.eqb_neq; exact HH).
  destruct H as [|p|p]; try contradiction.
  - exists 0%float. split; reflexivity.
  - exists (-0)%float. split; reflexivity.
Qed.

Lemma eqb_zero_mul_zero f z :
  sf_finite (Prim2SF f) = true -> (z =? 0)%float = true ->
  Py.int_of_float (f * z)%float = Ok 0.
Proof.
  intros Hfin Hz. rewrite eqb_zero_spec in Hz.
  unfold Py.int_of_float. rewrite mul_spec.
  destruct (Prim2SF z) as [s2|s2| |s2 m2 e2]; try discriminate.
  destruct (Prim2SF f) as [s1|s1| |s1 m1 e1]; try discriminate; reflexivity.
Qed.

(** X2.  An original size with a side 0 is not rejected.  With the height
    0 the aspect ratio is the int 0: a request for a width alone raises
    ZeroDivisionError and a request for a height alone returns the width
    0.  The same happens with the width 0, where the aspect ratio is the
    float 0.0, once the target converts to a float. *)
Theorem get_new_dimensions_degenerate (t : Z) (ma : bool) :
  t <> 0 ->
  (forall W,
      get_new_dimensions W 0 (Some t) None None ma = Raise ZeroDivisionError
      /\ get_new_dimensions W 0 None (Some t) None ma = Ok (0, t))
  /\ (forall H,
         H <> 0 -> Py.is_ok (Py.float_of_int t) = true ->
         get_new_dimensions 0 H (Some t) None None ma = Raise ZeroDivisionError
         /\ get_new_dimensions 0 H None (Some t) None ma = Ok (0, t)).
Proof.
  intros Ht.
  assert (Et : (t =? 0) = false) by (apply Z.eqb_neq; exact Ht).
  split.
  - intros W. unfold get_new_dimensions, calculate_aspect_ratio, Py.truthy.
    rewrite Et. cbn. rewrite Z.mul_0_r. split; reflexivity.
  - intros H HH Hok.
    destruct (int_truediv_zero_numerator H HH) as (z & Hz & Hz0).
    destruct (Py.float_of_int t) as [ft|] eqn:Eft; [|discriminate].
    destruct (float_of_int_shape _ _ Eft) as [Hfin _].
    unfold get_new_dimensions, Py.truthy. rewrite Et. cbn [negb andb].
    rewrite (aspect_of_nonzero 0 H) by (apply Z.eqb_neq; exact HH).
    rewrite Hz. cbn [Py.bind]. unfold Py.truediv, Py.mul, Py.to_float.
    cbn [Py.unwrap]. rewrite Eft. cbn [Py.bind Py.unwrap Py.int]. unfold Py.float_truediv.
    rewrite Hz0. rewrite (eqb_zero_mul_zero ft z Hfin Hz0). split; reflexivity.
Qed.

Lemma get_new_dimensions_degenerate_witness :
  get_new_dimensions 640 0 (Some 320) None None true = Raise ZeroDivisionError
  /\ get_new_dimensions 0 480 None (Some 240) None true = Ok (0, 240).
Proof.
  destruct (get_new_dimensions_degenerate 320 true ltac:(lia)) as [H0 _].
  destruct (get_new_dimensions_degenerate 240 true ltac:(lia)) as [_ H1].
  split; [apply H0|apply H1; [lia|reflexivity]].
Defined.

(** The scaled side [int(n * s)] of a size that is not negative, for a
    scale [s >= 0]. *)
Lemma scaled_side_nonneg n s z :
  0 <= n -> (0 <=? s)%float = true ->
  (p <- Py.mul (PyInt n) (PyFloat s) ;; Py.int p) = Ok z ->
  0 <= z.
Proof.
  intros Hn Hs. unfold Py.mul, Py.to_float.
  destruct (Py.float_of_int n) as [f|] eqn:Ef; [|discriminate]. simpl.
  intros Hz. apply int_of_float_trunc in Hz. rewrite mul_spec in Hz.
  destruct (float_of_int_shape _ _ Ef) as [Hfin Hsign].
  replace (n <? 0) with false in Hsign by (symmetry; apply Z.ltb_ge; lia).
  rewrite leb_spec in Hs. change (Prim2SF 0) with (S754_zero false) in Hs.
  destruct (Prim2SF s) as [s2|s2| |s2 m2 e2] eqn:Es; try discriminate.
  - destruct (Prim2SF f) as [s1|s1| |s1 m1 e1]; try discriminate;
      simpl in Hz; injection Hz as <-; lia.
  - destruct (Prim2SF f) as [s1|s1| |s1 m1 e1]; discriminate.
  - destruct s2; [discriminate|].
    destruct (SF64mul_sign _ _ _ _ Hsign
                (eq_refl : sf_sign (S754_finite false m2 e2) = Some false))
      as [Hnan|Hpos].
    + rewrite Hnan in Hz. discriminate.
    + apply SF_trunc_sign in Hz. rewrite Hpos in Hz. exact Hz.
Qed.

(** X3.  With a scale factor that is not negative, a size that is not
    negative never comes back negative. *)
Theorem get_new_dimensions_scale_sign
    (W H : Z) (tw th : option Z) (ma : bool) (s : float) (w h : Z) :
  0 <= W -> 0 <= H -> (0 <=? s)%float = true ->
  get_new_dimensions W H tw th (Some s) ma = Ok (w, h) ->
  0 <= w /\ 0 <= h.
Proof.
  intros HW HH Hs. rewrite scale_branch.
  destruct (p <- Py.mul (PyInt W) (PyFloat s) ;; Py.int p) as [w'|] eqn:Ew;
    [|discriminate].
  destruct (p <- Py.mul (PyInt H) (PyFloat s) ;; Py.int p) as [h'|] eqn:Eh;
    [|discriminate].
  intros [= <- <-].
  split; [apply (scaled_side_nonneg W s)|apply (scaled_side_nonneg H s)];
    assumption.
Qed.

Lemma get_new_dimensions_scale_sign_witness :
  0 <= 50 /\ 0 <= 25.
Proof.
  apply (get_new_dimensions_scale_sign 100 50 None None true
           0.5%float 50 25); try lia; vm_compute; reflexivity.
Defined.

(** ** The resizer *)

Lemma resize_process_unchanged resize d a w h s ma i :
  validate_image (PyArray a) = true ->
  get_new_dimensions (nth 1 (shape a) 0) (nth 0 (shape a) 0) w h s ma
  = Ok (nth 1 (shape a) 0, nth 0 (shape a) 0) ->
  resize_process resize d (PyArray a) w h s ma i = Return a.
Proof.
  intros Hv Hd. unfold resize_process.
  rewrite (validate_input_valid _ Hv). cbn [lift outcome_bind].
  rewrite Hd. cbn [lift outcome_bind fst snd].
  rewrite !Z.eqb_refl. cbn [andb]. rewrite copy_eq. reflexivity.
Qed.

Lemma get_new_dimensions_no_request W H w h ma :
  Py.truthy w = false -> Py.truthy h = false ->
  get_new_dimensions W H w h None ma = Ok (W, H).
Proof.
  intros Hw Hh. unfold get_new_dimensions. rewrite Hw, Hh. reflexivity.
Qed.

(** X4.  ImageResizer.process on a valid image with no scale and with each
    target absent or 0 returns a copy of the image: cv2.resize is not
    called and the interpolation name is not looked up, so that a name or
    a default that is no key raises nothing. *)
Theorem resize_without_request_is_copy
    (resize : ndarray -> Z * Z -> interpolation_flag -> result ndarray)
    (default_interpolation : str) (a : ndarray) (width height : option Z)
    (maintain_aspect : bool) (interpolation : option str) :
  validate_image (PyArray a) = true ->
  Py.truthy width = false -> Py.truthy height = false ->
  resize_process resize default_interpolation (PyArray a) width height None
    maintain_aspect interpolation
  = Return a.
Proof.
  intros Hv Hw Hh. apply resize_process_unchanged; [exact Hv|].
  apply get_new_dimensions_no_request; assumption.
Qed.

Lemma resize_without_request_is_copy_witness :
  resize_process (fun _ _ _ => Raise Cv2Error) "bilinear"%string
    (PyArray sample_image) (Some 0) None None true (Some "bicubic"%string)
  = Return sample_image.
Proof.
  apply (resize_without_request_is_copy (fun _ _ _ => Raise Cv2Error)
           "bilinear"%string sample_image (Some 0) None true
           (Some "bicubic"%string)); reflexivity.
Defined.

(** X5.  On a valid image whose sides are below 2 ^ 53, a resize with the
    scale 1.0 and resize_by_percentage with 100 per cent return a copy of
    the image without calling cv2.resize. *)
Theorem resize_unit_scale_is_copy
    (resize : ndarray -> Z * Z -> interpolation_flag -> result ndarray)
    (default_interpolation : str) (a : ndarray) (interpolation : option str) :
  validate_image (PyArray a) = true ->
  - 2 ^ 53 < nth 0 (shape a) 0 < 2 ^ 53 ->
  - 2 ^ 53 < nth 1 (shape a) 0 < 2 ^ 53 ->
  (forall width height maintain_aspect,
      resize_process resize default_interpolation (PyArray a) width height
        (Some 1%float) maintain_aspect interpolation
      = Return a)
  /\ resize_by_percentage resize default_interpolation (PyArray a) 100
       interpolation
     = Return a.
Proof.
  intros Hv Hh Hw.
  assert (Hone : forall width height maintain_aspect,
             resize_process resize default_interpolation (PyArray a) width
               height (Some 1%float) maintain_aspect interpolation
             = Return a).
  { intros. apply resize_process_unchanged; [exact Hv|].
    apply unit_scale_dimensions; assumption. }
  split; [exact Hone|].
  unfold resize_by_percentage.
  change (p <- Py.float_of_int 100 ;; Py.float_truediv p 100%float)
    with (Ok 1%float).
  cbn [lift outcome_bind]. apply Hone.
Qed.

Lemma resize_unit_scale_is_copy_witness :
  resize_by_percentage (fun _ _ _ => Raise Cv2Error) "linear"%string
    (PyArray sample_image) 100 None
  = Return sample_image.
Proof.
  apply (resize_unit_scale_is_copy (fun _ _ _ => Raise Cv2Error)
           "linear"%string sample_image None); [reflexivity| |]; simpl; lia.
Defined.

(** X6.  resize_to_max_dimension returns a copy of a valid image when both
    sides are within the bound, and also when the bound is 0: the bound is
    then passed on as a target, which the resolver treats as absent, so
    the image comes back at its full size. *)
Theorem resize_to_max_dimension_copies
    (resize : ndarray -> Z * Z -> interpolation_flag -> result ndarray)
    (default_interpolation : str) (a : ndarray) (max_dimension : Z)
    (interpolation : option str) :
  validate_image (PyArray a) = true ->
  Z.max (nth 1 (shape a) 0) (nth 0 (shape a) 0) <= max_dimension
  \/ max_dimension = 0 ->
  resize_to_max_dimension resize default_interpolation (PyArray a)
    max_dimension interpolation
  = Return a.
Proof.
  intros Hv Hb. unfold resize_to_max_dimension.
  rewrite (validate_input_valid _ Hv). cbn [lift outcome_bind].
  destruct (Z.max _ _ <=? max_dimension) eqn:E.
  - rewrite copy_eq. reflexivity.
  - apply Z.leb_gt in E. destruct Hb as [Hb| ->]; [lia|].
    destruct (_ <? _); (apply resize_process_unchanged; [exact Hv|]);
      apply get_new_dimensions_no_request; reflexivity.
Qed.

Lemma resize_to_max_dimension_copies_witness :
  resize_to_max_dimension (fun _ _ _ => Raise Cv2Error) "linear"%string
    (PyArray sample_image) 0 None
  = Return sample_image.
Proof.
  apply (resize_to_max_dimension_copies (fun _ _ _ => Raise Cv2Error)
           "linear"%string sample_image 0 None); [reflexivity|].
  right. reflexivity.
Defined.

Lemma dict_get_methods key flag :
  In (key, flag) INTERPOLATION_METHODS ->
  dict_get INTERPOLATION_METHODS key = Some flag.
Proof.
  unfold INTERPOLATION_METHODS.
  intros [H|[H|[H|[H|[H|[]]]]]]; injection H as <- <-; reflexivity.
Qed.

(** X7.  The interpolation name is matched without regard to case: a name
    whose lower case is a key of INTERPOLATION_METHODS gets that key's
    flag, whatever the default.  Any other name gets the flag of the
    default when the default is a key as it stands, and raises KeyError
    otherwise, also when only the case of the default differs from a
    key. *)
Theorem interpolation_method_lookup (default_interpolation name : str) :
  (forall key flag,
      In (key, flag) INTERPOLATION_METHODS -> lower name = key ->
      _get_interpolation_method default_interpolation (Some name)
      = Return flag)
  /\ (dict_get INTERPOLATION_METHODS (lower name) = None ->
      (forall flag,
          In (default_interpolation, flag) INTERPOLATION_METHODS ->
          _get_interpolation_method default_interpolation (Some name)
          = Return flag)
      /\ (dict_get INTERPOLATION_METHODS default_interpolation = None ->
          _get_interpolation_method default_interpolation (Some name)
          = Throw KeyError)).
Proof.
  unfold _get_interpolation_method. split.
  - intros key flag Hin <-. rewrite (dict_get_methods _ _ Hin). reflexivity.
  - intros ->. split.
    + intros flag Hin. rewrite (dict_get_methods _ _ Hin). reflexivity.
    + intros ->. reflexivity.
Qed.

Lemma interpolation_method_lookup_witness :
  _get_interpolation_method "linear"%string (Some "LaNcZoS"%string)
  = Return INTER_LANCZOS4
  /\ _get_interpolation_method "LINEAR"%string (Some "bilinear"%string)
     = Throw KeyError.
Proof.
  split.
  - apply (proj1 (interpolation_method_lookup "linear"%string "LaNcZoS"%string)
             "lanczos"%string INTER_LANCZOS4); [|reflexivity].
    simpl. tauto.
  - apply (proj2 (interpolation_method_lookup "LINEAR"%string
                    "bilinear"%string)); reflexivity.
Defined.

(** ** Batches of processors *)

Lemma run_processors_app ps qs a :
  run_processors (ps ++ qs) a = (r <~ run_processors ps a ;; run_processors qs r).
Proof.
  revert a. induction ps as [|p ps IH]; intros a; simpl; [reflexivity|].
  destruct (p a) as [r|e]; simpl; [apply IH|reflexivity].
Qed.

(** X8.  BatchProcessor.process applies the processors in the order in
    which add_processor received them, each to the result of the one
    before: adding a processor to a batch runs the batch and then the new
    processor, and an exception of the batch is the exception of the
    longer batch, whose new processor is then not run.  A new or cleared
    batch returns a copy of the image. *)
Theorem batch_process_add_processor
    (self : BatchProcessor) (p : processor) (image : ndarray) :
  batch_process (add_processor self p) image
  = (r <~ batch_process self image ;; p r)
  /\ (forall e, batch_process self image = Throw e ->
                batch_process (add_processor self p) image = Throw e)
  /\ batch_process new_batch image = Return image
  /\ batch_process (batch_clear (add_processor self p)) image = Return image
  /\ batch_len (add_processor self p) = batch_len self + 1.
Proof.
  assert (Hadd : batch_process (add_processor self p) image
                 = (r <~ batch_process self image ;; p r)).
  { unfold batch_process, add_processor. cbn [processors].
    rewrite run_processors_app.
    destruct (run_processors (processors self) (copy image)) as [r|e];
      cbn [outcome_bind run_processors]; [|reflexivity].
    destruct (p r); reflexivity. }
  repeat apply conj.
  - exact Hadd.
  - intros e He. rewrite Hadd, He. reflexivity.
  - unfold batch_process. cbn. rewrite copy_eq. reflexivity.
  - unfold batch_process. cbn. rewrite copy_eq. reflexivity.
  - unfold batch_len, add_processor. cbn [processors].
    rewrite length_app. cbn [length]. lia.
Qed.

Lemma batch_process_add_processor_witness :
  batch_process
    (add_processor (add_processor new_batch (fun _ => Throw KeyError))
       (fun a => Return a))
    sample_image
  = Throw KeyError.
Proof.
  apply (batch_process_add_processor
           (add_processor new_batch (fun _ => Throw KeyError))
           (fun a => Return a) sample_image).
  reflexivity.
Defined.

(** ** Quarter turns *)

(** X9.  rotate_90 depends on the number of quarter turns modulo 4 only:
    adding a multiple of 4 changes nothing, a multiple of 4 returns a copy
    of a valid image without calling cv2.rotate, and a negative count
    turns the other way, -1 being one clockwise turn.  rotate_180 is two
    quarter turns. *)
Theorem rotate_90_modulo_4
    (cv2_rotate : ndarray -> rotate_code -> result ndarray)
    (image : pyobj) (times k : Z) :
  rotate_90 cv2_rotate image (times + 4 * k) = rotate_90 cv2_rotate image times
  /\ (forall a, validate_image (PyArray a) = true ->
                rotate_90 cv2_rotate (PyArray a) (4 * k) = Ok a
                /\ rotate_90 cv2_rotate (PyArray a) (-1)
                   = cv2_rotate a ROTATE_90_CLOCKWISE
                /\ rotate_180 cv2_rotate (PyArray a)
                   = cv2_rotate a ROTATE_180).
Proof.
  split.
  - unfold rotate_90.
    replace ((times + 4 * k) mod 4) with (times mod 4)
      by (rewrite Z.mul_comm, Z.mod_add; lia).
    reflexivity.
  - intros a Hv. unfold rotate_180, rotate_90.
    rewrite (validate_input_valid _ Hv). cbn [Py.bind].
    replace ((4 * k) mod 4) with 0
      by (rewrite Z.mul_comm, Z.mod_mul; lia).
    rewrite copy_eq. repeat split.
Qed.

Lemma rotate_90_modulo_4_witness :
  rotate_90 (fun a _ => Ok a) (PyArray sample_image) (4 * 5) = Ok sample_image.
Proof.
  apply (proj2 (rotate_90_modulo_4 (fun a _ => Ok a) PyNone 0 5) sample_image).
  reflexivity.
Defined.

(** ** The expanded canvas is never negative *)

Lemma abs_sign (x : float) :
  Prim2SF (abs x) = S754_nan \/ sf_sign (Prim2SF (abs x)) = Some false.
Proof.
  rewrite abs_spec. destruct (Prim2SF x); simpl; auto.
Qed.

Lemma SF64mul_nonneg x y :
  sf_sign x = Some false ->
  y = S754_nan \/ sf_sign y = Some false ->
  SF64mul x y = S754_nan \/ sf_sign (SF64mul x y) = Some false.
Proof.
  intros Hx [->|Hy].
  - left. destruct x; reflexivity.
  - apply (SF64mul_sign x y false false); assumption.
Qed.

Lemma SF64add_nonneg x y :
  x = S754_nan \/ sf_sign x = Some false ->
  y = S754_nan \/ sf_sign y = Some false ->
  SF64add x y = S754_nan \/ sf_sign (SF64add x y) = Some false.
Proof.
  intros [->|Hx] [->|Hy]; try (left; destruct x; reflexivity);
    try (left; reflexivity).
  destruct x as [s1|s1| |s1 m1 e1], y as [s2|s2| |s2 m2 e2];
    try discriminate; injection Hx as ->; injection Hy as ->;
    try (right; reflexivity).
  right. unfold SF64add, SFadd. cbn [cond_Zopp].
  destruct (shl_align m1 e1 (Z.min e1 e2)) as [a ea].
  destruct (shl_align m2 e2 (Z.min e1 e2)) as [b eb].
  cbn [fst Z.add binary_normalize]. apply binary_round_sign.
Qed.

Lemma canvas_side_nonneg a s b c z :
  0 <= a -> 0 <= b ->
  canvas_side a (abs s) b (abs c) = Ok z -> 0 <= z.
Proof.
  intros Ha Hb. unfold canvas_side.
  destruct (Py.float_of_int a) as [fa|] eqn:Efa; [|discriminate].
  destruct (Py.float_of_int b) as [fb|] eqn:Efb; [|discriminate].
  cbn [Py.bind]. intros Hz. apply int_of_float_trunc in Hz.
  destruct (float_of_int_shape _ _ Efa) as [_ Sa].
  destruct (float_of_int_shape _ _ Efb) as [_ Sb].
  replace (a <? 0) with false in Sa by (symmetry; apply Z.ltb_ge; lia).
  replace (b <? 0) with false in Sb by (symmetry; apply Z.ltb_ge; lia).
  rewrite add_spec, !mul_spec in Hz.
  pose proof (SF64add_nonneg _ _
                (SF64mul_nonneg _ _ Sa (abs_sign s))
                (SF64mul_nonneg _ _ Sb (abs_sign c))) as [Hn|Hs].
  - rewrite Hn in Hz. discriminate.
  - apply SF_trunc_sign in Hz. rewrite Hs in Hz. exact Hz.
Qed.

(** X10.  Whenever the geometry of an expanded rotation is computed for a
    buffer whose sides are not negative, neither side of the new canvas is
    negative, whatever the angle, the centre, the scale and the values of
    cos and sin. *)
Theorem rotation_canvas_nonnegative
    (libm_cos libm_sin : float -> float)
    (W H : Z) (degrees : float) (center : option (Z * Z)) (scale : float)
    (M : matrix23) (w h : Z) :
  0 <= W -> 0 <= H ->
  rotation_geometry libm_cos libm_sin W H degrees true center scale
  = Ok (M, (w, h)) ->
  0 <= w /\ 0 <= h.
Proof.
  intros HW HH. unfold rotation_geometry.
  destruct (Point2f_coord _) as [cx|]; [|discriminate].
  destruct (Point2f_coord _) as [cy|]; [|discriminate].
  cbn [Py.bind].
  set (alpha := abs (m00 _)). set (beta := abs (m01 _)).
  destruct (canvas_side H beta W alpha) as [w'|] eqn:Ew; [|discriminate].
  destruct (canvas_side H alpha W beta) as [h'|] eqn:Eh; [|discriminate].
  cbn [Py.bind].
  destruct (recentre w' _) as [dx|]; [|discriminate].
  destruct (recentre h' _) as [dy|]; [|discriminate].
  cbn [Py.bind]. intros [= _ <- <-].
  split.
  - apply (canvas_side_nonneg H _ W _ w' HH HW Ew).
  - apply (canvas_side_nonneg H _ W _ h' HH HW Eh).
Qed.

Lemma rotation_canvas_nonnegative_witness :
  (exists M, rotation_geometry quarter_cos quarter_sin 100 100 90 true None 2
             = Ok (M, (200, 200)))
  /\ 0 <= 200 /\ 0 <= 200.
Proof.
  assert (E : exists M,
             rotation_geometry quarter_cos quarter_sin 100 100 90 true None 2
             = Ok (M, (200, 200))) by (eexists; vm_compute; reflexivity).
  split; [exact E|]. destruct E as [M HM].
  apply (rotation_canvas_nonnegative quarter_cos quarter_sin 100 100 90 None 2
           M 200 200); [lia|lia|exact HM].
Defined.

(** ** Gamma correction of an image *)





Lemma LUT_shape a t :
  shape (LUT a t) = shape a /\ length (data (LUT a t)) = length (data a).
Proof. unfold LUT. cbn [shape data]. rewrite length_map. split; reflexivity. Qed.

(** X12.  auto_gamma on a valid buffer whose grayscale reduction the image
    library accepts returns the gamma of the mean brightness together with
    a buffer of the same shape and as many samples.  When the mean is
    neither below 85 nor above 170, and so also when it is NaN, the gamma
    is 1.0 and the buffer is a copy of the input. *)
Theorem auto_gamma_result
    (libm_pow : float -> float -> float)
    (cvtColor_BGR2GRAY : ndarray -> result ndarray)
    (np_mean : ndarray -> float)
    (default_gamma : scalar) (a gray : ndarray) :
  (length (shape a) = 2%nat /\ gray = a)
  \/ (length (shape a) = 3%nat /\ cvtColor_BGR2GRAY a = Ok gray) ->
  (exists corrected,
      auto_gamma libm_pow cvtColor_BGR2GRAY np_mean default_gamma (PyArray a)
      = Ok (gamma_of_mean (np_mean gray), corrected)
      /\ shape corrected = shape a
      /\ length (data corrected) = length (data a))
  /\ ((np_mean gray <? 85)%float = false ->
      (170 <? np_mean gray)%float = false ->
      auto_gamma libm_pow cvtColor_BGR2GRAY np_mean default_gamma (PyArray a)
      = Ok (PyF 1, a)).
Proof.
  intros Hgray.
  assert (E : validate_input (PyArray a) = Ok a).
  { apply validate_input_ok. split; [reflexivity|].
    destruct Hgray as [[H _]|[H _]]; auto. }
  assert (G : (if Z.of_nat (length (shape a)) =? 3 then cvtColor_BGR2GRAY a
               else Ok a) = Ok gray).
  { destruct Hgray as [[-> ->]|[-> Hc]]; [reflexivity|exact Hc]. }
  assert (Hrun : auto_gamma libm_pow cvtColor_BGR2GRAY np_mean default_gamma
                   (PyArray a)
                 = (corrected <- gamma_process libm_pow default_gamma (PyArray a)
                                   (Some (gamma_of_mean (np_mean gray))) ;;
                    Ok (gamma_of_mean (np_mean gray), corrected))).
  { unfold auto_gamma. rewrite E. cbn [Py.bind]. rewrite G. reflexivity. }
  split.
  - rewrite Hrun. unfold gamma_process. rewrite E. cbn [Py.bind].
    unfold gamma_of_mean.
    destruct (np_mean gray <? 85)%float; [|destruct (170 <? np_mean gray)%float];
      cbn [scalar_value].
    + rewrite gamma_table_numpy.
      destruct (_ =? 1)%float; cbn [Py.bind]; eexists; (split; [reflexivity|]);
        rewrite ?copy_eq; try apply LUT_shape; split; reflexivity.
    + rewrite gamma_table_numpy.
      destruct (_ =? 1)%float; cbn [Py.bind]; eexists; (split; [reflexivity|]);
        rewrite ?copy_eq; try apply LUT_shape; split; reflexivity.
    + change (1 =? 1)%float with true. cbv iota. cbn [Py.bind].
      exists a. rewrite copy_eq. repeat split.
  - intros H85 H170. rewrite Hrun. unfold gamma_of_mean. rewrite H85, H170.
    unfold gamma_process. rewrite E. cbn [Py.bind scalar_value].
    change (1 =? 1)%float with true. cbv iota. cbn [Py.bind].
    rewrite copy_eq. reflexivity.
Qed.

Lemma auto_gamma_result_witness :
  auto_gamma (fun x _ => x) (fun _ => Raise Cv2Error) (fun _ => nan) (PyF 1)
    (PyArray sample_image)
  = Ok (PyF 1, sample_image).
Proof.
  apply (auto_gamma_result (fun x _ => x) (fun _ => Raise Cv2Error)
           (fun _ => nan) (PyF 1) sample_image sample_image).
  - left. split; reflexivity.
  - reflexivity.
  - reflexivity.
Defined.

(** ** Lookup tables of any function *)






(** ** Image information *)

Lemma valid_shape a :
  validate_image (PyArray a) = true ->
  (exists h w, shape a = [h; w]) \/ (exists h w c, shape a = [h; w; c]).
Proof.
  intros Hv. apply validate_input_valid in Hv. apply validate_input_ok in Hv.
  destruct Hv as [_ Hr].
  destruct (shape a) as [|h [|w [|c [|x l]]]]; simpl in Hr;
    try (destruct Hr; discriminate); eauto.
Qed.

(** X14.  get_image_info raises ValueError on whatever validate_image
    refuses.  On a valid image the reported height, width and channels
    multiply to the reported size, which is also the number of bytes; the
    mode is Grayscale exactly for rank 2 and Color exactly for rank 3 with
    three channels, and every other channel count, 1 and 2 included, is
    reported as RGBA. *)
Theorem get_image_info_fields (image : pyobj) :
  (validate_image image = false -> get_image_info image = Raise ValueError)
  /\ (forall a,
         image = PyArray a -> validate_image image = true ->
         exists info,
           get_image_info image = Ok info
           /\ info_height info * info_width info * info_channels info
              = info_size info
           /\ info_nbytes info = info_size info
           /\ (info_color_mode info = "Grayscale"%string
               <-> length (shape a) = 2%nat)
           /\ (info_color_mode info = "Color"%string
               <-> length (shape a) = 3%nat /\ nth 2 (shape a) 0 = 3)
           /\ (length (shape a) = 3%nat -> nth 2 (shape a) 0 <> 3 ->
               info_color_mode info = "RGBA"%string)).
Proof.
  split.
  - intros Hbad. unfold get_image_info.
    destruct image as [| |a]; try reflexivity. rewrite Hbad. reflexivity.
  - intros a -> Hv. unfold get_image_info. rewrite Hv. cbn [negb].
    eexists. split; [reflexivity|]. cbn [info_height info_width info_channels
      info_size info_nbytes info_color_mode]. unfold num_elements.
    destruct (valid_shape a Hv) as [(h & w & ->)|(h & w & c & ->)].
    + cbn. repeat split; try lia; try discriminate; try reflexivity;
        try (intros [H _]; discriminate).
    + cbn. destruct (c =? 3) eqn:Ec.
      * apply Z.eqb_eq in Ec. repeat split; try lia; try discriminate;
          try reflexivity; try (intros _ Hc; contradiction).
      * apply Z.eqb_neq in Ec. repeat split; try lia; try discriminate;
          try reflexivity; try (intros [_ Hc]; contradiction).
Qed.

Lemma get_image_info_fields_witness :
  exists info,
    get_image_info (PyArray {| shape := [4; 5; 1]; data := [] |}) = Ok info
    /\ info_height info * info_width info * info_channels info = info_size info
    /\ info_color_mode info = "RGBA"%string.
Proof.
  destruct (proj2 (get_image_info_fields
                     (PyArray {| shape := [4; 5; 1]; data := [] |}))
              {| shape := [4; 5; 1]; data := [] |} eq_refl eq_refl)
    as (info & Hi & Hs & _ & _ & _ & Hm).
  exists info. repeat split; trivial. apply Hm; [reflexivity|].
  cbn. discriminate.
Defined.

(** ** Colour order and colour buffers *)

Lemma swap_channels_involutive_upto (n : nat) :
  forall d, (length d <= n)%nat -> swap_channels (swap_channels d) = d.
Proof.
  induction n as [|n IH]; intros d Hd.
  - destruct d; [reflexivity|simpl in Hd; lia].
  - destruct d as [|c0 [|c1 [|c2 d']]]; try reflexivity.
    cbn [swap_channels]. rewrite IH; [reflexivity|]. simpl in Hd. lia.
Qed.

Lemma swap_channels_involutive d : swap_channels (swap_channels d) = d.
Proof. apply (swap_channels_involutive_upto (length d)). lia. Qed.

Lemma swap_channels_length d : length (swap_channels d) = length d.
Proof.
  assert (H : forall n d, (length d <= n)%nat ->
                          length (swap_channels d) = length d).
  { induction n as [|n IH]; intros l Hl.
    - destruct l; [reflexivity|simpl in Hl; lia].
    - destruct l as [|c0 [|c1 [|c2 l']]]; try reflexivity.
      cbn [swap_channels length]. rewrite IH; [reflexivity|]. simpl in Hl. lia. }
  apply (H (length d)). lia.
Qed.

(** X15.  bgr_to_rgb and rgb_to_bgr undo each other: whatever one of them
    returns, the other turns back into the input.  Both keep the shape and
    the number of samples, return a buffer that does not have rank 3 with
    three channels as it is, and swap the first and third channel of every
    pixel of one that has; on such a buffer without elements cv2.cvtColor
    raises. *)
Theorem bgr_rgb_round_trip (a b : ndarray) :
  (bgr_to_rgb a = Ok b -> rgb_to_bgr b = Ok a)
  /\ (rgb_to_bgr a = Ok b -> bgr_to_rgb b = Ok a)
  /\ (bgr_to_rgb a = Ok b ->
      shape b = shape a /\ length (data b) = length (data a))
  /\ bgr_to_rgb a = rgb_to_bgr a
  /\ (length (shape a) <> 3%nat \/ nth 2 (shape a) 0 <> 3 ->
      bgr_to_rgb a = Ok a).
Proof.
  assert (Hback : forall x y, bgr_to_rgb x = Ok y -> bgr_to_rgb y = Ok x).
  { intros x y. unfold bgr_to_rgb, cvtColor.
    destruct ((Z.of_nat (length (shape x)) =? 3) && (nth 2 (shape x) 0 =? 3))
      eqn:E3.
    - destruct (num_elements x =? 0) eqn:E0; [discriminate|].
      intros [= <-]. cbn [shape data]. rewrite E3.
      unfold num_elements in *. cbn [shape]. rewrite E0.
      rewrite swap_channels_involutive. destruct x; reflexivity.
    - intros [= <-]. rewrite E3. reflexivity. }
  assert (Hsame : forall x, bgr_to_rgb x = rgb_to_bgr x) by reflexivity.
  repeat apply conj.
  - intros H. rewrite <- Hsame. apply Hback. exact H.
  - intros H. rewrite <- Hsame in H. apply Hback. exact H.
  - unfold bgr_to_rgb, cvtColor.
    destruct ((Z.of_nat (length (shape a)) =? 3) && (nth 2 (shape a) 0 =? 3)).
    + destruct (num_elements a =? 0); [discriminate|].
      intros [= <-]. cbn [shape data]. rewrite swap_channels_length.
      split; reflexivity.
    + intros [= <-]. split; reflexivity.
  - reflexivity.
  - intros Hn. unfold bgr_to_rgb.
    destruct (Z.of_nat (length (shape a)) =? 3) eqn:Er; [|reflexivity].
    destruct (nth 2 (shape a) 0 =? 3) eqn:Ec; [|reflexivity].
    apply Z.eqb_eq in Er, Ec. destruct Hn; [lia|contradiction].
Qed.

Lemma bgr_rgb_round_trip_witness :
  bgr_to_rgb {| shape := [1; 2; 3]; data := [1; 2; 3; 4; 5; 6] |}
  = Ok {| shape := [1; 2; 3]; data := [3; 2; 1; 6; 5; 4] |}
  /\ rgb_to_bgr {| shape := [1; 2; 3]; data := [3; 2; 1; 6; 5; 4] |}
     = Ok {| shape := [1; 2; 3]; data := [1; 2; 3; 4; 5; 6] |}.
Proof.
  split; [reflexivity|].
  apply (proj1 (bgr_rgb_round_trip
                  {| shape := [1; 2; 3]; data := [1; 2; 3; 4; 5; 6] |}
                  {| shape := [1; 2; 3]; data := [3; 2; 1; 6; 5; 4] |})).
  reflexivity.
Defined.

(** X16.  ensure_color turns a valid buffer with elements that is a plane
    or has four channels into a buffer of rank 3 with three channels and
    the same height and width, and applying it again changes nothing.  A
    buffer of rank 3 with any other channel count comes back as it is, so
    that one or two channels stay one or two; a shape with fewer than two
    entries raises IndexError. *)
Theorem ensure_color_channels (a : ndarray) :
  (num_elements a <> 0 ->
   length (shape a) = 2%nat
   \/ (length (shape a) = 3%nat /\ nth 2 (shape a) 0 = 4) ->
   exists b,
     ensure_color a = Return b
     /\ shape b = [nth 0 (shape a) 0; nth 1 (shape a) 0; 3]
     /\ ensure_color b = Return b)
  /\ (length (shape a) = 3%nat -> nth 2 (shape a) 0 <> 4 ->
      ensure_color a = Return a)
  /\ ((length (shape a) < 2)%nat -> ensure_color a = Throw IndexError).
Proof.
  repeat apply conj.
  - intros Hne Hshape. unfold ensure_color, cvtColor.
    replace (num_elements a =? 0) with false
      by (symmetry; apply Z.eqb_neq; exact Hne).
    destruct Hshape as [H2|[H3 H4]].
    + rewrite H2. cbn [Z.of_nat Pos.of_succ_nat Pos.succ Z.eqb Pos.eqb lift].
      eexists. split; [reflexivity|]. split; reflexivity.
    + rewrite H3. change (Z.of_nat 3 =? 2) with false. cbv iota.
      unfold shape_2.
      destruct (shape a) as [|h [|w [|c [|x l]]]] eqn:Es; try discriminate.
      cbn [nth_error outcome_bind]. cbn [nth] in H4. subst c.
      cbn [Z.eqb Pos.eqb length Z.of_nat Pos.of_succ_nat Pos.succ nth andb lift].
      eexists. split; [reflexivity|]. split; reflexivity.
  - intros H3 H4. unfold ensure_color. rewrite H3.
    change (Z.of_nat 3 =? 2) with false. cbv iota. unfold shape_2.
    destruct (shape a) as [|h [|w [|c [|x l]]]] eqn:Es; try discriminate.
    cbn [nth_error outcome_bind]. cbn [nth] in H4.
    replace (c =? 4) with false by (symmetry; apply Z.eqb_neq; exact H4).
    reflexivity.
  - intros Hr. unfold ensure_color, shape_2.
    destruct (shape a) as [|h [|w l]]; try reflexivity. simpl in Hr. lia.
Qed.

Lemma ensure_color_channels_witness :
  exists b,
    ensure_color sample_image = Return b
    /\ shape b = [2; 2; 3]
    /\ ensure_color b = Return b.
Proof.
  apply (proj1 (ensure_color_channels sample_image)).
  - cbn. discriminate.
  - left. reflexivity.
Defined.

(** ** Binary64: rounding of quotients *)

Lemma shr_1_quotient n d mrs :
  0 <= n -> 0 < d -> shr_quotient n d mrs -> shr_quotient n (d * 2) (shr_1 mrs).
Proof.
  intros Hn Hd [Hm Hloc]. destruct mrs as [m r s].
  cbn [shr_m shr_r shr_s] in Hm, Hloc.
  assert (Hm0 : 0 <= m) by (subst m; apply Z.div_pos; lia).
  rewrite shr_1_spec by exact Hm0.
  assert (Ediv : n / (d * 2) = m / 2).
  { rewrite <- Z.div_div by lia. subst m. reflexivity. }
  assert (Emod : n mod (d * 2) = n mod d + d * (m mod 2)).
  { rewrite Z.rem_mul_r by lia. subst m. reflexivity. }
  pose proof (Z.mod_pos_bound n d Hd) as Hrem.
  unfold shr_quotient. cbn [shr_m shr_r shr_s]. split; [symmetry; exact Ediv|].
  rewrite Emod.
  pose proof (Z.mod_pos_bound m 2 ltac:(lia)) as Hb.
  pose proof (Z.div_mod m 2 ltac:(lia)) as Hdm.
  destruct (Z.odd m) eqn:Eo.
  - apply Z.odd_spec in Eo. destruct Eo as [c Hc].
    assert (m mod 2 = 1) as -> by lia.
    destruct r, s; cbn [orb]; lia.
  - assert (Z.even m = true) as Ee by (rewrite <- Z.negb_odd, Eo; reflexivity).
    apply Z.even_spec in Ee. destruct Ee as [c Hc].
    assert (m mod 2 = 0) as -> by lia.
    destruct r, s; cbn [orb]; lia.
Qed.

Lemma iter_pos_shr_quotient n :
  0 <= n ->
  forall p d mrs, 0 < d -> shr_quotient n d mrs ->
                  shr_quotient n (d * 2 ^ Z.pos p) (iter_pos shr_1 p mrs).
Proof.
  intros Hn. induction p as [p IH|p IH|]; intros d mrs Hd H; simpl iter_pos.
  - assert (H2p : 0 < 2 ^ Z.pos p) by (apply Z.pow_pos_nonneg; lia).
    replace (d * 2 ^ Z.pos p~1) with (d * 2 * 2 ^ Z.pos p * 2 ^ Z.pos p).
    + apply IH; [lia|]. apply IH; [lia|]. apply shr_1_quotient; trivial.
    + replace (Z.pos p~1) with (Z.pos p + Z.pos p + 1) by lia.
      rewrite !Z.pow_add_r, Z.pow_1_r by lia. ring.
  - assert (H2p : 0 < 2 ^ Z.pos p) by (apply Z.pow_pos_nonneg; lia).
    replace (d * 2 ^ Z.pos p~0) with (d * 2 ^ Z.pos p * 2 ^ Z.pos p).
    + apply IH; [lia|]. apply IH; trivial.
    + replace (Z.pos p~0) with (Z.pos p + Z.pos p) by lia.
      rewrite Z.pow_add_r by lia. ring.
  - rewrite Z.pow_1_r. apply shr_1_quotient; trivial.
Qed.

Lemma round_nearest_even_quotient n d mrs :
  0 < d -> shr_quotient n d mrs ->
  round_nearest_even (shr_m mrs) (loc_of_shr_record mrs) = RNQ n d.
Proof.
  intros Hd [Hm Hloc]. destruct mrs as [m r s].
  cbn [shr_m shr_r shr_s] in *. unfold RNQ. rewrite <- Hm.
  destruct r, s; cbn [loc_of_shr_record round_nearest_even].
  - replace (2 * (n mod d) ?= d) with Gt by (symmetry; apply Z.compare_gt_iff; lia).
    reflexivity.
  - replace (2 * (n mod d) ?= d) with Eq by (symmetry; apply Z.compare_eq_iff; lia).
    reflexivity.
  - replace (2 * (n mod d) ?= d) with Lt by (symmetry; apply Z.compare_lt_iff; lia).
    reflexivity.
  - rewrite Hloc.
    replace (2 * 0 ?= d) with Lt by (symmetry; apply Z.compare_lt_iff; lia).
    reflexivity.
Qed.

Lemma RNQ_bounds n d : n / d <= RNQ n d <= n / d + 1.
Proof.
  unfold RNQ. destruct (2 * (n mod d) ?= d); [destruct (Z.even _)| |]; lia.
Qed.

(** Rounding to nearest never crosses an integer. *)
Lemma RNQ_upper n d c : 0 < d -> n <= c * d -> RNQ n d <= c.
Proof.
  intros Hd Hn. pose proof (RNQ_bounds n d) as Hb.
  pose proof (Z.div_mod n d ltac:(lia)) as Hdm.
  pose proof (Z.mod_pos_bound n d Hd) as Hr.
  assert (Hq : n / d <= c) by (apply (Z.div_le_upper_bound n d c); lia).
  destruct (Z.eq_dec (n / d) c) as [E|E]; [|lia].
  assert (Hr0 : n mod d = 0) by nia.
  unfold RNQ. rewrite Hr0.
  replace (2 * 0 ?= d) with Lt by (symmetry; apply Z.compare_lt_iff; lia).
  lia.
Qed.

Lemma RNQ_lower n d c : 0 < d -> c * d <= n -> c <= RNQ n d.
Proof.
  intros Hd Hn. pose proof (RNQ_bounds n d) as Hb.
  assert (c <= n / d) by (apply Z.div_le_lower_bound; lia).
  lia.
Qed.

(** The quotient and the location [SFdiv_core_binary] starts from. *)
Lemma new_location_quotient n d :
  0 <= n -> 0 < d ->
  shr_quotient n d (shr_record_of_loc (n / d) (new_location d (n mod d))).
Proof.
  intros Hn Hd. pose proof (Z.mod_pos_bound n d Hd) as Hr.
  unfold shr_quotient, new_location, new_location_even, new_location_odd.
  destruct (Z.even d) eqn:Ee.
  - destruct (n mod d =? 0) eqn:E0.
    + apply Z.eqb_eq in E0. cbn. auto.
    + apply Z.eqb_neq in E0.
      destruct (Z.compare_spec (2 * (n mod d)) d) as [C|C|C];
        cbn [shr_record_of_loc shr_m shr_r shr_s]; split; try reflexivity; lia.
  - assert (Ho : Z.odd d = true) by (rewrite <- Z.negb_even, Ee; reflexivity).
    apply Z.odd_spec in Ho. destruct Ho as [c Hc].
    destruct (n mod d =? 0) eqn:E0.
    + apply Z.eqb_eq in E0. cbn. auto.
    + apply Z.eqb_neq in E0.
      destruct (Z.compare_spec (2 * (n mod d) + 1) d) as [C|C|C];
        cbn [shr_record_of_loc shr_m shr_r shr_s]; split; try reflexivity; lia.
Qed.

Lemma Zdigits2_53_54 q :
  2 ^ 52 <= q ->
  2 ^ (Zdigits2 q - 1) <= q < 2 ^ Zdigits2 q /\ 53 <= Zdigits2 q.
Proof.
  intros Hq. pose proof (Zdigits2_bounds q ltac:(lia)) as Hb.
  split; [exact Hb|].
  assert (52 < Zdigits2 q) by (apply Zdigits2_gt; lia). lia.
Qed.

(** A quotient of at least 53 bits rounds to a normal binary64: the
    mantissa is the nearest integer to the quotient at the exponent of its
    53 leading bits, one exponent up when the rounding carries. *)
Lemma binary_round_aux_normal sx n d ex l :
  0 <= n -> 0 < d -> 2 ^ 52 <= n / d ->
  shr_quotient n d (shr_record_of_loc (n / d) l) ->
  let k := Zdigits2 (n / d) - 53 in
  let E := ex + k in
  -1074 <= E -> E + 1 <= 971 ->
  exists m E',
    binary_round_aux prec emax sx (n / d) ex l = S754_finite sx m E'
    /\ bounded prec emax m E' = true
    /\ 2 ^ 52 <= Z.pos m < 2 ^ 53
    /\ E <= E' <= E + 1
    /\ Z.pos m * 2 ^ (E' - E) = RNQ n (d * 2 ^ k)
    /\ 2 ^ 52 * (d * 2 ^ k) <= n.
Proof.
  intros Hn Hd Hq Hinv k E HElo HEhi.
  destruct (Zdigits2_53_54 _ Hq) as [[Hqlo Hqhi] Hdig].
  assert (Hk : 0 <= k) by (unfold k; lia).
  assert (H2k : 0 < 2 ^ k) by (apply Z.pow_pos_nonneg; lia).
  assert (HfE : fexp prec emax (Zdigits2 (n / d) + ex) = E)
    by (unfold fexp, SpecFloat.emin, prec, emax, E, k in *; lia).
  (* the first shift *)
  assert (Hshr : exists mrs,
             shr_fexp prec emax (n / d) ex l = (mrs, E)
             /\ shr_quotient n (d * 2 ^ k) mrs).
  { unfold shr_fexp. rewrite HfE. replace (E - ex) with k by (unfold E; lia).
    destruct k as [|p|p] eqn:Ek; try lia.
    - eexists. split.
      + cbn [shr]. f_equal. unfold E. lia.
      + rewrite Z.pow_0_r, Z.mul_1_r. exact Hinv.
    - eexists. split.
      + cbn [shr]. reflexivity.
      + apply iter_pos_shr_quotient; trivial. }
  destruct Hshr as (mrs & Hshr & Hinv').
  assert (HD : 0 < d * 2 ^ k) by (apply Z.mul_pos_pos; assumption).
  pose proof (round_nearest_even_quotient _ _ _ HD Hinv') as Hround.
  set (M := RNQ n (d * 2 ^ k)) in *.
  assert (HqD : n / (d * 2 ^ k) = n / d / 2 ^ k)
    by (symmetry; apply Z.div_div; lia).
  assert (Hfloor : 2 ^ 52 <= n / (d * 2 ^ k) < 2 ^ 53).
  { rewrite HqD. split.
    - apply Z.div_le_lower_bound; [lia|].
      rewrite <- Z.pow_add_r by lia.
      replace (k + 52) with (Zdigits2 (n / d) - 1) by (unfold k; lia). lia.
    - apply Z.div_lt_upper_bound; [lia|].
      rewrite <- Z.pow_add_r by lia.
      replace (k + 53) with (Zdigits2 (n / d)) by (unfold k; lia). lia. }
  assert (HM : 2 ^ 52 <= M <= 2 ^ 53).
  { pose proof (RNQ_bounds n (d * 2 ^ k)). fold M in H. lia. }
  assert (Hnlo : 2 ^ 52 * (d * 2 ^ k) <= n).
  { pose proof (Z.mul_div_le n (d * 2 ^ k) HD).
    assert (d * 2 ^ k * 2 ^ 52 <= d * 2 ^ k * (n / (d * 2 ^ k)))
      by (apply Z.mul_le_mono_nonneg_l; lia).
    lia. }
  unfold binary_round_aux. rewrite Hshr, Hround.
  destruct (M <? 2 ^ 53) eqn:E53.
  - apply Z.ltb_lt in E53.
    assert (HdM : Zdigits2 M = 53).
    { apply Z.le_antisymm.
      - apply Zdigits2_le; lia.
      - assert (52 < Zdigits2 M) by (apply Zdigits2_gt; lia). lia. }
    unfold shr_fexp. rewrite shr_nonpos
      by (rewrite HdM; unfold fexp, SpecFloat.emin, prec, emax; lia).
    cbn [shr_record_of_loc shr_m fst].
    destruct M as [|p|p] eqn:EM; try lia.
    replace (E <=? emax - prec) with true
      by (symmetry; apply Z.leb_le; unfold prec, emax; lia).
    exists p, E. split; [reflexivity|]. split.
    + unfold bounded, canonical_mantissa. apply andb_true_iff. split.
      * apply Z.eqb_eq. change (Z.pos (digits2_pos p)) with (Zdigits2 (Z.pos p)).
        rewrite HdM. unfold fexp, SpecFloat.emin, prec, emax. lia.
      * apply Z.leb_le. unfold prec, emax. lia.
    + repeat split; try lia. rewrite Z.sub_diag, Z.pow_0_r. lia.
  - apply Z.ltb_ge in E53. assert (EM : M = 2 ^ 53) by lia. rewrite EM.
    unfold shr_fexp.
    replace (fexp prec emax (Zdigits2 (2 ^ 53) + E) - E) with 1
      by (change (Zdigits2 (2 ^ 53)) with 54;
          unfold fexp, SpecFloat.emin, prec, emax; lia).
    cbn [shr shr_record_of_loc iter_pos].
    change (shr_1 {| shr_m := 2 ^ 53; shr_r := false; shr_s := false |})
      with {| shr_m := 2 ^ 52; shr_r := false; shr_s := false |}.
    cbn [shr_m]. change (2 ^ 52) with (Z.pos 4503599627370496) at 1.
    cbv iota.
    replace (E + 1 <=? emax - prec) with true
      by (symmetry; apply Z.leb_le; unfold prec, emax; lia).
    exists 4503599627370496%positive, (E + 1). split; [reflexivity|]. split.
    + unfold bounded, canonical_mantissa. apply andb_true_iff. split.
      * apply Z.eqb_eq. change (Z.pos (digits2_pos 4503599627370496)) with 53.
        unfold fexp, SpecFloat.emin, prec, emax. lia.
      * apply Z.leb_le. unfold prec, emax. lia.
    + repeat split; try lia.
      replace (E + 1 - E) with 1 by lia. reflexivity.
Qed.

Lemma div_eucl_div_mod a b : Z.div_eucl a b = (a / b, a mod b).
Proof. unfold Z.div, Z.modulo. destruct (Z.div_eucl a b). reflexivity. Qed.

Lemma pow2_lt_exponent a b : 0 <= b -> 2 ^ a < 2 ^ b -> a < b.
Proof.
  intros Hb H. destruct (Z.lt_ge_cases a b) as [|Hge]; trivial.
  exfalso. assert (2 ^ b <= 2 ^ a) by (apply Z.pow_le_mono_r; lia). lia.
Qed.

(** The quotient of two finite binary64 data whose mantissas are below
    [2 ^ 53], when it lies in the normal range. *)
Lemma SF64div_normal s1 m1 e1 s2 m2 e2 :
  Z.pos m1 < 2 ^ 53 -> Z.pos m2 < 2 ^ 53 ->
  let d1 := Z.pos (digits2_pos m1) in
  let d2 := Z.pos (digits2_pos m2) in
  let t := d1 + e1 - (d2 + e2) in
  -1021 <= t <= 1022 ->
  let s := 53 - d1 + d2 in
  let n := Z.pos m1 * 2 ^ s in
  let k := Zdigits2 (n / Z.pos m2) - 53 in
  let E := t - 53 + k in
  exists m E',
    SF64div (S754_finite s1 m1 e1) (S754_finite s2 m2 e2)
    = S754_finite (xorb s1 s2) m E'
    /\ bounded prec emax m E' = true
    /\ 2 ^ 52 <= Z.pos m < 2 ^ 53
    /\ E <= E' <= E + 1
    /\ 0 <= k <= 1
    /\ Z.pos m * 2 ^ (E' - E) = RNQ n (Z.pos m2 * 2 ^ k)
    /\ 2 ^ 52 * (Z.pos m2 * 2 ^ k) <= n.
Proof.
  intros H1 H2 d1 d2 t Ht s n k E.
  pose proof (digits2_pos_bounds m1) as [L1 U1]. fold d1 in L1, U1.
  pose proof (digits2_pos_bounds m2) as [L2 U2]. fold d2 in L2, U2.
  assert (Hd1 : 1 <= d1 <= 53).
  { split; [unfold d1; lia|]. apply (Zdigits2_le (Z.pos m1) 53); lia. }
  assert (Hd2 : 1 <= d2 <= 53).
  { split; [unfold d2; lia|]. apply (Zdigits2_le (Z.pos m2) 53); lia. }
  assert (Hs : 0 < s) by (unfold s; lia).
  assert (H2s : 0 < 2 ^ s) by (apply Z.pow_pos_nonneg; lia).
  assert (Hn : 0 <= n) by (unfold n; lia).
  assert (Hnlo : 2 ^ (52 + d2) <= n).
  { unfold n. replace (52 + d2) with (d1 - 1 + s) by (unfold s; lia).
    rewrite Z.pow_add_r by lia. apply Z.mul_le_mono_nonneg_r; lia. }
  assert (Hnhi : n < 2 ^ (53 + d2)).
  { unfold n. replace (53 + d2) with (d1 + s) by (unfold s; lia).
    rewrite Z.pow_add_r by lia. apply Z.mul_lt_mono_pos_r; lia. }
  assert (Hq : 2 ^ 52 <= n / Z.pos m2).
  { apply Z.div_le_lower_bound; [lia|].
    rewrite Z.pow_add_r in Hnlo by lia.
    assert (Z.pos m2 * 2 ^ 52 <= 2 ^ 52 * 2 ^ d2) by nia. lia. }
  assert (Hqhi : n / Z.pos m2 < 2 ^ 54).
  { apply Z.div_lt_upper_bound; [lia|].
    replace (53 + d2) with (54 + (d2 - 1)) in Hnhi by lia.
    rewrite Z.pow_add_r in Hnhi by lia.
    assert (2 ^ 54 * 2 ^ (d2 - 1) <= Z.pos m2 * 2 ^ 54) by nia. lia. }
  destruct (Zdigits2_53_54 _ Hq) as [_ Hdig].
  assert (Hk : 0 <= k <= 1).
  { unfold k. split; [lia|].
    assert (Zdigits2 (n / Z.pos m2) <= 54) by (apply Zdigits2_le; lia). lia. }
  unfold SF64div, SFdiv, SFdiv_core_binary. cbn [Zdigits2].
  fold d1 d2.
  replace (Z.min (fexp prec emax (d1 + e1 - (d2 + e2))) (e1 - e2))
    with (t - 53)
    by (unfold fexp, SpecFloat.emin, prec, emax, t; lia).
  replace (e1 - e2 - (t - 53)) with s by (unfold s, t; lia).
  destruct s as [|ps|ps] eqn:Es; try lia.
  rewrite Z.shiftl_mul_pow2 by lia. fold n.
  rewrite div_eucl_div_mod.
  destruct (binary_round_aux_normal (xorb s1 s2) n (Z.pos m2) (t - 53)
              (new_location (Z.pos m2) (n mod Z.pos m2)))
    as (m & E' & Hr & Hb & Hm & HE' & HM & Hlo); trivial.
  - apply new_location_quotient; lia.
  - fold k. lia.
  - fold k. lia.
  - exists m, E'. fold k in HE', HM, Hlo. fold E in HE', HM.
    repeat split; trivial; lia.
Qed.

(** The product of two normal binary64 data, when it lies in the normal
    range. *)
Lemma SF64mul_normal s1 m1 e1 s2 m2 e2 :
  2 ^ 52 <= Z.pos m1 -> 2 ^ 52 <= Z.pos m2 ->
  let n := Z.pos m1 * Z.pos m2 in
  let k := Zdigits2 n - 53 in
  let E := e1 + e2 + k in
  -1074 <= E -> E + 1 <= 971 ->
  exists m E',
    SF64mul (S754_finite s1 m1 e1) (S754_finite s2 m2 e2)
    = S754_finite (xorb s1 s2) m E'
    /\ bounded prec emax m E' = true
    /\ 2 ^ 52 <= Z.pos m < 2 ^ 53
    /\ E <= E' <= E + 1
    /\ 0 <= k
    /\ Z.pos m * 2 ^ (E' - E) = RNQ n (2 ^ k)
    /\ 2 ^ 52 * 2 ^ k <= n.
Proof.
  intros H1 H2 n k E HElo HEhi.
  assert (Hn : 2 ^ 52 <= n) by (unfold n; nia).
  unfold SF64mul, SFmul.
  change (Z.pos (m1 * m2)) with n.
  destruct (binary_round_aux_normal (xorb s1 s2) n 1 (e1 + e2) loc_Exact)
    as (m & E' & Hr & Hb & Hm & HE' & HM & Hlo);
    rewrite ?Z.div_1_r; trivial; try lia.
  - unfold shr_quotient. cbn [shr_record_of_loc shr_m shr_r shr_s].
    rewrite Z.div_1_r, Z.mod_1_r. auto.
  - rewrite Z.div_1_r in *. rewrite Z.mul_1_l in HM, Hlo.
    destruct (Zdigits2_53_54 _ Hn) as [_ Hdig].
    exists m, E'. fold k in HE', HM, Hlo. fold E in HE', HM.
    repeat split; trivial; unfold k; lia.
Qed.

(** ** Binary64: quotients and products against 1.0 *)

Lemma pow2_le_exponent a b : 0 <= b -> 2 ^ a <= 2 ^ b -> a <= b.
Proof.
  intros Hb H. destruct (Z.le_gt_cases a b) as [|Hgt]; trivial.
  exfalso. assert (2 ^ b < 2 ^ a) by (apply Z.pow_lt_mono_r; lia). lia.
Qed.

Lemma pow2_split a b : 0 <= a -> 0 <= b -> 2 ^ (a + b) = 2 ^ a * 2 ^ b.
Proof. intros. apply Z.pow_add_r; assumption. Qed.

Lemma digits2_pos_53 m :
  2 ^ 52 <= Z.pos m < 2 ^ 53 -> Z.pos (digits2_pos m) = 53.
Proof.
  intros [Hlo Hhi]. change (Z.pos (digits2_pos m)) with (Zdigits2 (Z.pos m)).
  apply Z.le_antisymm.
  - apply Zdigits2_le; lia.
  - assert (52 < Zdigits2 (Z.pos m)) by (apply Zdigits2_gt; lia). lia.
Qed.

(** A positive int below [2 ^ 53] as a float. *)
Lemma float_of_int_normal (sx : bool) (p : positive) :
  Z.pos p < 2 ^ 53 ->
  exists f m e,
    Py.float_of_int (cond_Zopp sx (Z.pos p)) = Ok f
    /\ Prim2SF f = S754_finite sx m e
    /\ 2 ^ 52 <= Z.pos m < 2 ^ 53
    /\ -52 <= e <= 0
    /\ Z.pos m = Z.pos p * 2 ^ (- e).
Proof.
  intros Hp.
  destruct (binary_round_small sx p Hp) as (m & e & Hr & Hb & Hm & He & Hv).
  assert (Hsf : Prim2SF (SF2Prim (S754_finite sx m e)) = S754_finite sx m e)
    by (apply Prim2SF_SF2Prim; exact Hb).
  exists (SF2Prim (S754_finite sx m e)), m, e.
  split; [|repeat split; trivial; lia].
  unfold Py.float_of_int.
  replace (binary_normalize prec emax (cond_Zopp sx (Z.pos p)) 0 false)
    with (S754_finite sx m e) by (destruct sx; cbn; rewrite Hr; reflexivity).
  rewrite is_infinity_spec, Hsf. reflexivity.
Qed.

(** The quotient of two positive ints below [2 ^ 53]: a normal float that
    is at least 1.0 when the numerator is not the smaller one, and at most
    1.0 when it is not the larger one. *)
Lemma int_truediv_shape (W H : Z) :
  0 < W < 2 ^ 53 -> 0 < H < 2 ^ 53 ->
  exists a ma ea,
    Py.int_truediv W H = Ok a
    /\ Prim2SF a = S754_finite false ma ea
    /\ 2 ^ 52 <= Z.pos ma < 2 ^ 53
    /\ (H <= W -> -52 <= ea <= 0 /\ 2 ^ (- ea) <= Z.pos ma)
    /\ (W <= H -> -105 <= ea <= -52 /\ Z.pos ma <= 2 ^ (- ea)).
Proof.
  intros HW HH. destruct W as [|pw|pw], H as [|ph|ph]; try lia.
  unfold Py.int_truediv. cbn [Z.eqb].
  pose proof (digits2_pos_bounds pw) as [L1 U1].
  pose proof (digits2_pos_bounds ph) as [L2 U2].
  set (d1 := Z.pos (digits2_pos pw)) in *.
  set (d2 := Z.pos (digits2_pos ph)) in *.
  assert (Hd1 : 1 <= d1 <= 53).
  { split; [unfold d1; lia|]. apply (Zdigits2_le (Z.pos pw) 53); lia. }
  assert (Hd2 : 1 <= d2 <= 53).
  { split; [unfold d2; lia|]. apply (Zdigits2_le (Z.pos ph) 53); lia. }
  destruct (SF64div_normal false pw 0 false ph 0)
    as (m & E' & Hr & Hb & Hm & HE' & Hk & HM & _); try lia.
  fold d1 d2 in HE', Hk, HM.
  set (t := d1 + 0 - (d2 + 0)) in *.
  set (s := 53 - d1 + d2) in *.
  set (n := Z.pos pw * 2 ^ s) in *.
  set (k := Zdigits2 (n / Z.pos ph) - 53) in *.
  set (E := t - 53 + k) in *.
  assert (Hs : 0 < s) by (unfold s; lia).
  assert (H2s : 0 < 2 ^ s) by (apply Z.pow_pos_nonneg; lia).
  assert (H2k : 0 < 2 ^ k) by (apply Z.pow_pos_nonneg; lia).
  assert (HEE : 0 <= E' - E) by lia.
  assert (H2EE : 0 < 2 ^ (E' - E)) by (apply Z.pow_pos_nonneg; lia).
  assert (Hsk : s = - E + k) by (unfold E, t, s; lia).
  assert (HD : 0 < Z.pos ph * 2 ^ k) by lia.
  cbn [xorb] in Hr. rewrite Hr.
  assert (Hsf : Prim2SF (SF2Prim (S754_finite false m E')) = S754_finite false m E')
    by (apply Prim2SF_SF2Prim; exact Hb).
  exists (SF2Prim (S754_finite false m E')), m, E'.
  split; [rewrite is_infinity_spec, Hsf; reflexivity|].
  split; [exact Hsf|]. split; [exact Hm|]. split.
  - intros Hle.
    assert (Ht : 0 <= t).
    { unfold t. assert (d2 <= d1) by (apply (Zdigits2_mono (Z.pos ph) (Z.pos pw)); lia).
      lia. }
    assert (HnE : 0 <= - E) by (unfold E, t in *; lia).
    (* the quotient is at least 1 and at most W *)
    assert (Hlow : 2 ^ (- E) <= Z.pos m * 2 ^ (E' - E)).
    { rewrite HM. apply RNQ_lower; [exact HD|].
      unfold n. rewrite Hsk, pow2_split by lia.
      assert (2 ^ (- E) * (Z.pos ph * 2 ^ k) = Z.pos ph * (2 ^ (- E) * 2 ^ k)) by ring.
      assert (0 < 2 ^ (- E) * 2 ^ k) by (apply Z.mul_pos_pos; [apply Z.pow_pos_nonneg|]; lia).
      nia. }
    assert (Hupp : Z.pos m * 2 ^ (E' - E) <= Z.pos pw * 2 ^ (- E)).
    { rewrite HM. apply RNQ_upper; [exact HD|].
      unfold n. rewrite Hsk, pow2_split by lia.
      assert (0 < 2 ^ (- E)) by (apply Z.pow_pos_nonneg; lia).
      assert (Z.pos pw * 2 ^ (- E) * (Z.pos ph * 2 ^ k)
              = Z.pos ph * (Z.pos pw * (2 ^ (- E) * 2 ^ k))) by ring.
      assert (0 <= Z.pos pw * (2 ^ (- E) * 2 ^ k)) by nia.
      nia. }
    assert (HE0 : E' <= 0).
    { assert (2 ^ (52 + (E' - E)) < 2 ^ (53 + - E)).
      { rewrite !pow2_split by lia.
        assert (0 < 2 ^ (- E)) by (apply Z.pow_pos_nonneg; lia).
        assert (Z.pos pw * 2 ^ (- E) < 2 ^ 53 * 2 ^ (- E)) by nia.
        assert (2 ^ 52 * 2 ^ (E' - E) <= Z.pos m * 2 ^ (E' - E)) by nia.
        lia. }
      apply pow2_lt_exponent in H; lia. }
    assert (Hge : 2 ^ (- E') <= Z.pos m).
    { replace (- E) with (- E' + (E' - E)) in Hlow by lia.
      rewrite pow2_split in Hlow by lia.
      apply (Z.mul_le_mono_pos_r _ _ (2 ^ (E' - E))); assumption. }
    split; [|exact Hge]. split; [|exact HE0].
    assert (2 ^ (- E') < 2 ^ 53) by lia.
    apply pow2_lt_exponent in H; lia.
  - intros Hle.
    assert (Ht : t <= 0).
    { unfold t. assert (d1 <= d2) by (apply (Zdigits2_mono (Z.pos pw) (Z.pos ph)); lia).
      lia. }
    assert (HnE : 0 <= - E) by (unfold E, t, d1, d2 in *; lia).
    assert (Hupp : Z.pos m * 2 ^ (E' - E) <= 2 ^ (- E)).
    { rewrite HM. apply RNQ_upper; [exact HD|].
      unfold n. rewrite Hsk, pow2_split by lia.
      assert (2 ^ (- E) * (Z.pos ph * 2 ^ k) = Z.pos ph * (2 ^ (- E) * 2 ^ k)) by ring.
      assert (0 < 2 ^ (- E) * 2 ^ k) by (apply Z.mul_pos_pos; [apply Z.pow_pos_nonneg|]; lia).
      nia. }
    assert (HE52 : E' <= -52).
    { assert (2 ^ (52 + (E' - E)) <= 2 ^ (- E)).
      { rewrite pow2_split by lia.
        assert (2 ^ 52 * 2 ^ (E' - E) <= Z.pos m * 2 ^ (E' - E)) by nia.
        lia. }
      apply pow2_le_exponent in H; lia. }
    assert (Hle' : Z.pos m <= 2 ^ (- E')).
    { replace (- E) with (- E' + (E' - E)) in Hupp by lia.
      rewrite pow2_split in Hupp by lia.
      apply (Z.mul_le_mono_pos_r _ _ (2 ^ (E' - E))); assumption. }
    split; [|exact Hle']. unfold E, t in *. lia.
Qed.

(** Dividing a float of [1, 2 ^ 53) by a float of [1, 2 ^ 53) does not
    increase it. *)
Lemma SF64div_by_ge_one sx mx ex ma ea :
  2 ^ 52 <= Z.pos mx < 2 ^ 53 -> -52 <= ex <= 0 ->
  2 ^ 52 <= Z.pos ma < 2 ^ 53 -> -52 <= ea <= 0 ->
  2 ^ (- ea) <= Z.pos ma ->
  exists mr er,
    SF64div (S754_finite sx mx ex) (S754_finite false ma ea)
    = S754_finite sx mr er
    /\ er <= ex /\ Z.pos mr <= Z.pos mx * 2 ^ (ex - er).
Proof.
  intros Hmx Hex Hma Hea Hge.
  pose proof (digits2_pos_53 mx Hmx) as D1.
  pose proof (digits2_pos_53 ma Hma) as D2.
  destruct (SF64div_normal sx mx ex false ma ea)
    as (m & E' & Hr & Hb & Hm & HE' & Hk & HM & _); try lia.
  rewrite D1, D2 in HE', Hk, HM. rewrite xorb_false_r in Hr.
  replace (53 - 53 + 53) with 53 in * by lia.
  set (n := Z.pos mx * 2 ^ 53) in *.
  set (k := Zdigits2 (n / Z.pos ma) - 53) in *.
  set (E := 53 + ex - (53 + ea) - 53 + k) in *.
  assert (H2k : 0 < 2 ^ k) by (apply Z.pow_pos_nonneg; lia).
  assert (HD : 0 < Z.pos ma * 2 ^ k) by lia.
  assert (HxE : 0 <= ex - E) by (unfold E; lia).
  assert (HEE : 0 <= E' - E) by lia.
  assert (H2EE : 0 < 2 ^ (E' - E)) by (apply Z.pow_pos_nonneg; lia).
  assert (Hupp : Z.pos m * 2 ^ (E' - E) <= Z.pos mx * 2 ^ (ex - E)).
  { rewrite HM. apply RNQ_upper; [exact HD|].
    unfold n. replace (ex - E) with (ea + 53 - k) by (unfold E; lia).
    assert (E1 : 2 ^ 53 = 2 ^ (- ea) * 2 ^ (ea + 53))
      by (rewrite <- pow2_split by lia; f_equal; lia).
    assert (E2 : 2 ^ (ea + 53 - k) * 2 ^ k = 2 ^ (ea + 53))
      by (rewrite <- pow2_split by lia; f_equal; lia).
    assert (0 < 2 ^ (ea + 53)) by (apply Z.pow_pos_nonneg; lia).
    replace (Z.pos mx * 2 ^ (ea + 53 - k) * (Z.pos ma * 2 ^ k))
      with (Z.pos mx * (Z.pos ma * (2 ^ (ea + 53 - k) * 2 ^ k))) by ring.
    rewrite E2, E1. nia. }
  assert (HEx : E' <= ex).
  { destruct (Z.le_gt_cases E' ex) as [|Hgt]; trivial. exfalso.
    assert (E' - E = 1) as E1 by lia. assert (ex - E = 0) as E0 by lia.
    rewrite E1, E0 in Hupp. change (2 ^ 1) with 2 in Hupp.
    change (2 ^ 0) with 1 in Hupp. lia. }
  exists m, E'. split; [exact Hr|]. split; [exact HEx|].
  replace (ex - E) with (ex - E' + (E' - E)) in Hupp by lia.
  rewrite pow2_split in Hupp by lia.
  apply (Z.mul_le_mono_pos_r _ _ (2 ^ (E' - E))); [assumption|lia].
Qed.

(** Multiplying a float of [1, 2 ^ 53) by a normal float of at most 1.0
    does not increase it. *)
Lemma SF64mul_by_le_one sx mx ex ma ea :
  2 ^ 52 <= Z.pos mx < 2 ^ 53 -> -52 <= ex <= 0 ->
  2 ^ 52 <= Z.pos ma < 2 ^ 53 -> -105 <= ea <= -52 ->
  Z.pos ma <= 2 ^ (- ea) ->
  exists mr er,
    SF64mul (S754_finite sx mx ex) (S754_finite false ma ea)
    = S754_finite sx mr er
    /\ er <= ex /\ Z.pos mr <= Z.pos mx * 2 ^ (ex - er).
Proof.
  intros Hmx Hex Hma Hea Hle.
  set (n := Z.pos mx * Z.pos ma).
  assert (Hn : 2 ^ 104 <= n) by (unfold n; nia).
  assert (Hnhi : n < 2 ^ (53 - ea)).
  { unfold n.
    assert (0 < 2 ^ (- ea)) by (apply Z.pow_pos_nonneg; lia).
    replace (53 - ea) with (53 + - ea) by lia. rewrite pow2_split by lia. nia. }
  assert (Hdn : 105 <= Zdigits2 n <= 53 - ea).
  { split.
    - assert (104 < Zdigits2 n) by (apply Zdigits2_gt; lia). lia.
    - apply Zdigits2_le; lia. }
  destruct (SF64mul_normal sx mx ex false ma ea)
    as (m & E' & Hr & Hb & Hm & HE' & Hk & HM & _); try lia.
  { fold n. lia. }
  { fold n. lia. }
  fold n in HE', Hk, HM. rewrite xorb_false_r in Hr.
  set (k := Zdigits2 n - 53) in *.
  set (E := ex + ea + k) in *.
  assert (H2k : 0 < 2 ^ k) by (apply Z.pow_pos_nonneg; lia).
  assert (HxE : 0 <= ex - E) by (unfold E, k; lia).
  assert (HEE : 0 <= E' - E) by lia.
  assert (H2EE : 0 < 2 ^ (E' - E)) by (apply Z.pow_pos_nonneg; lia).
  assert (Hupp : Z.pos m * 2 ^ (E' - E) <= Z.pos mx * 2 ^ (ex - E)).
  { rewrite HM. apply RNQ_upper; [exact H2k|].
    unfold n.
    assert (E2 : 2 ^ (ex - E) * 2 ^ k = 2 ^ (- ea))
      by (rewrite <- pow2_split by lia; f_equal; unfold E; lia).
    replace (Z.pos mx * 2 ^ (ex - E) * 2 ^ k)
      with (Z.pos mx * (2 ^ (ex - E) * 2 ^ k)) by ring.
    rewrite E2. nia. }
  assert (HEx : E' <= ex).
  { destruct (Z.le_gt_cases E' ex) as [|Hgt]; trivial. exfalso.
    assert (E' - E = 1) as E1 by lia. assert (ex - E = 0) as E0 by lia.
    rewrite E1, E0 in Hupp. change (2 ^ 1) with 2 in Hupp.
    change (2 ^ 0) with 1 in Hupp. lia. }
  exists m, E'. split; [exact Hr|]. split; [exact HEx|].
  replace (ex - E) with (ex - E' + (E' - E)) in Hupp by lia.
  rewrite pow2_split in Hupp by lia.
  apply (Z.mul_le_mono_pos_r _ _ (2 ^ (E' - E))); [assumption|lia].
Qed.

(** The integer part of a float that is at most the float of an int. *)
Lemma int_part_le mr er mx ex md :
  er <= ex -> ex <= 0 -> Z.pos mx = md * 2 ^ (- ex) ->
  Z.pos mr <= Z.pos mx * 2 ^ (ex - er) ->
  0 <= Py.int_part mr er <= md.
Proof.
  intros Her Hex Hmx Hle. split; [apply int_part_nonneg|].
  assert (Hb : Z.pos mr <= md * 2 ^ (- er)).
  { rewrite Hmx in Hle. replace (- er) with (- ex + (ex - er)) by lia.
    rewrite pow2_split by lia. lia. }
  assert (H2 : 0 < 2 ^ (- er)) by (apply Z.pow_pos_nonneg; lia).
  unfold Py.int_part. destruct (0 <=? er) eqn:E0.
  - apply Z.leb_le in E0. assert (er = 0) as -> by lia.
    change (2 ^ (- 0)) with 1 in Hb. change (2 ^ 0) with 1. lia.
  - apply Z.div_le_upper_bound; lia.
Qed.

(** ** The dimension resolver: a derived side against its target *)

Lemma finite_nonzero (a : float) s m e :
  Prim2SF a = S754_finite s m e -> (a =? 0)%float = false.
Proof. intros H. rewrite eqb_zero_spec, H. reflexivity. Qed.

(** [int(t / a)] for the aspect ratio [a] of an original that is at least
    as wide as high. *)
Lemma over_aspect_bounded (t W H : Z) :
  0 < H -> H <= W -> W < 2 ^ 53 -> 0 < t < 2 ^ 53 ->
  exists a h,
    Py.int_truediv W H = Ok a
    /\ (q <- Py.truediv (PyInt t) (PyFloat a) ;; Py.int q) = Ok h
    /\ 0 <= h <= t.
Proof.
  intros HH HHW HW Ht.
  destruct (int_truediv_shape W H ltac:(lia) ltac:(lia))
    as (a & ma & ea & Ha & Sa & Hma & Hge & _).
  destruct (Hge HHW) as [Hea Hone].
  destruct t as [|p|p]; try lia.
  destruct (float_of_int_normal false p ltac:(lia))
    as (f & mx & ex & Hf & Sf & Hmx & Hex & Hv).
  cbn [cond_Zopp] in Hf.
  destruct (SF64div_by_ge_one false mx ex ma ea Hmx Hex Hma Hea Hone)
    as (mr & er & Hr & Her & Hle).
  exists a, (Py.int_part mr er). split; [exact Ha|].
  unfold Py.truediv, Py.to_float. rewrite Hf. cbn [Py.bind].
  unfold Py.float_truediv. rewrite (finite_nonzero a _ _ _ Sa).
  cbn [Py.bind Py.int]. split.
  - apply int_of_float_of_trunc. rewrite div_spec, Sf, Sa, Hr. reflexivity.
  - apply (int_part_le mr er mx ex (Z.pos p)); trivial; lia.
Qed.

(** [int(t * a)] for the aspect ratio [a] of an original that is at least
    as high as wide. *)
Lemma times_aspect_bounded (t W H : Z) :
  0 <= W -> W <= H -> 0 < H < 2 ^ 53 -> 0 < t < 2 ^ 53 ->
  exists a w,
    Py.int_truediv W H = Ok a
    /\ (p <- Py.mul (PyInt t) (PyFloat a) ;; Py.int p) = Ok w
    /\ 0 <= w <= t.
Proof.
  intros HW HWH HH Ht.
  destruct (Z.eq_dec W 0) as [->|HW0].
  - destruct (int_truediv_zero_numerator H ltac:(lia)) as (z & Hz & Hz0).
    exists z, 0. split; [exact Hz|].
    destruct (float_of_int_exact t ltac:(lia)) as (f & Hf & _).
    destruct (float_of_int_shape _ _ Hf) as [Hfin _].
    unfold Py.mul, Py.to_float. rewrite Hf. cbn [Py.bind Py.int].
    rewrite (eqb_zero_mul_zero f z Hfin Hz0). split; [reflexivity|lia].
  - destruct (int_truediv_shape W H ltac:(lia) ltac:(lia))
      as (a & ma & ea & Ha & Sa & Hma & _ & Hle).
    destruct (Hle HWH) as [Hea Hone].
    destruct t as [|p|p]; try lia.
    destruct (float_of_int_normal false p ltac:(lia))
      as (f & mx & ex & Hf & Sf & Hmx & Hex & Hv).
    cbn [cond_Zopp] in Hf.
    destruct (SF64mul_by_le_one false mx ex ma ea Hmx Hex Hma Hea Hone)
      as (mr & er & Hr & Her & Hb).
    exists a, (Py.int_part mr er). split; [exact Ha|].
    unfold Py.mul, Py.to_float. rewrite Hf. cbn [Py.bind Py.int]. split.
    + apply int_of_float_of_trunc. rewrite mul_spec, Sf, Sa, Hr. reflexivity.
    + apply (int_part_le mr er mx ex (Z.pos p)); trivial; lia.
Qed.

Lemma width_only_request W H t ma :
  H <> 0 -> t <> 0 ->
  get_new_dimensions W H (Some t) None None ma
  = (a <- Py.int_truediv W H ;;
     h <- (q <- Py.truediv (PyInt t) (PyFloat a) ;; Py.int q) ;;
     Ok (t, h)).
Proof.
  intros HH Ht. unfold get_new_dimensions, Py.truthy.
  replace (t =? 0) with false by (symmetry; apply Z.eqb_neq; exact Ht).
  cbn [negb andb Py.unwrap].
  rewrite (aspect_of_nonzero W H) by (apply Z.eqb_neq; exact HH).
  destruct (Py.int_truediv W H) as [a|]; [|reflexivity]. cbn [Py.bind].
  destruct (Py.truediv (PyInt t) (PyFloat a)) as [q|]; [|reflexivity].
  cbn [Py.bind]. destruct (Py.int q); reflexivity.
Qed.

Lemma height_only_request W H t ma :
  H <> 0 -> t <> 0 ->
  get_new_dimensions W H None (Some t) None ma
  = (a <- Py.int_truediv W H ;;
     w <- (p <- Py.mul (PyInt t) (PyFloat a) ;; Py.int p) ;;
     Ok (w, t)).
Proof.
  intros HH Ht. unfold get_new_dimensions, Py.truthy.
  replace (t =? 0) with false by (symmetry; apply Z.eqb_neq; exact Ht).
  cbn [negb andb Py.unwrap].
  rewrite (aspect_of_nonzero W H) by (apply Z.eqb_neq; exact HH).
  destruct (Py.int_truediv W H) as [a|]; [|reflexivity]. cbn [Py.bind].
  destruct (Py.mul (PyInt t) (PyFloat a)) as [p|]; [|reflexivity].
  cbn [Py.bind]. destruct (Py.int p); reflexivity.
Qed.

Lemma width_only_fits W H t ma :
  0 < H -> H <= W -> W < 2 ^ 53 -> 0 < t < 2 ^ 53 ->
  exists h, get_new_dimensions W H (Some t) None None ma = Ok (t, h)
            /\ 0 <= h <= t.
Proof.
  intros HH HHW HW Ht.
  destruct (over_aspect_bounded t W H HH HHW HW Ht) as (a & h & Ha & Hq & Hh).
  exists h. split; [|exact Hh].
  rewrite width_only_request by lia. rewrite Ha. cbn [Py.bind].
  rewrite Hq. reflexivity.
Qed.

Lemma height_only_fits W H t ma :
  0 <= W -> W <= H -> 0 < H < 2 ^ 53 -> 0 < t < 2 ^ 53 ->
  exists w, get_new_dimensions W H None (Some t) None ma = Ok (w, t)
            /\ 0 <= w <= t.
Proof.
  intros HW HWH HH Ht.
  destruct (times_aspect_bounded t W H HW HWH HH Ht) as (a & w & Ha & Hp & Hw).
  exists w. split; [|exact Hw].
  rewrite height_only_request by lia. rewrite Ha. cbn [Py.bind].
  rewrite Hp. reflexivity.
Qed.

(** X17.  A single positive target given for the longer side of the
    original bounds the derived side: for an original at least as wide as
    high, a target width t alone returns (t, h) with 0 <= h <= t, and for
    an original at least as high as wide, a target height t alone returns
    (w, t) with 0 <= w <= t.  Sides and target are below 2 ^ 53; nothing is
    raised. *)
Theorem get_new_dimensions_longer_side
    (W H t : Z) (maintain_aspect : bool) :
  0 < W < 2 ^ 53 -> 0 < H < 2 ^ 53 -> 0 < t < 2 ^ 53 ->
  (H <= W ->
   exists h,
     get_new_dimensions W H (Some t) None None maintain_aspect = Ok (t, h)
     /\ 0 <= h <= t)
  /\ (W <= H ->
      exists w,
        get_new_dimensions W H None (Some t) None maintain_aspect = Ok (w, t)
        /\ 0 <= w <= t).
Proof.
  intros HW HH Ht. split; intros Hle.
  - apply width_only_fits; lia.
  - apply height_only_fits; lia.
Qed.

Lemma get_new_dimensions_longer_side_witness :
  exists h,
    get_new_dimensions 1920 1080 (Some 640) None None true = Ok (640, h)
    /\ 0 <= h <= 640.
Proof.
  apply (proj1 (get_new_dimensions_longer_side 1920 1080 640 true
                  ltac:(lia) ltac:(lia) ltac:(lia))).
  lia.
Defined.

(** X18.  When resize_to_max_dimension does resize, the size it hands to
    cv2.resize has max_dimension as its larger side and no side above it
    or below 0: for a valid image of positive height, with sides below
    2 ^ 53 and a longer side above a positive max_dimension, the call is
    cv2.resize at a size (w, h) with max(w, h) = max_dimension, after the
    interpolation name has been looked up. *)
Theorem resize_to_max_dimension_within_bound
    (resize : ndarray -> Z * Z -> interpolation_flag -> result ndarray)
    (default_interpolation : str) (a : ndarray) (max_dimension : Z)
    (interpolation : option str) :
  validate_image (PyArray a) = true ->
  0 <= nth 1 (shape a) 0 < 2 ^ 53 ->
  0 < nth 0 (shape a) 0 < 2 ^ 53 ->
  0 < max_dimension < Z.max (nth 1 (shape a) 0) (nth 0 (shape a) 0) ->
  exists w h,
    0 <= w <= max_dimension /\ 0 <= h <= max_dimension
    /\ Z.max w h = max_dimension
    /\ resize_to_max_dimension resize default_interpolation (PyArray a)
         max_dimension interpolation
       = (interp_method <~ _get_interpolation_method default_interpolation
                             interpolation ;;
          lift (resize a (w, h) interp_method)).
Proof.
  intros Hv HW HH Hmd.
  set (W := nth 1 (shape a) 0) in *. set (H := nth 0 (shape a) 0) in *.
  assert (Hrun : forall width height w h,
             get_new_dimensions W H width height None true = Ok (w, h) ->
             Z.max w h = max_dimension ->
             resize_process resize default_interpolation (PyArray a) width
               height None true interpolation
             = (interp_method <~ _get_interpolation_method
                                   default_interpolation interpolation ;;
                lift (resize a (w, h) interp_method))).
  { intros width height w h Hd Hmax. unfold resize_process.
    rewrite (validate_input_valid _ Hv). cbn [lift outcome_bind].
    fold W H. rewrite Hd. cbn [lift outcome_bind fst snd].
    destruct ((w =? W) && (h =? H)) eqn:Eq; [|reflexivity].
    apply andb_true_iff in Eq. rewrite !Z.eqb_eq in Eq. lia. }
  unfold resize_to_max_dimension.
  rewrite (validate_input_valid _ Hv). cbn [lift outcome_bind]. fold W H.
  replace (Z.max W H <=? max_dimension) with false
    by (symmetry; apply Z.leb_gt; lia).
  destruct (H <? W) eqn:Elt.
  - apply Z.ltb_lt in Elt.
    destruct (width_only_fits W H max_dimension true) as (h & Hd & Hh); try lia.
    exists max_dimension, h. repeat split; try lia.
    apply Hrun; [exact Hd|lia].
  - apply Z.ltb_ge in Elt.
    destruct (height_only_fits W H max_dimension true) as (w & Hd & Hw); try lia.
    exists w, max_dimension. repeat split; try lia.
    apply Hrun; [exact Hd|lia].
Qed.

Lemma resize_to_max_dimension_within_bound_witness :
  exists w h,
    0 <= w <= 1 /\ 0 <= h <= 1 /\ Z.max w h = 1
    /\ resize_to_max_dimension (fun a _ _ => Ok a) "linear"%string
         (PyArray sample_image) 1 None
       = (interp_method <~ _get_interpolation_method "linear"%string None ;;
          lift ((fun a _ _ => Ok a) sample_image (w, h) interp_method)).
Proof.
  apply (resize_to_max_dimension_within_bound (fun a _ _ => Ok a)
           "linear"%string sample_image 1 None); [reflexivity| | |];
    cbn; lia.
Defined.

(** ** The dimension resolver on a square original *)

Lemma int_truediv_same (W : Z) :
  0 < W < 2 ^ 53 -> Py.int_truediv W W = Ok 1%float.
Proof.
  intros HW.
  destruct (int_truediv_shape W W HW HW)
    as (a & ma & ea & Ha & Sa & Hma & Hge & Hle).
  destruct (Hge ltac:(lia)) as [Hea1 Hone1].
  destruct (Hle ltac:(lia)) as [Hea2 Hone2].
  assert (ea = -52) as -> by lia.
  assert (Z.pos ma = 2 ^ 52) by (change (2 ^ (- -52)) with (2 ^ 52) in *; lia).
  assert (ma = 4503599627370496%positive) as -> by lia.
  rewrite Ha. f_equal. apply Prim2SF_inj. rewrite Sa. reflexivity.
Qed.

(** Dividing the float of a small int by 1.0 gives it back. *)
Lemma SF64div_one sx mx ex :
  2 ^ 52 <= Z.pos mx < 2 ^ 53 -> -52 <= ex <= 0 ->
  SF64div (S754_finite sx mx ex) (S754_finite false 4503599627370496 (-52))
  = S754_finite sx mx ex.
Proof.
  intros Hmx Hex.
  pose proof (digits2_pos_53 mx Hmx) as D1.
  destruct (SF64div_normal sx mx ex false 4503599627370496 (-52))
    as (m & E' & Hr & Hb & Hm & HE' & Hk & HM & _); try lia.
  { rewrite D1. change (Z.pos (digits2_pos 4503599627370496)) with 53. lia. }
  rewrite D1 in HE', Hk, HM. rewrite xorb_false_r in Hr.
  change (Z.pos (digits2_pos 4503599627370496)) with 53 in *.
  replace (53 - 53 + 53) with 53 in * by lia.
  change (Z.pos 4503599627370496) with (2 ^ 52) in *.
  assert (Hq : Z.pos mx * 2 ^ 53 / 2 ^ 52 = Z.pos mx * 2 ^ 1).
  { change (2 ^ 53) with (2 ^ 1 * 2 ^ 52). rewrite Z.mul_assoc.
    apply Z.div_mul. lia. }
  rewrite Hq in *. rewrite Zdigits2_shift in * by lia.
  cbn [Zdigits2] in *. rewrite D1 in *.
  replace (53 + 1 - 53) with 1 in * by lia.
  replace (53 + ex - (53 + -52) - 53 + 1) with ex in * by lia.
  assert (HRNQ : RNQ (Z.pos mx * 2 ^ 53) (2 ^ 52 * 2 ^ 1) = Z.pos mx).
  { apply Z.le_antisymm.
    - apply RNQ_upper; [reflexivity|]. change (2 ^ 53) with (2 ^ 52 * 2 ^ 1). lia.
    - apply RNQ_lower; [reflexivity|]. change (2 ^ 53) with (2 ^ 52 * 2 ^ 1). lia. }
  rewrite HRNQ in HM.
  assert (E' = ex) as ->.
  { destruct (Z.eq_dec E' ex) as [|Hne]; trivial. exfalso.
    assert (E' - ex = 1) as E1 by lia. rewrite E1 in HM.
    change (2 ^ 1) with 2 in HM. lia. }
  rewrite Z.sub_diag in HM. change (2 ^ 0) with 1 in HM.
  assert (m = mx) as -> by lia. exact Hr.
Qed.

Lemma scaled_side_over_one (t : Z) :
  t <> 0 -> - 2 ^ 53 < t < 2 ^ 53 ->
  (q <- Py.truediv (PyInt t) (PyFloat 1) ;; Py.int q) = Ok t.
Proof.
  intros Ht0 Ht.
  assert (Hcase : exists sx p, t = cond_Zopp sx (Z.pos p) /\ Z.pos p < 2 ^ 53).
  { destruct t as [|p|p]; try contradiction.
    - exists false, p. split; [reflexivity|lia].
    - exists true, p. split; [reflexivity|lia]. }
  destruct Hcase as (sx & p & -> & Hp).
  destruct (float_of_int_normal sx p Hp) as (f & mx & ex & Hf & Sf & Hmx & Hex & Hv).
  unfold Py.truediv, Py.to_float. rewrite Hf. cbn [Py.bind].
  change (Py.float_truediv f 1) with (Ok (f / 1)%float). cbn [Py.bind Py.int].
  apply int_of_float_of_trunc. rewrite div_spec, Sf.
  change (Prim2SF 1) with (S754_finite false 4503599627370496 (-52)).
  rewrite (SF64div_one sx mx ex Hmx Hex). cbn [Py.SF_trunc].
  rewrite (int_part_shifted mx ex (Z.pos p)) by (trivial; lia). reflexivity.
Qed.

(** X19.  On a square original with a side below 2 ^ 53 the aspect ratio
    is exactly 1.0, so that a single target t, of either sign and below
    2 ^ 53 in absolute value, comes back as the square (t, t), whether it
    is given as the width or as the height. *)
Theorem get_new_dimensions_square (W t : Z) (maintain_aspect : bool) :
  0 < W < 2 ^ 53 -> t <> 0 -> - 2 ^ 53 < t < 2 ^ 53 ->
  get_new_dimensions W W (Some t) None None maintain_aspect = Ok (t, t)
  /\ get_new_dimensions W W None (Some t) None maintain_aspect = Ok (t, t).
Proof.
  intros HW Ht0 Ht. split.
  - rewrite width_only_request by lia. rewrite (int_truediv_same W HW).
    cbn [Py.bind]. rewrite (scaled_side_over_one t Ht0 Ht). reflexivity.
  - rewrite height_only_request by lia. rewrite (int_truediv_same W HW).
    cbn [Py.bind]. rewrite (scaled_side_one t Ht). reflexivity.
Qed.

Lemma get_new_dimensions_square_witness :
  get_new_dimensions 100 100 (Some 200) None None true = Ok (200, 200)
  /\ get_new_dimensions 100 100 None (Some 200) None true = Ok (200, 200).
Proof.
  apply (get_new_dimensions_square 100 200 true); lia.
Defined.

(** ** Binary64: rounding against dyadic bounds *)

Lemma dyadic_le_base c1 g1 c2 g2 b :
  b <= g1 -> b <= g2 ->
  (dyadic_le c1 g1 c2 g2 <-> c1 * 2 ^ (g1 - b) <= c2 * 2 ^ (g2 - b)).
Proof.
  intros H1 H2. unfold dyadic_le. set (m := Z.min g1 g2).
  assert (Hm : b <= m /\ m <= g1 /\ m <= g2) by (unfold m; lia).
  assert (HP : 0 < 2 ^ (m - b)) by (apply Z.pow_pos_nonneg; lia).
  replace (g1 - b) with (g1 - m + (m - b)) by lia.
  replace (g2 - b) with (g2 - m + (m - b)) by lia.
  rewrite !pow2_split by lia. rewrite !Z.mul_assoc.
  split; intros H.
  - apply Z.mul_le_mono_nonneg_r; lia.
  - apply (Z.mul_le_mono_pos_r _ _ (2 ^ (m - b))); assumption.
Qed.

Lemma dyadic_le_shift c1 g1 c2 g2 j :
  dyadic_le c1 g1 c2 g2 -> dyadic_le c1 (g1 + j) c2 (g2 + j).
Proof.
  unfold dyadic_le. rewrite Z.add_min_distr_r.
  replace (g1 + j - (Z.min g1 g2 + j)) with (g1 - Z.min g1 g2) by lia.
  replace (g2 + j - (Z.min g1 g2 + j)) with (g2 - Z.min g1 g2) by lia.
  trivial.
Qed.

Lemma dyadic_le_total c1 g1 c2 g2 :
  dyadic_le c1 g1 c2 g2 \/ dyadic_le c2 g2 c1 g1.
Proof. unfold dyadic_le. rewrite (Z.min_comm g2 g1). lia. Qed.

(** A mantissa that holds [n] shifted by [j] bits. *)
Lemma dyadic_le_mantissa_l n j g c2 g2 :
  0 <= j -> dyadic_le n (g + j) c2 g2 -> dyadic_le (n * 2 ^ j) g c2 g2.
Proof.
  intros Hj H. set (b := Z.min g g2).
  apply (dyadic_le_base _ _ _ _ b) in H; [|unfold b; lia|unfold b; lia].
  apply (dyadic_le_base _ _ _ _ b); [unfold b; lia|unfold b; lia|].
  replace (g + j - b) with (j + (g - b)) in H by lia.
  rewrite pow2_split in H by (unfold b; lia). lia.
Qed.

Lemma dyadic_le_mantissa_r c1 g1 n j g :
  0 <= j -> dyadic_le c1 g1 n (g + j) -> dyadic_le c1 g1 (n * 2 ^ j) g.
Proof.
  intros Hj H. set (b := Z.min g1 g).
  apply (dyadic_le_base _ _ _ _ b) in H; [|unfold b; lia|unfold b; lia].
  apply (dyadic_le_base _ _ _ _ b); [unfold b; lia|unfold b; lia|].
  replace (g + j - b) with (j + (g - b)) in H by lia.
  rewrite pow2_split in H by (unfold b; lia). lia.
Qed.

(** The order of two normal mantissas with their exponents. *)
Lemma dyadic_le_normal m1 e1 m2 e2 :
  2 ^ 52 <= m1 < 2 ^ 53 -> 2 ^ 52 <= m2 < 2 ^ 53 ->
  (dyadic_le m1 e1 m2 e2 <-> e1 < e2 \/ (e1 = e2 /\ m1 <= m2)).
Proof.
  intros H1 H2. split.
  - intros H. destruct (Z.lt_trichotomy e1 e2) as [Hlt|[Heq|Hgt]]; auto.
    + right. split; [exact Heq|]. subst e2.
      apply (dyadic_le_base _ _ _ _ e1) in H; try lia.
      rewrite Z.sub_diag in H. change (2 ^ 0) with 1 in H. lia.
    + exfalso. apply (dyadic_le_base _ _ _ _ e2) in H; try lia.
      rewrite Z.sub_diag in H. change (2 ^ 0) with 1 in H.
      assert (2 ^ 1 <= 2 ^ (e1 - e2)) by (apply Z.pow_le_mono_r; lia).
      change (2 ^ 1) with 2 in *. nia.
  - intros [Hlt|[-> Hle]].
    + apply (dyadic_le_base _ _ _ _ e1); try lia.
      rewrite Z.sub_diag. change (2 ^ 0) with 1.
      assert (2 ^ 1 <= 2 ^ (e2 - e1)) by (apply Z.pow_le_mono_r; lia).
      change (2 ^ 1) with 2 in *. nia.
    + apply (dyadic_le_base _ _ _ _ e2); try lia.
      rewrite Z.sub_diag. lia.
Qed.

Lemma SFltb_finite_pos m1 e1 m2 e2 :
  SFltb (S754_finite false m1 e1) (S754_finite false m2 e2)
  = negb (SFleb (S754_finite false m2 e2) (S754_finite false m1 e1)).
Proof.
  unfold SFltb, SFleb, SFcompare.
  rewrite (Z.compare_antisym e1 e2).
  destruct (e1 ?= e2); try reflexivity. cbn [CompOpp].
  change (Pos.compare_cont Eq m1 m2) with (Pos.compare m1 m2).
  change (Pos.compare_cont Eq m2 m1) with (Pos.compare m2 m1).
  rewrite (Pos.compare_antisym m1 m2).
  destruct (Pos.compare m1 m2); reflexivity.
Qed.

(** The order of two positive normal floats, as a test and on the data. *)
Lemma ltb_normal_dyadic (a b : float) ma ea mb eb :
  Prim2SF a = S754_finite false ma ea -> Prim2SF b = S754_finite false mb eb ->
  2 ^ 52 <= Z.pos ma < 2 ^ 53 -> 2 ^ 52 <= Z.pos mb < 2 ^ 53 ->
  if (a <? b)%float then ~ dyadic_le (Z.pos mb) eb (Z.pos ma) ea
  else dyadic_le (Z.pos mb) eb (Z.pos ma) ea.
Proof.
  intros Sa Sb Ha Hb. rewrite ltb_spec, Sa, Sb, SFltb_finite_pos.
  destruct (SFleb _ _) eqn:E; cbn [negb].
  - apply dyadic_le_normal; trivial. apply SFleb_finite_pos. exact E.
  - intros H. apply dyadic_le_normal in H; trivial.
    apply SFleb_finite_pos_intro in H. congruence.
Qed.

Lemma RNQ_half n d : 0 < d -> 2 * n - d <= 2 * d * RNQ n d.
Proof.
  intros Hd. pose proof (Z.div_mod n d ltac:(lia)) as Hdm.
  pose proof (Z.mod_pos_bound n d Hd) as Hr.
  unfold RNQ.
  destruct (Z.compare_spec (2 * (n mod d)) d) as [C|C|C];
    [destruct (Z.even (n / d))| |]; nia.
Qed.

(** Rounding to nearest loses at most one part in [2 ^ 53] of a quotient
    of 53 bits. *)
Lemma RNQ_relative n d :
  0 < d -> 2 ^ 52 * d <= n -> (2 ^ 53 - 1) * n <= 2 ^ 53 * (RNQ n d * d).
Proof.
  intros Hd Hn. pose proof (RNQ_half n d Hd) as Hh.
  change (2 ^ 53) with (2 ^ 52 * 2). nia.
Qed.

(** The quotient of two finite binary64 data in the normal range, against
    bounds: it does not exceed a dyadic number of at most 53 bits that the
    exact quotient does not exceed, and it keeps all but one part in
    [2 ^ 53] of the exact quotient. *)
Lemma SF64div_rounds s1 m1 e1 s2 m2 e2 :
  Z.pos m1 < 2 ^ 53 -> Z.pos m2 < 2 ^ 53 ->
  let t := Z.pos (digits2_pos m1) + e1 - (Z.pos (digits2_pos m2) + e2) in
  -1021 <= t <= 1022 ->
  exists m E',
    SF64div (S754_finite s1 m1 e1) (S754_finite s2 m2 e2)
    = S754_finite (xorb s1 s2) m E'
    /\ bounded prec emax m E' = true
    /\ 2 ^ 52 <= Z.pos m < 2 ^ 53
    /\ t - 53 <= E' <= t - 51
    /\ (forall c g,
           0 < c < 2 ^ 53 ->
           dyadic_le (Z.pos m1) e1 (c * Z.pos m2) (g + e2) ->
           dyadic_le (Z.pos m) E' c g)
    /\ dyadic_le ((2 ^ 53 - 1) * Z.pos m1) e1
         (2 ^ 53 * (Z.pos m * Z.pos m2)) (E' + e2).
Proof.
  intros H1 H2 t Ht.
  destruct (SF64div_normal s1 m1 e1 s2 m2 e2 H1 H2 Ht)
    as (m & E' & Hr & Hb & Hm & HE' & Hk & HM & Hlo).
  unfold t in *. clear t.
  set (d1 := Z.pos (digits2_pos m1)) in *.
  set (d2 := Z.pos (digits2_pos m2)) in *.
  set (t := d1 + e1 - (d2 + e2)) in *.
  set (s := 53 - d1 + d2) in *.
  set (n := Z.pos m1 * 2 ^ s) in *.
  set (k := Zdigits2 (n / Z.pos m2) - 53) in *.
  set (E := t - 53 + k) in *.
  pose proof (digits2_pos_bounds m1) as [L1 U1]. fold d1 in L1, U1.
  pose proof (digits2_pos_bounds m2) as [L2 U2]. fold d2 in L2, U2.
  assert (Hd1 : 1 <= d1 <= 53).
  { split; [unfold d1; lia|]. apply (Zdigits2_le (Z.pos m1) 53); lia. }
  assert (Hd2 : 1 <= d2 <= 53).
  { split; [unfold d2; lia|]. apply (Zdigits2_le (Z.pos m2) 53); lia. }
  assert (Hs : 1 <= s) by (unfold s; lia).
  assert (Hsid : s = e1 - e2 - E + k) by (unfold E, t, s; lia).
  assert (H2k : 0 < 2 ^ k) by (apply Z.pow_pos_nonneg; lia).
  assert (HD : 0 < Z.pos m2 * 2 ^ k) by lia.
  assert (HEE : 0 <= E' - E) by lia.
  assert (H2EE : 0 < 2 ^ (E' - E)) by (apply Z.pow_pos_nonneg; lia).
  exists m, E'. split; [exact Hr|]. split; [exact Hb|]. split; [exact Hm|].
  split; [unfold E in HE'; lia|]. split.
  - intros c g Hc Hle.
    apply (dyadic_le_shift _ _ _ _ (k - E - e2)) in Hle.
    replace (e1 + (k - E - e2)) with s in Hle by lia.
    replace (g + e2 + (k - E - e2)) with (g - E + k) in Hle by lia.
    destruct (Z.le_gt_cases E g) as [HEg|HgE].
    + apply (dyadic_le_base _ _ _ _ 0) in Hle; try lia.
      rewrite !Z.sub_0_r in Hle. fold n in Hle.
      rewrite pow2_split in Hle by lia.
      assert (HMc : Z.pos m * 2 ^ (E' - E) <= c * 2 ^ (g - E)).
      { rewrite HM. apply RNQ_upper; [exact HD|]. lia. }
      apply (dyadic_le_base _ _ _ _ E); try lia.
    + exfalso.
      apply (dyadic_le_shift _ _ _ _ (E - g - k)) in Hle.
      replace (g - E + k + (E - g - k)) with 0 in Hle by lia.
      apply (dyadic_le_base _ _ _ _ 0) in Hle; try lia.
      rewrite !Z.sub_0_r in Hle. change (2 ^ 0) with 1 in Hle.
      rewrite pow2_split in Hle by lia. fold n in Hle.
      assert (2 ^ 1 <= 2 ^ (E - g)) by (apply Z.pow_le_mono_r; lia).
      change (2 ^ 1) with 2 in *.
      assert (E1 : 2 ^ k * 2 ^ (E - g - k) = 2 ^ (E - g))
        by (rewrite <- pow2_split by lia; f_equal; lia).
      assert (0 < 2 ^ (E - g - k)) by (apply Z.pow_pos_nonneg; lia).
      assert (2 ^ 52 * (Z.pos m2 * 2 ^ k) * 2 ^ (E - g - k)
              <= n * 2 ^ (E - g - k)) by (apply Z.mul_le_mono_nonneg_r; lia).
      replace (2 ^ 52 * (Z.pos m2 * 2 ^ k) * 2 ^ (E - g - k))
        with (2 ^ 52 * Z.pos m2 * (2 ^ k * 2 ^ (E - g - k))) in * by ring.
      rewrite E1 in *. nia.
  - pose proof (RNQ_relative n (Z.pos m2 * 2 ^ k) HD Hlo) as Hrel.
    rewrite <- HM in Hrel.
    assert (Hgoal : dyadic_le ((2 ^ 53 - 1) * Z.pos m1) s
                      (2 ^ 53 * (Z.pos m * Z.pos m2)) (E' - E + k)).
    { apply (dyadic_le_base _ _ _ _ 0); try lia.
      rewrite !Z.sub_0_r. rewrite pow2_split by lia. unfold n in Hrel.
      lia. }
    apply (dyadic_le_shift _ _ _ _ (E + e2 - k)) in Hgoal.
    replace (s + (E + e2 - k)) with e1 in Hgoal by lia.
    replace (E' - E + k + (E + e2 - k)) with (E' + e2) in Hgoal by lia.
    exact Hgoal.
Qed.

(** The product of two normal binary64 data in the normal range does not
    exceed a dyadic number of at most 53 bits that the exact product does
    not exceed. *)
Lemma SF64mul_rounds s1 m1 e1 s2 m2 e2 :
  2 ^ 52 <= Z.pos m1 < 2 ^ 53 -> 2 ^ 52 <= Z.pos m2 < 2 ^ 53 ->
  -1000 <= e1 + e2 <= 800 ->
  exists m E',
    SF64mul (S754_finite s1 m1 e1) (S754_finite s2 m2 e2)
    = S754_finite (xorb s1 s2) m E'
    /\ bounded prec emax m E' = true
    /\ 2 ^ 52 <= Z.pos m < 2 ^ 53
    /\ (forall c g,
           0 < c < 2 ^ 53 ->
           dyadic_le (Z.pos m1 * Z.pos m2) (e1 + e2) c g ->
           dyadic_le (Z.pos m) E' c g).
Proof.
  intros H1 H2 He.
  set (n := Z.pos m1 * Z.pos m2).
  assert (Hn : 2 ^ 104 <= n < 2 ^ 106).
  { unfold n. change (2 ^ 104) with (2 ^ 52 * 2 ^ 52).
    change (2 ^ 106) with (2 ^ 53 * 2 ^ 53). nia. }
  assert (Hdn : 105 <= Zdigits2 n <= 106).
  { split.
    - assert (104 < Zdigits2 n) by (apply Zdigits2_gt; lia). lia.
    - apply Zdigits2_le; lia. }
  destruct (SF64mul_normal s1 m1 e1 s2 m2 e2)
    as (m & E' & Hr & Hb & Hm & HE' & Hk & HM & Hlo); try lia.
  { fold n. lia. }
  { fold n. lia. }
  fold n in HE', Hk, HM, Hlo.
  set (k := Zdigits2 n - 53) in *.
  set (E := e1 + e2 + k) in *.
  assert (H2k : 0 < 2 ^ k) by (apply Z.pow_pos_nonneg; lia).
  assert (HEE : 0 <= E' - E) by lia.
  exists m, E'. split; [exact Hr|]. split; [exact Hb|]. split; [exact Hm|].
  intros c g Hc Hle.
  destruct (Z.le_gt_cases E g) as [HEg|HgE].
  - apply (dyadic_le_base _ _ _ _ (e1 + e2)) in Hle; [|lia|unfold E in HEg; lia].
    rewrite Z.sub_diag in Hle. change (2 ^ 0) with 1 in Hle. fold n in Hle.
    replace (g - (e1 + e2)) with (g - E + k) in Hle by (unfold E; lia).
    rewrite pow2_split in Hle by lia.
    assert (HMc : Z.pos m * 2 ^ (E' - E) <= c * 2 ^ (g - E)).
    { rewrite HM. apply RNQ_upper; [exact H2k|]. lia. }
    apply (dyadic_le_base _ _ _ _ E); try lia.
  - exfalso. fold n in Hle.
    assert (2 ^ 1 <= 2 ^ (E - g)) by (apply Z.pow_le_mono_r; lia).
    change (2 ^ 1) with 2 in *.
    destruct (Z.le_gt_cases g (e1 + e2)) as [Hg|Hg].
    + apply (dyadic_le_base _ _ _ _ g) in Hle; try lia.
      rewrite Z.sub_diag in Hle. change (2 ^ 0) with 1 in Hle.
      replace (e1 + e2 - g) with (E - g - k) in Hle by (unfold E; lia).
      assert (E1 : 2 ^ k * 2 ^ (E - g - k) = 2 ^ (E - g))
        by (rewrite <- pow2_split by (unfold E; lia); f_equal; lia).
      assert (0 < 2 ^ (E - g - k)) by (apply Z.pow_pos_nonneg; unfold E; lia).
      assert (2 ^ 52 * 2 ^ k * 2 ^ (E - g - k) <= n * 2 ^ (E - g - k))
        by (apply Z.mul_le_mono_nonneg_r; lia).
      replace (2 ^ 52 * 2 ^ k * 2 ^ (E - g - k))
        with (2 ^ 52 * (2 ^ k * 2 ^ (E - g - k))) in * by ring.
      rewrite E1 in *. nia.
    + apply (dyadic_le_base _ _ _ _ (e1 + e2)) in Hle; try lia.
      rewrite Z.sub_diag in Hle. change (2 ^ 0) with 1 in Hle.
      assert (E1 : 2 ^ (g - (e1 + e2)) * 2 ^ (E - g) = 2 ^ k)
        by (rewrite <- pow2_split by lia; f_equal; unfold E; lia).
      assert (0 < 2 ^ (g - (e1 + e2))) by (apply Z.pow_pos_nonneg; lia).
      nia.
Qed.

(** The integer part of a float below a dyadic bound. *)
Lemma int_part_dyadic m e c g :
  0 <= c -> g <= 0 -> dyadic_le (Z.pos m) e c g ->
  0 <= Py.int_part m e <= c / 2 ^ (- g).
Proof.
  intros Hc Hg H. split; [apply int_part_nonneg|].
  assert (H2g : 0 < 2 ^ (- g)) by (apply Z.pow_pos_nonneg; lia).
  unfold Py.int_part. destruct (0 <=? e) eqn:E0.
  - apply Z.leb_le in E0.
    apply (dyadic_le_base _ _ _ _ g) in H; try lia.
    rewrite Z.sub_diag in H. change (2 ^ 0) with 1 in H.
    replace (e - g) with (e + - g) in H by lia.
    rewrite pow2_split in H by lia.
    apply Z.div_le_lower_bound; [lia|]. lia.
  - apply Z.leb_gt in E0.
    unfold dyadic_le in H. set (b := Z.min e g) in *.
    assert (H2e : 0 < 2 ^ (- e)) by (apply Z.pow_pos_nonneg; lia).
    pose proof (Z.mul_div_le (Z.pos m) (2 ^ (- e)) H2e) as Hq.
    apply Z.div_le_lower_bound; [lia|].
    assert (Hb : 0 < 2 ^ (e - b)) by (apply Z.pow_pos_nonneg; unfold b; lia).
    assert (E1 : 2 ^ (- e) * 2 ^ (e - b) = 2 ^ (- b))
      by (rewrite <- pow2_split by (unfold b; lia); f_equal; lia).
    assert (E2 : 2 ^ (- g) * 2 ^ (g - b) = 2 ^ (- b))
      by (rewrite <- pow2_split by (unfold b; lia); f_equal; lia).
    assert (Hb2 : 0 < 2 ^ (g - b)) by (apply Z.pow_pos_nonneg; unfold b; lia).
    set (q := Z.pos m / 2 ^ (- e)) in *.
    assert (0 <= q) by (apply Z.div_pos; lia).
    (* q * 2^-e <= m, so q * 2^-b <= m * 2^(e-b) <= c * 2^(g-b) *)
    assert (Hqc : q * 2 ^ (- b) <= c * 2 ^ (g - b)).
    { rewrite <- E1.
      assert (2 ^ (- e) * q * 2 ^ (e - b) <= Z.pos m * 2 ^ (e - b))
        by (apply Z.mul_le_mono_nonneg_r; lia).
      lia. }
    rewrite <- E2 in Hqc.
    apply (Z.mul_le_mono_pos_r _ _ (2 ^ (g - b))); [exact Hb2|]. lia.
Qed.

(** ** The dimension resolver: fitting a box *)

(** The quotient of two positive ints below [2 ^ 53], against bounds. *)
Lemma int_truediv_rounds (W H : Z) :
  0 < W < 2 ^ 53 -> 0 < H < 2 ^ 53 ->
  exists a ma ea,
    Py.int_truediv W H = Ok a
    /\ Prim2SF a = S754_finite false ma ea
    /\ 2 ^ 52 <= Z.pos ma < 2 ^ 53
    /\ -105 <= ea <= 0
    /\ (forall c g,
           0 < c < 2 ^ 53 -> dyadic_le W 0 (c * H) g ->
           dyadic_le (Z.pos ma) ea c g)
    /\ dyadic_le ((2 ^ 53 - 1) * W) 0 (2 ^ 53 * (Z.pos ma * H)) ea.
Proof.
  intros HW HH. destruct W as [|pw|pw], H as [|ph|ph]; try lia.
  unfold Py.int_truediv. cbn [Z.eqb].
  pose proof (digits2_pos_bounds pw) as [L1 U1].
  pose proof (digits2_pos_bounds ph) as [L2 U2].
  assert (Hd1 : 1 <= Z.pos (digits2_pos pw) <= 53).
  { split; [lia|]. apply (Zdigits2_le (Z.pos pw) 53); lia. }
  assert (Hd2 : 1 <= Z.pos (digits2_pos ph) <= 53).
  { split; [lia|]. apply (Zdigits2_le (Z.pos ph) 53); lia. }
  destruct (SF64div_rounds false pw 0 false ph 0)
    as (m & E' & Hr & Hb & Hm & HE' & Hup & Hrel); try lia.
  cbn [xorb] in Hr. rewrite Hr.
  assert (Hsf : Prim2SF (SF2Prim (S754_finite false m E')) = S754_finite false m E')
    by (apply Prim2SF_SF2Prim; exact Hb).
  assert (Hup' : forall c g,
             0 < c < 2 ^ 53 -> dyadic_le (Z.pos pw) 0 (c * Z.pos ph) g ->
             dyadic_le (Z.pos m) E' c g).
  { intros c g Hc Hle. apply Hup; [exact Hc|].
    rewrite Z.add_0_r. exact Hle. }
  assert (HE0 : E' <= 0).
  { assert (Hle : dyadic_le (Z.pos m) E' (Z.pos pw) 0).
    { apply Hup'; [lia|]. apply (dyadic_le_base _ _ _ _ 0); try lia.
      rewrite Z.sub_diag. change (2 ^ 0) with 1. nia. }
    destruct (Z.le_gt_cases E' 0) as [|Hgt]; trivial. exfalso.
    apply (dyadic_le_base _ _ _ _ 0) in Hle; try lia.
    rewrite Z.sub_diag, Z.sub_0_r in Hle. change (2 ^ 0) with 1 in Hle.
    assert (2 ^ 1 <= 2 ^ E') by (apply Z.pow_le_mono_r; lia).
    change (2 ^ 1) with 2 in *. nia. }
  exists (SF2Prim (S754_finite false m E')), m, E'.
  split; [rewrite is_infinity_spec, Hsf; reflexivity|].
  split; [exact Hsf|]. split; [exact Hm|]. split; [lia|].
  split; [exact Hup'|]. rewrite Z.add_0_r in Hrel. exact Hrel.
Qed.

Lemma both_targets_request W H tw th :
  H <> 0 -> tw <> 0 -> th <> 0 ->
  get_new_dimensions W H (Some tw) (Some th) None true
  = (a <- Py.int_truediv W H ;;
     a' <- Py.int_truediv tw th ;;
     if (a <? a')%float then
       w <- (p <- Py.mul (PyInt th) (PyFloat a) ;; Py.int p) ;; Ok (w, th)
     else
       h <- (q <- Py.truediv (PyInt tw) (PyFloat a) ;; Py.int q) ;;
       Ok (tw, h)).
Proof.
  intros HH Htw Hth. unfold get_new_dimensions, Py.truthy.
  replace (tw =? 0) with false by (symmetry; apply Z.eqb_neq; exact Htw).
  replace (th =? 0) with false by (symmetry; apply Z.eqb_neq; exact Hth).
  cbn [negb andb Py.unwrap].
  rewrite (aspect_of_nonzero W H) by (apply Z.eqb_neq; exact HH).
  rewrite (aspect_of_nonzero tw th) by (apply Z.eqb_neq; exact Hth).
  destruct (Py.int_truediv W H) as [a|]; [|reflexivity]. cbn [Py.bind].
  destruct (Py.int_truediv tw th) as [a'|]; [|reflexivity]. cbn [Py.bind Py.gt].
  destruct (a <? a')%float.
  - destruct (Py.mul (PyInt th) (PyFloat a)) as [p|]; [|reflexivity].
    cbn [Py.bind]. destruct (Py.int p); reflexivity.
  - destruct (Py.truediv (PyInt tw) (PyFloat a)) as [q|]; [|reflexivity].
    cbn [Py.bind]. destruct (Py.int q); reflexivity.
Qed.

(** [int(t * a)] for a normal float [a] with [t * a <= c]. *)
Lemma times_aspect_dyadic (t c : Z) (a : float) ma ea :
  0 < t < 2 ^ 53 -> 0 < c < 2 ^ 53 ->
  Prim2SF a = S754_finite false ma ea ->
  2 ^ 52 <= Z.pos ma < 2 ^ 53 -> -105 <= ea <= 0 ->
  dyadic_le (t * Z.pos ma) ea c 0 ->
  exists w, (p <- Py.mul (PyInt t) (PyFloat a) ;; Py.int p) = Ok w
            /\ 0 <= w <= c.
Proof.
  intros Ht Hc Sa Hma Hea Hle.
  destruct t as [|p|p]; try lia.
  destruct (float_of_int_normal false p ltac:(lia))
    as (f & mx & ex & Hf & Sf & Hmx & Hex & Hv).
  cbn [cond_Zopp] in Hf.
  destruct (SF64mul_rounds false mx ex false ma ea Hmx Hma ltac:(lia))
    as (mr & er & Hr & Hb & Hmr & Hup).
  cbn [xorb] in Hr.
  exists (Py.int_part mr er).
  unfold Py.mul, Py.to_float. rewrite Hf. cbn [Py.bind Py.int]. split.
  - apply int_of_float_of_trunc. rewrite mul_spec, Sf, Sa, Hr. reflexivity.
  - assert (Hd : dyadic_le (Z.pos mr) er c 0).
    { apply Hup; [exact Hc|]. rewrite Hv.
      replace (Z.pos p * 2 ^ (- ex) * Z.pos ma)
        with (Z.pos p * Z.pos ma * 2 ^ (- ex)) by ring.
      apply dyadic_le_mantissa_l; [lia|].
      replace (ex + ea + - ex) with ea by lia. exact Hle. }
    pose proof (int_part_dyadic mr er c 0 ltac:(lia) ltac:(lia) Hd) as Hi.
    change (2 ^ (- 0)) with 1 in Hi. rewrite Z.div_1_r in Hi. exact Hi.
Qed.

(** [int(t / a)] for a normal float [a] with [t / a <= c + 1/2]. *)
Lemma over_aspect_dyadic (t c : Z) (a : float) ma ea :
  0 < t < 2 ^ 53 -> 0 < c < 2 ^ 52 ->
  Prim2SF a = S754_finite false ma ea ->
  2 ^ 52 <= Z.pos ma < 2 ^ 53 -> -105 <= ea <= 0 ->
  dyadic_le t 0 ((2 * c + 1) * Z.pos ma) (-1 + ea) ->
  exists h, (q <- Py.truediv (PyInt t) (PyFloat a) ;; Py.int q) = Ok h
            /\ 0 <= h <= c.
Proof.
  intros Ht Hc Sa Hma Hea Hle.
  destruct t as [|p|p]; try lia.
  destruct (float_of_int_normal false p ltac:(lia))
    as (f & mx & ex & Hf & Sf & Hmx & Hex & Hv).
  cbn [cond_Zopp] in Hf.
  destruct (SF64div_rounds false mx ex false ma ea ltac:(lia) ltac:(lia))
    as (mr & er & Hr & Hb & Hmr & Her & Hup & _).
  { rewrite (digits2_pos_53 mx Hmx), (digits2_pos_53 ma Hma). lia. }
  cbn [xorb] in Hr.
  exists (Py.int_part mr er).
  unfold Py.truediv, Py.to_float. rewrite Hf. cbn [Py.bind].
  unfold Py.float_truediv. rewrite (finite_nonzero a _ _ _ Sa).
  cbn [Py.bind Py.int]. split.
  - apply int_of_float_of_trunc. rewrite div_spec, Sf, Sa, Hr. reflexivity.
  - assert (Hd : dyadic_le (Z.pos mr) er (2 * c + 1) (-1)).
    { apply Hup; [lia|]. rewrite Hv.
      apply dyadic_le_mantissa_l; [lia|].
      replace (ex + - ex) with 0 by lia. exact Hle. }
    pose proof (int_part_dyadic mr er (2 * c + 1) (-1) ltac:(lia) ltac:(lia) Hd)
      as Hi.
    change (2 ^ (- -1)) with 2 in Hi.
    replace ((2 * c + 1) / 2) with c in Hi
      by (apply (Z.div_unique _ 2 c 1); lia).
    exact Hi.
Qed.

(** X20.  With both targets given and the aspect ratio kept, the new size
    fits in the target box and touches it: for an original W x H and
    targets tw x th, all positive and below 2 ^ 52, the result is (w, h)
    with 0 <= w <= tw and 0 <= h <= th, and w = tw or h = th.  Nothing is
    raised. *)
Theorem get_new_dimensions_fits_box (W H tw th : Z) :
  0 < W < 2 ^ 52 -> 0 < H < 2 ^ 52 -> 0 < tw < 2 ^ 52 -> 0 < th < 2 ^ 52 ->
  exists w h,
    get_new_dimensions W H (Some tw) (Some th) None true = Ok (w, h)
    /\ 0 <= w <= tw /\ 0 <= h <= th /\ (w = tw \/ h = th).
Proof.
  intros HW HH Htw Hth.
  assert (H53 : 2 ^ 52 < 2 ^ 53) by reflexivity.
  destruct (int_truediv_rounds W H ltac:(lia) ltac:(lia))
    as (a & ma & ea & Ha & Sa & Hma & Hea & _ & _).
  destruct (int_truediv_rounds tw th ltac:(lia) ltac:(lia))
    as (a' & ma' & ea' & Ha' & Sa' & Hma' & Hea' & Hup' & Hrel').
  rewrite both_targets_request by lia.
  rewrite Ha, Ha'. cbn [Py.bind].
  pose proof (ltb_normal_dyadic a a' ma ea ma' ea' Sa Sa' Hma Hma') as Hcmp.
  destruct (a <? a')%float.
  - (* the target is wider than the original: the height is kept *)
    assert (Hle : dyadic_le (th * Z.pos ma) ea tw 0).
    { destruct (dyadic_le_total (th * Z.pos ma) ea tw 0) as [|Hge]; trivial.
      exfalso. apply Hcmp. apply Hup'; [lia|].
      rewrite (Z.mul_comm (Z.pos ma) th). exact Hge. }
    destruct (times_aspect_dyadic th tw a ma ea ltac:(lia) ltac:(lia)
                Sa Hma Hea Hle) as (w & Hw & Hwb).
    exists w, th. rewrite Hw. cbn [Py.bind].
    split; [reflexivity|]. split; [exact Hwb|]. split; [lia|]. right. reflexivity.
  - (* otherwise the width is kept *)
    assert (Hle : dyadic_le tw 0 ((2 * th + 1) * Z.pos ma) (-1 + ea)).
    { set (b := Z.min ea ea' - 1).
      apply (dyadic_le_base _ _ _ _ b) in Hrel'; [|unfold b; lia|unfold b; lia].
      apply (dyadic_le_base _ _ _ _ b) in Hcmp; [|unfold b; lia|unfold b; lia].
      apply (dyadic_le_base _ _ _ _ b); [unfold b; lia|unfold b; lia|].
      assert (E2 : 2 ^ (ea - b) = 2 * 2 ^ (-1 + ea - b)).
      { replace (ea - b) with (1 + (-1 + ea - b)) by lia.
        rewrite pow2_split by (unfold b; lia). reflexivity. }
      rewrite E2 in Hcmp.
      set (U := 2 ^ (0 - b)) in *.
      set (B := 2 ^ (-1 + ea - b)) in *.
      set (A' := 2 ^ (ea' - b)) in *.
      assert (HB : 0 < B) by (apply Z.pow_pos_nonneg; unfold b; lia).
      assert (F2 : th * (Z.pos ma' * A') <= th * (Z.pos ma * (2 * B)))
        by (apply Z.mul_le_mono_nonneg_l; lia).
      assert (F3 : 0 <= (2 ^ 53 - 2 * th - 1) * (Z.pos ma * B))
        by (apply Z.mul_nonneg_nonneg; [lia|apply Z.mul_nonneg_nonneg; lia]).
      assert (F1 : (2 ^ 53 - 1) * (tw * U) <= 2 ^ 53 * (th * (Z.pos ma' * A')))
        by (replace (2 ^ 53 * (th * (Z.pos ma' * A')))
              with (2 ^ 53 * (Z.pos ma' * th) * A') by ring;
            replace ((2 ^ 53 - 1) * (tw * U))
              with ((2 ^ 53 - 1) * tw * U) by ring; exact Hrel').
      assert (F4 : (2 ^ 53 - 1) * (tw * U)
                   <= (2 ^ 53 - 1) * ((2 * th + 1) * Z.pos ma * B)).
      { replace ((2 ^ 53 - 1) * ((2 * th + 1) * Z.pos ma * B))
          with (2 ^ 53 * (th * (Z.pos ma * (2 * B)))
                + (2 ^ 53 - 2 * th - 1) * (Z.pos ma * B)) by ring.
        lia. }
      apply (Z.mul_le_mono_pos_l _ _ (2 ^ 53 - 1)); [reflexivity|exact F4]. }
    destruct (over_aspect_dyadic tw th a ma ea ltac:(lia) ltac:(lia)
                Sa Hma Hea Hle) as (h & Hh & Hhb).
    exists tw, h. rewrite Hh. cbn [Py.bind].
    split; [reflexivity|]. split; [lia|]. split; [exact Hhb|]. left. reflexivity.
Qed.

Lemma get_new_dimensions_fits_box_witness :
  exists w h,
    get_new_dimensions 1920 1080 (Some 800) (Some 600) None true = Ok (w, h)
    /\ 0 <= w <= 800 /\ 0 <= h <= 600 /\ (w = 800 \/ h = 600).
Proof.
  apply (get_new_dimensions_fits_box 1920 1080 800 600); lia.
Defined.
